(** * Complex steerable pyramid: a shallow embedding of [steerable/]

    The development follows the three source files:
    - [steerable/fft.py]            (module [fft]): half-flips of batched
      spectra stored as [N,H,W,2] tensors;
    - [steerable/SCFpyr_NumPy.py]   (module [NumPy]): the pyramid container,
      [build], [_build_levels], [reconstruct], [_reconstruct_levels];
    - [steerable/SCFpyr_PyTorch.py] (module [PyTorch]): the tensor variant of
      the builder.

    Conventions.  Python exceptions are values of [pyerr] and fallible code
    lives in the [result] monad.  float64 samples are idealised as real
    numbers ([R]); index arithmetic that numpy performs on small
    half-integers is carried out exactly in [Q]. *)

From Stdlib Require Import String DecimalString.
From Stdlib Require Import List Arith ZArith Lia Bool.
From Stdlib Require Import QArith Qround.
From Stdlib Require Import Reals Lra.
Import ListNotations.

Close Scope Q_scope.
Close Scope R_scope.
Open Scope nat_scope.
Open Scope list_scope.

Set Implicit Arguments.

(** ** Exceptions and the error monad *)

Inductive pyerr : Type :=
| AssertionError (msg : string)
| Exception_ (msg : string)
| IndexError
| TypeError
| ValueError
| AttributeError
| OverflowError
| RuntimeError.

Inductive result (A : Type) : Type :=
| Ok (a : A)
| Err (e : pyerr).

Arguments Ok {A} a.
Arguments Err {A} e.

Definition bind {A B : Type} (m : result A) (k : A -> result B) : result B :=
  match m with
  | Ok a => k a
  | Err e => Err e
  end.

Notation "x <- m ;; k" := (bind m (fun x => k))
  (at level 61, m at next level, right associativity).

Definition assert (b : bool) (msg : string) : result unit :=
  if b then Ok tt else Err (AssertionError msg).

(** ** Generic list helpers *)

Fixpoint zip_with {A B C : Type} (f : A -> B -> C) (l : list A) (m : list B)
  : list C :=
  match l, m with
  | a :: l', b :: m' => f a b :: zip_with f l' m'
  | _, _ => []
  end.

(** [l[start:start+len]], as Python and torch slice a sequence. *)
Definition slice {A : Type} (start len : nat) (l : list A) : list A :=
  firstn len (skipn start l).

(** ** [steerable/fft.py] *)

Module fft.

(** A torch tensor with four axes: its [shape] and its entries as nested
    lists, outermost axis first.  The shape is stored because an axis of
    length 0 hides the lengths of the axes inside it. *)
Record tensor4 (A : Type) : Type := mkTensor {
  tshape : nat * nat * nat * nat;
  tdata : list (list (list (list A)))
}.

Definition size (s : nat * nat * nat * nat) (axis : nat) : nat :=
  let '(n0, n1, n2, n3) := s in
  match axis with 0 => n0 | 1 => n1 | 2 => n2 | _ => n3 end.

Definition set_size (s : nat * nat * nat * nat) (axis n : nat)
  : nat * nat * nat * nat :=
  let '(n0, n1, n2, n3) := s in
  match axis with
  | 0 => (n, n1, n2, n3)
  | 1 => (n0, n, n2, n3)
  | 2 => (n0, n1, n, n3)
  | _ => (n0, n1, n2, n)
  end.

(** The entries agree with the stored shape. *)
Definition wf_tensor {A : Type} (x : tensor4 A) : Prop :=
  let '(n0, n1, n2, n3) := tshape x in
  length (tdata x) = n0 /\
  Forall (fun a => length a = n1 /\
    Forall (fun b => length b = n2 /\
      Forall (fun c => length c = n3) b) a) (tdata x).

Section Ops.
Context {A : Type}.

(** Apply a list transformer along one axis. *)
Definition along (axis : nat) (f : forall B : Type, list B -> list B)
  (d : list (list (list (list A)))) : list (list (list (list A))) :=
  match axis with
  | 0 => f _ d
  | 1 => map (f _) d
  | 2 => map (map (f _)) d
  | _ => map (map (map (f _))) d
  end.

(** [x.narrow(axis, start, len)] *)
Definition narrow (axis start len : nat) (x : tensor4 A) : tensor4 A :=
  mkTensor (set_size (tshape x) axis len)
           (along axis (fun B => slice start len) (tdata x)).

(** [torch.chunk(x, chunks, axis)]: pieces of [ceil(n / chunks)] entries
    along [axis], the last one shorter when [n] is not a multiple; an axis
    of length 0 still gives [chunks] (empty) pieces. *)
Definition chunk (x : tensor4 A) (chunks axis : nat) : list (tensor4 A) :=
  let n := size (tshape x) axis in
  let split_size := (n + chunks - 1) / chunks in
  if (split_size =? 0) && (n =? 0) then
    map (fun _ => narrow axis 0 0 x) (seq 0 chunks)
  else
    let num_splits := Nat.max ((n + split_size - 1) / split_size) 1 in
    map (fun i => narrow axis (i * split_size)
                         (Nat.min split_size (n - i * split_size)) x)
        (seq 0 num_splits).

Definition cat_data (axis : nat) (a b : list (list (list (list A))))
  : list (list (list (list A))) :=
  match axis with
  | 0 => a ++ b
  | 1 => zip_with (@app _) a b
  | 2 => zip_with (zip_with (@app _)) a b
  | _ => zip_with (zip_with (zip_with (@app _))) a b
  end.

Definition shape_eqb (s t : nat * nat * nat * nat) : bool :=
  let '(a0, a1, a2, a3) := s in
  let '(b0, b1, b2, b3) := t in
  (a0 =? b0) && (a1 =? b1) && (a2 =? b2) && (a3 =? b3).

(** [torch.cat((a, b), dim=axis)]: the other axes must agree. *)
Definition cat (a b : tensor4 A) (axis : nat) : result (tensor4 A) :=
  if shape_eqb (set_size (tshape a) axis 0) (set_size (tshape b) axis 0) then
    Ok (mkTensor
          (set_size (tshape a) axis
                    (size (tshape a) axis + size (tshape b) axis))
          (cat_data axis (tdata a) (tdata b)))
  else Err RuntimeError.

(** [def batch_flip_halves(x, axis)]; torch refuses an axis that the
    tensor does not have. *)
Definition batch_flip_halves (x : tensor4 A) (axis : nat)
  : result (tensor4 A) :=
  if 3 <? axis then Err IndexError
  else
    let split := chunk x 2 axis in
    match nth_error split 1, nth_error split 0 with
    | Some s1, Some s0 => cat s1 s0 axis
    | _, _ => Err IndexError
    end.

Definition shape_msg : string :=
  "input tensor must be of shape [N,H,W,2]"%string.

(** [def batch_fftshift2d(x)].  The [isinstance] and [x.dim() == 4] checks
    hold by typing. *)
Definition batch_fftshift2d (x : tensor4 A) : result (tensor4 A) :=
  _ <- assert (size (tshape x) 3 =? 2) shape_msg ;;
  x <- batch_flip_halves x 1 ;;
  x <- batch_flip_halves x 2 ;;
  Ok x.

(** [def batch_ifftshift2d(x)] *)
Definition batch_ifftshift2d (x : tensor4 A) : result (tensor4 A) :=
  _ <- assert (size (tshape x) 3 =? 2) shape_msg ;;
  x <- batch_flip_halves x 2 ;;
  x <- batch_flip_halves x 1 ;;
  Ok x.

End Ops.

(** The names bound at module level by [fft.py]; everything after the
    three [def]s is commented out in the source. *)
Inductive member : Type :=
| m_absolute_import | m_division | m_print_function
| m_torch
| m_batch_flip_halves | m_batch_fftshift2d | m_batch_ifftshift2d.

(** [getattr(steerable.fft, name)] *)
Definition getattr (name : string) : result member :=
  if String.eqb name "absolute_import"%string then Ok m_absolute_import
  else if String.eqb name "division"%string then Ok m_division
  else if String.eqb name "print_function"%string then Ok m_print_function
  else if String.eqb name "torch"%string then Ok m_torch
  else if String.eqb name "batch_flip_halves"%string then Ok m_batch_flip_halves
  else if String.eqb name "batch_fftshift2d"%string then Ok m_batch_fftshift2d
  else if String.eqb name "batch_ifftshift2d"%string then Ok m_batch_ifftshift2d
  else Err AttributeError.

End fft.

(** ** Numbers *)

(** A complex sample, as a pair of float64 idealised as reals. *)
Definition C : Type := (R * R)%type.

Definition C0 : C := (0%R, 0%R).
Definition RtoC (x : R) : C := (x, 0%R).
Definition Cre (z : C) : R := fst z.
Definition Cadd (z w : C) : C := (fst z + fst w, snd z + snd w)%R.
Definition Cmul (z w : C) : C :=
  (fst z * fst w - snd z * snd w, fst z * snd w + snd z * fst w)%R.
(** a complex sample times a real one *)
Definition CmulR (z : C) (x : R) : C := (fst z * x, snd z * x)%R.

Fixpoint Cpow (z : C) (n : nat) : C :=
  match n with
  | O => RtoC 1
  | S n' => Cmul z (Cpow z n')
  end.

Definition Csum (l : list C) : C := fold_right Cadd C0 l.

(** [exp(i t)] *)
Definition cis (t : R) : C := (cos t, sin t).

(** [x % y] on floats: the remainder has the sign of the divisor. *)
Definition fmod (x y : R) : R := (x - IZR (Zfloor (x / y)) * y)%R.

(** [np.log2] *)
Definition log2R (x : R) : R := (ln x / ln 2)%R.

(** The range of a 64-bit signed integer, and the value that an integer
    computed in 64 bits takes. *)
Definition int64_min : Z := (- 2 ^ 63)%Z.
Definition int64_max : Z := (2 ^ 63 - 1)%Z.

Definition wrap_int64 (z : Z) : Z :=
  ((z + 2 ^ 63) mod 2 ^ 64 - 2 ^ 63)%Z.

(** [float.astype(int)]: the conversion of a float64 to int64.  The
    fractional part is dropped, towards zero; a value whose integer part
    does not fit into 64 bits is converted to the smallest int64. *)
Definition astype_int (x : R) : Z :=
  let t := if Rle_dec 0 x then Zfloor x else Zceil x in
  if ((int64_min <=? t) && (t <=? int64_max))%Z then t else int64_min.

(** [range(a, b)] *)
Definition zrange (a b : Z) : list Z :=
  map (fun i => (a + Z.of_nat i)%Z) (seq 0 (Z.to_nat (b - a))).

(** [str(n)] for an integer *)
Definition str_Z (z : Z) : string := NilZero.string_of_int (Z.to_int z).
Definition str_nat (n : nat) : string := str_Z (Z.of_nat n).

(** [str(shape)] for the shape of a 2-D array *)
Definition str_shape (s : nat * nat) : string :=
  ("(" ++ str_nat (fst s) ++ ", " ++ str_nat (snd s) ++ ")")%string.

(** ** 2-D numpy arrays *)

(** Rows of samples.  An array without rows is [[]]; its second extent is
    then read as 0. *)
Definition array (A : Type) : Type := list (list A).

Definition shape {A : Type} (a : array A) : nat * nat :=
  (length a, match a with [] => 0 | r :: _ => length r end).

(** All rows have the same extent. *)
Definition rect {A : Type} (h w : nat) (a : array A) : Prop :=
  length a = h /\ Forall (fun r => length r = w) a.

Definition tabulate {A : Type} (h w : nat) (f : nat -> nat -> A) : array A :=
  map (fun i => map (fun j => f i j) (seq 0 w)) (seq 0 h).

Definition amap {A B : Type} (f : A -> B) (a : array A) : array B :=
  map (map f) a.

(** [np.zeros(shape)] *)
Definition zeros {A : Type} (zero : A) (s : nat * nat) : array A :=
  tabulate (fst s) (snd s) (fun _ _ => zero).

(** Broadcasting of two extents: equal, or one of them is 1. *)
Definition bdim (a b : nat) : result nat :=
  if a =? b then Ok a
  else if a =? 1 then Ok b
  else if b =? 1 then Ok a
  else Err ValueError.

Definition stretch {A : Type} (n : nat) (l : list A) : list A :=
  if length l =? n then l
  else match l with
       | [x] => repeat x n
       | _ => l
       end.

Definition broadcast_to {A : Type} (h w : nat) (a : array A) : array A :=
  stretch h (map (stretch w) a).

(** An elementwise binary operator of numpy, with broadcasting. *)
Definition ew2 {A B D : Type} (f : A -> B -> D) (a : array A) (b : array B)
  : result (array D) :=
  h <- bdim (fst (shape a)) (fst (shape b)) ;;
  w <- bdim (snd (shape a)) (snd (shape b)) ;;
  Ok (zip_with (zip_with f) (broadcast_to h w a) (broadcast_to h w b)).

(** Python index normalisation inside a slice of a sequence of length [n]. *)
Definition norm_index (n : nat) (i : Z) : nat :=
  if (i <? 0)%Z then Z.to_nat (Z.max 0 (i + Z.of_nat n))
  else Nat.min n (Z.to_nat i).

(** [l[s:e]] *)
Definition py_slice {A : Type} (s e : Z) (l : list A) : list A :=
  let n := length l in
  slice (norm_index n s) (norm_index n e - norm_index n s) l.

(** [a[s0:e0, s1:e1]] *)
Definition crop {A : Type} (s0 e0 s1 e1 : Z) (a : array A) : array A :=
  map (py_slice s1 e1) (py_slice s0 e0 a).

(** Replace [l[s:s+length v]] by [v]. *)
Definition splice {A : Type} (s : nat) (v l : list A) : list A :=
  firstn s l ++ v ++ skipn (s + length v) l.

(** [a[s0:e0, s1:e1] = v]: [v] is broadcast to the extent of the slice. *)
Definition assign_block {A : Type} (s0 e0 s1 e1 : Z) (v a : array A)
  : result (array A) :=
  let h := fst (shape a) in
  let w := snd (shape a) in
  let r0 := norm_index h s0 in
  let c0 := norm_index w s1 in
  let th := norm_index h e0 - r0 in
  let tw := norm_index w e1 - c0 in
  if ((fst (shape v) =? th) || (fst (shape v) =? 1)) &&
     ((snd (shape v) =? tw) || (snd (shape v) =? 1)) then
    let v' := broadcast_to th tw v in
    Ok (firstn r0 a ++
        zip_with (fun vr ar => splice c0 vr ar) v' (slice r0 th a) ++
        skipn (r0 + th) a)
  else Err ValueError.

(** [np.fft.fftshift] and [np.fft.ifftshift] along one axis *)
Definition rotl {A : Type} (k : nat) (l : list A) : list A :=
  skipn k l ++ firstn k l.

Definition fftshift1 {A : Type} (l : list A) : list A :=
  rotl ((length l + 1) / 2) l.

Definition ifftshift1 {A : Type} (l : list A) : list A :=
  rotl (length l - (length l + 1) / 2) l.

Definition fftshift {A : Type} (a : array A) : array A :=
  map (@fftshift1 A) (fftshift1 a).

Definition ifftshift {A : Type} (a : array A) : array A :=
  map (@ifftshift1 A) (ifftshift1 a).

Definition mapi {A B : Type} (f : nat -> A -> B) (l : list A) : list B :=
  zip_with f (seq 0 (length l)) l.

(** The 2-D discrete Fourier sum at output index [(k, l)];
    [sgn] is -1 for the forward transform and +1 for the inverse. *)
Definition dft2_at (sgn : R) (a : array C) (h w k l : nat) : C :=
  Csum (concat
    (mapi (fun m row =>
       mapi (fun n x =>
         Cmul x (cis (sgn * 2 * PI *
                      (INR m * INR k / INR h + INR n * INR l / INR w))%R))
         row) a)).

(** [np.fft.fft2]; numpy refuses an empty axis. *)
Definition fft2 (a : array C) : result (array C) :=
  let '(h, w) := shape a in
  if (h =? 0) || (w =? 0) then Err ValueError
  else Ok (tabulate h w (dft2_at (-1) a h w)).

(** [np.fft.ifft2] *)
Definition ifft2 (a : array C) : result (array C) :=
  let '(h, w) := shape a in
  if (h =? 0) || (w =? 0) then Err ValueError
  else Ok (tabulate h w (fun k l =>
             CmulR (dft2_at 1 a h w k l) (/ (INR h * INR w))%R)).

(** ** The grid and lookup-table utilities

    The module of [prepare_grid], [rcosFn] and [pointOp]
    ([steerable.math_utils] for the numpy class, [steerable.utils] for the
    tensor class) is not part of the sources at hand; what it computes is
    a parameter. *)

Record GridMaskGenerator : Type := {
  (** entry [(i, j)] of the log-radius grid of an [m] by [n] spectrum *)
  log_rad_at : nat -> nat -> nat -> nat -> R;
  (** entry [(i, j)] of the polar-angle grid of an [m] by [n] spectrum *)
  angle_at : nat -> nat -> nat -> nat -> R;
  (** [rcosFn(width, position)]: abscissa [X] and ordinate [Y] of the
      raised-cosine table *)
  rcosFn : R -> R -> list R * list R;
  (** the interpolant of the table with ordinates [Y] and abscissa [X],
      evaluated at one sample *)
  lookup : list R -> list R -> R -> R
}.

(** Modelled from the spec: [prepare_grid(height, width)] of
    [math_utils], which returns two real arrays of shape
    [(height, width)]. *)
Definition prepare_grid (G : GridMaskGenerator) (m n : nat)
  : array R * array R :=
  (tabulate m n (log_rad_at G m n), tabulate m n (angle_at G m n)).

(** Modelled from the spec: [pointOp(im, Y, X)] of [math_utils], which
    evaluates the interpolation of the table [(X, Y)] at every value of
    [im] and keeps the shape of [im]. *)
Definition pointOp (G : GridMaskGenerator) (im : array R) (Y X : list R)
  : array R :=
  amap (lookup G Y X) im.

(** ** Standard output *)

(** A computation that prints lines and may raise. *)
Definition io (A : Type) : Type := (list string * result A)%type.

Definition ret {A : Type} (a : A) : io A := ([], Ok a).

Definition iobind {A B : Type} (m : io A) (k : A -> io B) : io B :=
  match snd m with
  | Ok a => (fst m ++ fst (k a), snd (k a))
  | Err e => (fst m, Err e)
  end.

Definition lift {A : Type} (r : result A) : io A := ([], r).
Definition print (s : string) : io unit := ([s], Ok tt).

Notation "x <~ m ;; k" := (iobind m (fun x => k))
  (at level 61, m at next level, right associativity).

Fixpoint mapM {A B : Type} (f : A -> result B) (l : list A)
  : result (list B) :=
  match l with
  | [] => Ok []
  | a :: l' => b <- f a ;; bs <- mapM f l' ;; Ok (b :: bs)
  end.

Fixpoint foldM {A S : Type} (f : S -> A -> result S) (l : list A) (s : S)
  : result S :=
  match l with
  | [] => Ok s
  | a :: l' => s' <- f s a ;; foldM f l' s'
  end.

(** [l[i]] for a non-negative index *)
Definition index {A : Type} (l : list A) (i : nat) : result A :=
  match nth_error l i with
  | Some a => Ok a
  | None => Err IndexError
  end.

(** [l[i] = x] for a non-negative index *)
Fixpoint setitem {A : Type} (l : list A) (i : nat) (x : A)
  : result (list A) :=
  match l, i with
  | [], _ => Err IndexError
  | _ :: l', 0 => Ok (x :: l')
  | a :: l', S i' => r <- setitem l' i' x ;; Ok (a :: r)
  end.

(** ** Constants shared by the two pyramid classes *)

Definition lutsize : Z := 1024.

(** [np.pi * np.array(range(-(2*lutsize+1), (lutsize+2))) / lutsize] *)
Definition Xcosn : list R :=
  map (fun k => (PI * IZR k / IZR lutsize)%R)
      (zrange (- (2 * lutsize + 1)) (lutsize + 2)).

(** [(Xcosn + np.pi) % (2*np.pi) - np.pi] *)
Definition alpha : list R :=
  map (fun x => (fmod (x + PI) (2 * PI) - PI)%R) Xcosn.

(** [np.power(2, 2*order) * np.square(factorial(order)) /
     (nbands * factorial(2*order))].  The power is computed in int64:
    numpy refuses an integer raised to a negative integer, which happens
    when [nbands <= 0], and the power wraps around, to 0 from
    [nbands = 33] on.  The factorials are float64, idealised as reals;
    their square stays finite up to [order = 98], and the statements on
    sample values keep [nbands] at or below 99. *)
Definition angular_const (nbands : Z) : result R :=
  let order := (nbands - 1)%Z in
  if (order <? 0)%Z then Err ValueError
  else
    let o := Z.to_nat order in
    Ok (IZR (wrap_int64 (2 ^ (2 * order))) * Rsqr (INR (fact o))
        / (IZR nbands * INR (fact (2 * o))))%R.

(** The crop window of one axis of extent [d]:
    [ceil((d+0.5)/2) - ceil((ceil((d-0.5)/2)+0.5)/2)] and
    [start + ceil((d-0.5)/2)]. *)
Definition half_ceil (d : Z) : Z :=
  Qceiling ((inject_Z d - (1 # 2)) / inject_Z 2)%Q.

Definition low_ind_start (d : nat) : Z :=
  (Qceiling ((inject_Z (Z.of_nat d) + (1 # 2)) / inject_Z 2)%Q
   - Qceiling ((inject_Z (half_ceil (Z.of_nat d)) + (1 # 2)) / inject_Z 2)%Q)%Z.

Definition low_ind_end (d : nat) : Z :=
  (low_ind_start d + half_ceil (Z.of_nat d))%Z.

(** The crop of the source, [a[s0:e0, s1:e1]] with the window of [dims]. *)
Definition crop_window {A : Type} (dims : nat * nat) (a : array A) : array A :=
  crop (low_ind_start (fst dims)) (low_ind_end (fst dims))
       (low_ind_start (snd dims)) (low_ind_end (snd dims)) a.

(** ** [steerable/SCFpyr_NumPy.py] *)

Module NumPy.

(** One entry of the coefficient list: a real array (high-pass or
    low-pass residual) or the list of oriented complex subbands. *)
Inductive level : Type :=
| Real (a : array R)
| Bands (bs : list (array C)).

(** [class ComplexSteerablePyramid] *)
Record ComplexSteerablePyramid : Type := mkPyramid {
  _height : Z;
  _nbands : Z;
  _coeff : list (option level)
}.

(** [ComplexSteerablePyramid.__init__]: [self._coeff = [None]*height] *)
Definition init (height nbands : Z) : ComplexSteerablePyramid :=
  mkPyramid height nbands (repeat None (Z.to_nat height)).

(** [def set_level(self, level, coeff)] *)
Definition set_level (self : ComplexSteerablePyramid) (lvl : nat) (c : level)
  : result ComplexSteerablePyramid :=
  l <- setitem (_coeff self) lvl (Some c) ;;
  Ok (mkPyramid (_height self) (_nbands self) l).

(** [def get_level(self, level)] *)
Definition get_level (self : ComplexSteerablePyramid) (lvl : nat)
  : result (option level) :=
  index (_coeff self) lvl.

(** [x.shape] of an entry of [_coeff]; neither [None] nor a Python list
    has the attribute. *)
Definition shape_attr (c : option level) : result (list nat) :=
  match c with
  | Some (Real a) => Ok [fst (shape a); snd (shape a)]
  | Some (Bands _) => Err AttributeError
  | None => Err AttributeError
  end.

(** [x[0].shape] of an entry of [_coeff]: the first row of an array is a
    1-D array, the first entry of a list of subbands a 2-D one. *)
Definition item0_shape (c : option level) : result (list nat) :=
  match c with
  | Some (Real a) =>
      match a with
      | r :: _ => Ok [length r]
      | [] => Err IndexError
      end
  | Some (Bands bs) =>
      match bs with
      | b :: _ => Ok [fst (shape b); snd (shape b)]
      | [] => Err IndexError
      end
  | None => Err TypeError
  end.

(** [def level_size(self, level)] *)
Definition level_size (self : ComplexSteerablePyramid) (lvl : nat)
  : result (list nat) :=
  if lvl =? 0 then
    (* High-pass *)
    c <- index (_coeff self) lvl ;; shape_attr c
  else if (Z.of_nat lvl =? _nbands self)%Z then
    (* Low-pass *)
    c <- index (_coeff self) lvl ;; item0_shape c
  else
    (* Intermediate levels *)
    c <- index (_coeff self) lvl ;; item0_shape c.

(** [class SCFpyr_NumPy], the fields set by [__init__] *)
Record SCFpyr_NumPy : Type := mkSCFpyr {
  nbands : Z;
  height : Z;
  scale_factor : R
}.

Definition rule : string :=
  "############################################################"%string.

Definition config_msg (m : Z) : string :=
  ("Cannot buid pyramid heigher than " ++ str_Z m ++ " levels")%string.

(** [int(np.floor(np.log2(min(width, height))) - 2)]; for the extent of
    an image the float logarithm has the integer part [Z.log2]; the
    logarithm of 0 is minus infinity, which [int] refuses. *)
Definition max_height_pyr (h w : nat) : result Z :=
  let n := Nat.min w h in
  if n =? 0 then Err OverflowError
  else Ok (Z.log2 (Z.of_nat n) - 2)%Z.

Section WithUtils.
Variable G : GridMaskGenerator.
Variable self : SCFpyr_NumPy.

(** The angular profile of the builder:
    [2*np.sqrt(const) * np.power(np.cos(self.Xcosn), order) *
     (np.abs(self.alpha) < np.pi/2)] *)
Definition build_Ycosn (const : R) (order : nat) : list R :=
  zip_with (fun x a =>
              (2 * sqrt const * cos x ^ order *
               (if Rlt_dec (Rabs a) (PI / 2) then 1 else 0))%R)
           Xcosn alpha.

(** [np.power(np.complex(0, -1), self.nbands - 1)] *)
Definition build_phase : C := Cpow (0, -1)%R (Z.to_nat (nbands self - 1)).

(** One pass of the loop over the orientation bands in [_build_levels]. *)
Definition build_band (lodft : array C) (angle himask : array R)
  (Ycosn : list R) (b : nat) : result (array C) :=
  let anglemask :=
    pointOp G angle Ycosn
      (map (fun x => (x + PI * INR b / IZR (nbands self))%R) Xcosn) in
  t <- ew2 CmulR (amap (Cmul build_phase) lodft) anglemask ;;
  banddft <- ew2 CmulR t himask ;;
  ifft2 (ifftshift banddft).

(** What one pass through the [else] branch of [_build_levels] hands to
    the recursive call: the new bindings of [lodft], [log_rad], [angle]
    and [Xrcos] ([Yrcos] is passed on unchanged). *)
Record passed_on : Type := mkPassed {
  next_lodft : array C;
  next_log_rad : array R;
  next_angle : array R;
  next_Xrcos : list R
}.

(** The [else] branch of [_build_levels] up to the recursive call: the
    oriented subbands of this level and the arguments of the call. *)
Definition build_pass (lodft : array C) (log_rad angle : array R)
  (Xrcos Yrcos : list R) (height : nat)
  : io (list (array C) * passed_on) :=
  _ <~ print ("LEVEL " ++ str_nat height)%string ;;
  let Xrcos := map (fun x => (x - 1)%R) Xrcos in
  (* Orientation bandpass *)
  let himask := pointOp G log_rad Yrcos Xrcos in
  const <~ lift (angular_const (nbands self)) ;;
  let order := Z.to_nat (nbands self - 1) in
  let Ycosn := build_Ycosn const order in
  orientations <~
    lift (mapM (build_band lodft angle himask Ycosn)
               (seq 0 (Z.to_nat (nbands self)))) ;;
  (* Subsample lowpass *)
  let dims := shape lodft in
  let log_rad := crop_window dims log_rad in
  let angle := crop_window dims angle in
  let lodft := crop_window dims lodft in
  let YIrcos := map (fun y => Rabs (sqrt (1 - y ^ 2)))%R Yrcos in
  let lomask := pointOp G log_rad YIrcos Xrcos in
  lodft <~ lift (ew2 (fun m z => CmulR z m) lomask lodft) ;;
  _ <~ print "Lowpass:"%string ;;
  _ <~ print ("  lodft " ++ str_shape (shape lodft)
              ++ " complex128")%string ;;
  ret (orientations, mkPassed lodft log_rad angle Xrcos).

(** [def _build_levels(self, lodft, log_rad, angle, Xrcos, Yrcos, height)];
    the remaining height of the source is an int, and every value below 2
    takes the first branch. *)
Fixpoint _build_levels (lodft : array C) (log_rad angle : array R)
  (Xrcos Yrcos : list R) (height : nat) {struct height} : io (list level) :=
  _ <~ print rule ;;
  match height with
  | 0 | 1 =>
      (* Low-pass *)
      _ <~ print "LOW-PASS"%string ;;
      lo0 <~ lift (ifft2 (ifftshift lodft)) ;;
      _ <~ print ("  low-pass band, shape: " ++ str_shape (shape lo0)
                  ++ ", type: float64")%string ;;
      ret [Real (amap Cre lo0)]
  | S height' =>
      p <~ build_pass lodft log_rad angle Xrcos Yrcos height ;;
      (* Recursion next level *)
      coeff <~ _build_levels (next_lodft (snd p)) (next_log_rad (snd p))
                             (next_angle (snd p)) (next_Xrcos (snd p))
                             Yrcos height' ;;
      ret (Bands (fst p) :: coeff)
  end.

(** The loop [for level, level_coeff in enumerate(coeff)] of [build]. *)
Definition set_levels (pyr : ComplexSteerablePyramid) (coeff : list level)
  : result ComplexSteerablePyramid :=
  foldM (fun p ic => set_level p (fst ic) (snd ic))
        (combine (seq 0 (length coeff)) coeff) pyr.

(** [def build(self, im)].  The image is 2-D by typing. *)
Definition build (im : array R) : io ComplexSteerablePyramid :=
  let '(h, w) := shape im in
  (* Check whether im shape allows the pyramid M *)
  max <~ lift (max_height_pyr h w) ;;
  _ <~ lift (assert (height self <=? max)%Z (config_msg max)) ;;
  (* Prepare a grid *)
  let '(log_rad, angle) := prepare_grid G h w in
  let '(Xrcos, Yrcos) := rcosFn G 1 (-0.5) in
  let Yrcos := map sqrt Yrcos in
  let YIrcos := map (fun y => sqrt (1 - y ^ 2))%R Yrcos in
  let lo0mask := pointOp G log_rad YIrcos Xrcos in
  let hi0mask := pointOp G log_rad Yrcos Xrcos in
  f <~ lift (fft2 (amap RtoC im)) ;;
  let imdft := fftshift f in
  (* Low-pass *)
  lo0dft <~ lift (ew2 CmulR imdft lo0mask) ;;
  (* Recursive build the steerable pyramid *)
  coeff <~ _build_levels lo0dft log_rad angle Xrcos Yrcos
                         (Z.to_nat (height self - 1)) ;;
  (* High-pass *)
  hi0dft <~ lift (ew2 CmulR imdft hi0mask) ;;
  hi0 <~ lift (ifft2 (ifftshift hi0dft)) ;;
  _ <~ print rule ;;
  _ <~ print "HIGH-PASS"%string ;;
  _ <~ print ("  high-pass band, shape: " ++ str_shape (shape hi0))%string ;;
  _ <~ print rule ;;
  (* Note: high-pass is inserted in the beginning *)
  let coeff := Real (amap Cre hi0) :: coeff in
  (* Convert to pyramid object *)
  let pyr := init (height self) (nbands self) in
  lift (set_levels pyr coeff).

(** What [reconstruct] may be handed: a Python list of levels, or the
    container object that [build] returns. *)
Inductive coeff_arg : Type :=
| CoeffList (l : list level)
| CoeffPyramid (p : ComplexSteerablePyramid).

Definition unmatched : pyerr :=
  Exception_ "Unmatched number of orientations"%string.

(** [len(x)] of a level: the number of rows of an array, the number of
    entries of a list. *)
Definition level_len (c : level) : nat :=
  match c with
  | Real a => length a
  | Bands bs => length bs
  end.

(** The angular profile of the reconstructor:
    [np.sqrt(const) * np.power(np.cos(Xcosn), order)] *)
Definition recon_Ycosn (const : R) (order : nat) : list R :=
  map (fun x => (sqrt const * cos x ^ order)%R) Xcosn.

(** [np.power(np.complex(0, 1), order)] *)
Definition recon_phase : C := Cpow (0, 1)%R (Z.to_nat (nbands self - 1)).

(** One pass of the loop over the orientation bands in
    [_reconstruct_levels]. *)
Definition recon_band (bs : list (array C)) (angle himask : array R)
  (Ycosn : list R) (orientdft : array C) (b : nat) : result (array C) :=
  let anglemask :=
    pointOp G angle Ycosn
      (map (fun x => (x + PI * INR b / IZR (nbands self))%R) Xcosn) in
  band <- index bs b ;;
  f <- fft2 band ;;
  let banddft := fftshift f in
  t <- ew2 CmulR (amap (Cmul recon_phase) banddft) anglemask ;;
  t <- ew2 CmulR t himask ;;
  ew2 Cadd orientdft t.

(** The [else] branch of [_reconstruct_levels]; [recur] stands for the
    call on [coeff[1:]].  With a real array at [coeff[0]] the entries
    [coeff[0][b]] are rows, and numpy raises [IndexError], at [coeff[0][0]]
    for an array without rows and in [fft2] of the first row otherwise. *)
Definition recon_step (coeff : list level)
  (recur : array R -> list R -> list R -> array R -> result (array C))
  (log_rad : array R) (Xrcos Yrcos : list R) (angle : array R)
  : result (array C) :=
  let Xrcos := map (fun x => (x - 1)%R) Xrcos in
  (* Orientation Residue *)
  let himask := pointOp G log_rad Yrcos Xrcos in
  const <- angular_const (nbands self) ;;
  let order := Z.to_nat (nbands self - 1) in
  let Ycosn := recon_Ycosn const order in
  c0 <- index coeff 0 ;;
  bs <- match c0 with
        | Bands bs => Ok bs
        | Real _ => Err IndexError
        end ;;
  b0 <- index bs 0 ;;
  let orientdft := zeros C0 (shape b0) in
  orientdft <- foldM (recon_band bs angle himask Ycosn)
                     (seq 0 (Z.to_nat (nbands self))) orientdft ;;
  (* Lowpass component are upsampled and convoluted *)
  let dims := shape b0 in
  let nlog_rad := crop_window dims log_rad in
  let nangle := crop_window dims angle in
  let YIrcos := map (fun y => sqrt (Rabs (1 - y * y)))%R Yrcos in
  let lomask := pointOp G nlog_rad YIrcos Xrcos in
  nresdft <- recur nlog_rad Xrcos Yrcos nangle ;;
  v <- ew2 CmulR nresdft lomask ;;
  resdft <- assign_block (low_ind_start (fst dims)) (low_ind_end (fst dims))
                         (low_ind_start (snd dims)) (low_ind_end (snd dims))
                         v (zeros C0 dims) ;;
  ew2 Cadd resdft orientdft.

(** [def _reconstruct_levels(self, coeff, log_rad, Xrcos, Yrcos, angle)].
    With a list of subbands as the single remaining level numpy stacks
    the subbands and carries on with a 3-D array, which the 2-D arrays
    here cannot hold; that case stands as [TypeError], and no statement
    is made about it. *)
Fixpoint _reconstruct_levels (coeff : list level) (log_rad : array R)
  (Xrcos Yrcos : list R) (angle : array R) {struct coeff}
  : result (array C) :=
  match coeff with
  | [c] =>
      (* Single level remaining, just perform Fourier transform *)
      match c with
      | Real a => f <- fft2 (amap RtoC a) ;; Ok (fftshift f)
      | Bands _ => Err TypeError
      end
  | [] =>
      recon_step [] (fun _ _ _ _ => Err IndexError) log_rad Xrcos Yrcos angle
  | _ :: rest =>
      recon_step coeff (_reconstruct_levels rest) log_rad Xrcos Yrcos angle
  end.

(** The spectrum [outdft] assembled by [reconstruct] from a list of
    levels, up to the last line of the function. *)
Definition reconstruct_outdft (coeff : list level) : result (array C) :=
  c1 <- index coeff 1 ;;
  if negb (nbands self =? Z.of_nat (level_len c1))%Z then Err unmatched
  else
    c0 <- index coeff 0 ;;
    a0 <- match c0 with
          | Real a => Ok a
          | Bands _ => Err AttributeError
          end ;;
    let '(M, N) := shape a0 in
    let '(log_rad, angle) := prepare_grid G M N in
    let '(Xrcos, Yrcos) := rcosFn G 1 (-0.5) in
    let Yrcos := map sqrt Yrcos in
    let YIrcos := map (fun y => sqrt (Rabs (1 - y * y)))%R Yrcos in
    let lo0mask := pointOp G log_rad YIrcos Xrcos in
    let hi0mask := pointOp G log_rad Yrcos Xrcos in
    tempdft <- _reconstruct_levels (tl coeff) log_rad Xrcos Yrcos angle ;;
    f <- fft2 (amap RtoC a0) ;;
    let hidft := fftshift f in
    t1 <- ew2 CmulR tempdft lo0mask ;;
    t2 <- ew2 CmulR hidft hi0mask ;;
    ew2 Cadd t1 t2.

(** [def reconstruct(self, coeff)]; indexing the container object with
    [coeff[1]] raises [TypeError], as the class defines no [__getitem__]. *)
Definition reconstruct (coeff : coeff_arg) : result (array Z) :=
  match coeff with
  | CoeffPyramid _ => Err TypeError
  | CoeffList l =>
      outdft <- reconstruct_outdft l ;;
      r <- ifft2 (ifftshift outdft) ;;
      Ok (amap (fun z => astype_int (Cre z)) r)
  end.

End WithUtils.

End NumPy.

(** ** [steerable/SCFpyr_PyTorch.py] *)

(** The torch and numpy library calls that the file applies to tensors. *)
Record TorchOps : Type := {
  Tensor : Type;
  (** [x.dtype == torch.float32] *)
  is_float32 : Tensor -> bool;
  (** [x.shape] *)
  tensor_shape : Tensor -> list nat;
  (** [torch.from_numpy(a).float().to(device)] *)
  from_numpy : array R -> Tensor;
  (** [torch.from_numpy(a)[None,None,:,:]], in either order with [.float()] *)
  from_numpy4 : array R -> Tensor;
  (** [torch.rfft(x, signal_ndim=2, onesided=False)] *)
  rfft : Tensor -> result Tensor;
  (** [torch.ifft(x, signal_ndim=2)] *)
  ifft : Tensor -> result Tensor;
  (** [torch.unbind(x, -1)] *)
  unbind : Tensor -> list Tensor;
  (** [x[i]] *)
  item : Tensor -> nat -> result Tensor;
  (** [x * y] on two tensors *)
  mul : Tensor -> Tensor -> result Tensor;
  (** [a * x] for a numpy array [a] *)
  mul_np : array R -> Tensor -> result Tensor;
  (** [x[s0:e0, s1:e1]] *)
  crop_tensor : Z -> Z -> Z -> Z -> Tensor -> Tensor;
  (** the real and imaginary part of a complex number as a float32 tensor,
      with [[:,None,None,None]] *)
  complex_tensor : C -> Tensor;
  (** [np.fft.ifft2(np.fft.ifftshift(x)).real] *)
  np_ifft2_real : Tensor -> result Tensor;
  (** [str(x.shape) + ' ' + str(x.dtype)] *)
  describe : Tensor -> string
}.

Module PyTorch.

Record SCFpyr_PyTorch : Type := mkSCFpyr {
  nbands : Z;
  height : Z;
  scale_factor : R
}.

Definition config_msg (m : Z) : string :=
  ("Cannot buid pyramid with more than " ++ str_Z m ++ " levels")%string.

Section WithOps.
Variable T : TorchOps.
Variable G : GridMaskGenerator.
Variable self : SCFpyr_PyTorch.

(** One entry of the coefficient list. *)
Inductive level : Type :=
| One (t : Tensor T)
| Bands (bs : list (Tensor T)).

(** Calling a member of [steerable.fft] with two tensors. *)
Definition call2 (m : fft.member) (a b : Tensor T) : result (Tensor T) :=
  match m with
  | fft.m_batch_flip_halves => Err TypeError   (* the axis is a tensor *)
  | fft.m_batch_fftshift2d
  | fft.m_batch_ifftshift2d => Err TypeError   (* one parameter only *)
  | _ => Err TypeError                         (* not callable *)
  end.

(** [fft_utils.fftshift(a, b)] *)
Definition fft_utils_fftshift (a b : Tensor T) : result (Tensor T) :=
  f <- fft.getattr "fftshift" ;; call2 f a b.

(** One pass of the loop over the orientation bands in [_build_levels]. *)
Definition build_band (lodft : Tensor T) (angle : array R)
  (himask complex_factor : Tensor T) (Ycosn : list R) (b : nat)
  : io (Tensor T) :=
  let anglemask :=
    from_numpy4 T
      (pointOp G angle Ycosn
         (map (fun x => (x + PI * INR b / IZR (nbands self))%R) Xcosn)) in
  _ <~ print ("complex_factor " ++ describe T complex_factor)%string ;;
  _ <~ print ("anglemask " ++ describe T anglemask)%string ;;
  _ <~ print ("lodft " ++ describe T lodft)%string ;;
  _ <~ print ("himask " ++ describe T himask)%string ;;
  (* Bandpass filtering *)
  t <~ lift (mul T complex_factor lodft) ;;
  t <~ lift (mul T t anglemask) ;;
  banddft <~ lift (mul T t himask) ;;
  (* Inverse Fourier transform (complex-to-complex) *)
  band <~ lift (ifft T banddft) ;;
  _ <~ print ("banddft " ++ describe T banddft)%string ;;
  _ <~ print ("band " ++ describe T band)%string ;;
  ret band.

Fixpoint mapIO {A B : Type} (f : A -> io B) (l : list A) : io (list B) :=
  match l with
  | [] => ret []
  | a :: l' => b <~ f a ;; bs <~ mapIO f l' ;; ret (b :: bs)
  end.

(** What one pass through the [else] branch of [_build_levels] hands to
    the recursive call. *)
Record passed_on : Type := mkPassed {
  next_lodft : Tensor T;
  next_log_rad : array R;
  next_angle : array R;
  next_Xrcos : list R
}.

(** The [else] branch of [_build_levels] up to the recursive call. *)
Definition build_pass (lodft : Tensor T) (log_rad angle : array R)
  (Xrcos Yrcos : list R) : io (list (Tensor T) * passed_on) :=
  let Xrcos := map (fun x => (x - log2R (scale_factor self))%R) Xrcos in
  (* Orientation bandpass *)
  let himask := from_numpy T (pointOp G log_rad Yrcos Xrcos) in
  const <~ lift (angular_const (nbands self)) ;;
  let order := Z.to_nat (nbands self - 1) in
  let Ycosn :=
    zip_with (fun x a =>
                (2 * sqrt const * cos x ^ order *
                 (if Rlt_dec (Rabs a) (PI / 2) then 1 else 0))%R)
             Xcosn alpha in
  (* Constant and complex multiplication factor *)
  let complex_factor :=
    complex_tensor T (Cpow (0, -1)%R (Z.to_nat (nbands self - 1))) in
  orientations <~
    mapIO (build_band lodft angle himask complex_factor Ycosn)
          (seq 0 (Z.to_nat (nbands self))) ;;
  (* Subsample lowpass *)
  d0 <~ lift (index (tensor_shape T lodft) 0) ;;
  d1 <~ lift (index (tensor_shape T lodft) 1) ;;
  let log_rad := crop_window (d0, d1) log_rad in
  let angle := crop_window (d0, d1) angle in
  let lodft :=
    crop_tensor T (low_ind_start d0) (low_ind_end d0)
                  (low_ind_start d1) (low_ind_end d1) lodft in
  let YIrcos := map (fun y => Rabs (sqrt (1 - y ^ 2)))%R Yrcos in
  let lomask := pointOp G log_rad YIrcos Xrcos in
  lodft <~ lift (mul_np T lomask lodft) ;;
  ret (orientations, mkPassed lodft log_rad angle Xrcos).

(** [def _build_levels(self, lodft, log_rad, angle, Xrcos, Yrcos, height)] *)
Fixpoint _build_levels (lodft : Tensor T) (log_rad angle : array R)
  (Xrcos Yrcos : list R) (height : nat) {struct height} : io (list level) :=
  match height with
  | 0 | 1 =>
      (* Low-pass *)
      lo0 <~ lift (rfft T lodft) ;;
      re <~ lift (item T lo0 0) ;;
      im <~ lift (item T lo0 1) ;;
      lo0 <~ lift (fft_utils_fftshift re im) ;;
      lo <~ lift (item T lo0 0) ;;
      ret [One lo]
  | S height' =>
      p <~ build_pass lodft log_rad angle Xrcos Yrcos ;;
      (* Recursion next level *)
      coeff <~ _build_levels (next_lodft (snd p)) (next_log_rad (snd p))
                             (next_angle (snd p)) (next_Xrcos (snd p))
                             Yrcos height' ;;
      ret (Bands (fst p) :: coeff)
  end.

(** [def build(self, im_batch)] *)
Definition build (im_batch : Tensor T) : io (list level) :=
  _ <~ lift (assert (is_float32 T im_batch)
                    "Image batch must be torch.float32"%string) ;;
  _ <~ lift (assert (length (tensor_shape T im_batch) =? 3)
                    "Images batch must be grayscale"%string) ;;
  let h := nth 1 (tensor_shape T im_batch) 0 in
  let w := nth 2 (tensor_shape T im_batch) 0 in
  (* Check whether im shape allows the pyramid M *)
  max <~ lift (NumPy.max_height_pyr h w) ;;
  _ <~ lift (assert (height self <=? max)%Z (config_msg max)) ;;
  (* Prepare a grid *)
  let '(log_rad, angle) := prepare_grid G h w in
  let '(Xrcos, Yrcos) := rcosFn G 1 (-0.5) in
  let Yrcos := map sqrt Yrcos in
  let YIrcos := map (fun y => sqrt (1 - y ^ 2))%R Yrcos in
  let lo0mask := from_numpy4 T (pointOp G log_rad YIrcos Xrcos) in
  let hi0mask := from_numpy4 T (pointOp G log_rad Yrcos Xrcos) in
  (* Fourier transform (2D) and shifting *)
  batch_dft <~ lift (rfft T im_batch) ;;
  let batch_dft := unbind T batch_dft in
  re <~ lift (index batch_dft 0) ;;
  im <~ lift (index batch_dft 1) ;;
  batch_dft <~ lift (fft_utils_fftshift re im) ;;
  (* Low-pass *)
  lo0dft <~ lift (mul T batch_dft lo0mask) ;;
  coeff <~ _build_levels lo0dft log_rad angle Xrcos Yrcos
                         (Z.to_nat (height self - 1)) ;;
  (* High-pass *)
  hi0dft <~ lift (mul T batch_dft hi0mask) ;;
  hi0 <~ lift (np_ifft2_real T hi0dft) ;;
  (* Note: high-pass is inserted in the beginning *)
  ret (One hi0 :: coeff).

(** *** Reconstruction

    [reconstruct] and [_reconstruct_levels] work with numpy on lists of
    numpy arrays, as their namesakes of [SCFpyr_NumPy] do. *)

Definition unmatched : pyerr :=
  Exception_ "Unmatched number of orientations"%string.

(** One pass of the loop over the orientation bands in
    [_reconstruct_levels].  [orientdft] is a float64 array, and numpy
    refuses to add a complex array to it in place. *)
Definition recon_band (bs : list (array C)) (angle himask : array R)
  (Ycosn : list R) (orientdft : array C) (b : nat) : result (array C) :=
  let anglemask :=
    pointOp G angle Ycosn
      (map (fun x => (x + PI * INR b / IZR (nbands self))%R) Xcosn) in
  band <- index bs b ;;
  f <- fft2 band ;;
  let banddft := fftshift f in
  t <- ew2 CmulR (amap (Cmul (Cpow (0, 1)%R (Z.to_nat (nbands self - 1))))
                       banddft) anglemask ;;
  t <- ew2 CmulR t himask ;;
  (* orientdft += t *)
  Err TypeError.

(** The [else] branch of [_reconstruct_levels]; [recur] stands for the
    call on [coeff[1:]].  With a real array at [coeff[0]] the entries
    [coeff[0][b]] are rows, and numpy raises [IndexError], at [coeff[0][0]]
    for an array without rows and in [fft2] of the first row otherwise. *)
Definition recon_step (coeff : list NumPy.level)
  (recur : array R -> list R -> list R -> array R -> result (array C))
  (log_rad : array R) (Xrcos Yrcos : list R) (angle : array R)
  : result (array C) :=
  let Xrcos := map (fun x => (x - 1)%R) Xrcos in
  (* Orientation Residue *)
  let himask := pointOp G log_rad Yrcos Xrcos in
  const <- angular_const (nbands self) ;;
  let order := Z.to_nat (nbands self - 1) in
  let Ycosn := map (fun x => (sqrt const * cos x ^ order)%R) Xcosn in
  c0 <- index coeff 0 ;;
  bs <- match c0 with
        | NumPy.Bands bs => Ok bs
        | NumPy.Real _ => Err IndexError
        end ;;
  b0 <- index bs 0 ;;
  let orientdft := zeros C0 (shape b0) in
  orientdft <- foldM (recon_band bs angle himask Ycosn)
                     (seq 0 (Z.to_nat (nbands self))) orientdft ;;
  (* Lowpass component are upsampled and convoluted *)
  let dims := shape b0 in
  let nlog_rad := crop_window dims log_rad in
  let nangle := crop_window dims angle in
  let YIrcos := map (fun y => sqrt (Rabs (1 - y * y)))%R Yrcos in
  let lomask := pointOp G nlog_rad YIrcos Xrcos in
  nresdft <- recur nlog_rad Xrcos Yrcos nangle ;;
  v <- ew2 CmulR nresdft lomask ;;
  resdft <- assign_block (low_ind_start (fst dims)) (low_ind_end (fst dims))
                         (low_ind_start (snd dims)) (low_ind_end (snd dims))
                         v (zeros C0 dims) ;;
  ew2 Cadd resdft orientdft.

(** [def _reconstruct_levels(self, coeff, log_rad, Xrcos, Yrcos, angle)] *)
Fixpoint _reconstruct_levels (coeff : list NumPy.level) (log_rad : array R)
  (Xrcos Yrcos : list R) (angle : array R) {struct coeff}
  : result (array C) :=
  match coeff with
  | [c] =>
      (* Single level remaining, just perform Fourier transform *)
      match c with
      | NumPy.Real a => f <- fft2 (amap RtoC a) ;; Ok (fftshift f)
      | NumPy.Bands _ => Err TypeError
      end
  | [] =>
      recon_step [] (fun _ _ _ _ => Err IndexError) log_rad Xrcos Yrcos angle
  | _ :: rest =>
      recon_step coeff (_reconstruct_levels rest) log_rad Xrcos Yrcos angle
  end.

(** [def reconstruct(self, coeff)] *)
Definition reconstruct (coeff : list NumPy.level) : result (array Z) :=
  c1 <- index coeff 1 ;;
  if negb (nbands self =? Z.of_nat (NumPy.level_len c1))%Z then Err unmatched
  else
    c0 <- index coeff 0 ;;
    a0 <- match c0 with
          | NumPy.Real a => Ok a
          | NumPy.Bands _ => Err AttributeError
          end ;;
    let '(M, N) := shape a0 in
    let '(log_rad, angle) := prepare_grid G M N in
    let '(Xrcos, Yrcos) := rcosFn G 1 (-0.5) in
    let Yrcos := map sqrt Yrcos in
    let YIrcos := map (fun y => sqrt (Rabs (1 - y * y)))%R Yrcos in
    let lo0mask := pointOp G log_rad YIrcos Xrcos in
    let hi0mask := pointOp G log_rad Yrcos Xrcos in
    tempdft <- _reconstruct_levels (tl coeff) log_rad Xrcos Yrcos angle ;;
    f <- fft2 (amap RtoC a0) ;;
    let hidft := fftshift f in
    t1 <- ew2 CmulR tempdft lo0mask ;;
    t2 <- ew2 CmulR hidft hi0mask ;;
    outdft <- ew2 Cadd t1 t2 ;;
    r <- ifft2 (ifftshift outdft) ;;
    Ok (amap (fun z => astype_int (Cre z)) r).

End WithOps.

End PyTorch.

(** ** Notions used in the statements *)

Unset Implicit Arguments.

(** The exceptions that the pyramid code raises itself, by [assert] or
    [raise]. *)
Definition own_exception (e : pyerr) : bool :=
  match e with
  | AssertionError _ | Exception_ _ => true
  | _ => false
  end.

(** A computation that raises, if at all, an exception of the libraries. *)
Definition quiet {A : Type} (r : result A) : Prop :=
  forall e, r = Err e -> own_exception e = false.

(** Swapping the two halves of a list of even length. *)
Definition swap_halves (k : nat) {B : Type} (l : list B) : list B :=
  slice k k l ++ slice 0 k l.

(** The extent of an axis after one crop. *)
Definition next_dim (d : nat) : nat := (d + 1) / 2.

(** The shape of level [k >= 1] of a pyramid over an [H] by [W] image:
    [k - 1] crops of the image shape. *)
Definition level_dims (H W k : nat) : nat * nat :=
  (Nat.iter (k - 1) next_dim H, Nat.iter (k - 1) next_dim W).

(** The list that [_build_levels] returns for a spectrum of [h] by [w]
    samples and remaining height [n]. *)
Fixpoint levels_ok (nb h w n : nat) (coeff : list NumPy.level) : Prop :=
  match n with
  | 0 | 1 => exists a, coeff = [NumPy.Real a] /\ rect h w a
  | S n' =>
      exists bs rest,
        coeff = NumPy.Bands bs :: rest /\ length bs = nb /\
        Forall (rect h w) bs /\
        levels_ok nb (next_dim h) (next_dim w) n' rest
  end.

(** A list of levels of the form that [build] fills into its container
    for an [H] by [W] image: the high-pass residual, at least one level of
    [nbands] subbands, and the low-pass residual, with the shapes of the
    crop windows. *)
Definition valid_tree (self : NumPy.SCFpyr_NumPy) (H W : nat)
  (tree : list NumPy.level) : Prop :=
  0 < H /\ 0 < W /\ (1 <= NumPy.nbands self)%Z /\
  exists hi coeff n,
    tree = NumPy.Real hi :: coeff /\ 2 <= n /\ rect H W hi /\
    levels_ok (Z.to_nat (NumPy.nbands self)) H W n coeff.

(** A coefficient list as the specification has it for an [H] by [W]
    image and at least one band: the high-pass residual, [n - 1 >= 0]
    levels of [nbands] subbands and the low-pass residual, with the
    shapes of the crop windows; the list has [n + 1 >= 2] levels. *)
Definition pyramid_tree (self : NumPy.SCFpyr_NumPy) (H W : nat)
  (tree : list NumPy.level) : Prop :=
  0 < H /\ 0 < W /\ (1 <= NumPy.nbands self)%Z /\
  exists hi coeff n,
    tree = NumPy.Real hi :: coeff /\ 1 <= n /\ rect H W hi /\
    levels_ok (Z.to_nat (NumPy.nbands self)) H W n coeff.




(** The configurations for which the angular constant of a level of
    subbands is a finite float64: the square of [factorial(nbands - 1)]
    overflows from 100 bands on. *)
Definition finite_const (self : NumPy.SCFpyr_NumPy) : Prop :=
  (NumPy.nbands self <= 99)%Z.

(** ** Sample inputs *)

(** A grid generator with a one-point table: the interpolant is the
    constant given by the first ordinate, and the raised-cosine table
    [([0], [0])] makes the high-pass mask 0 and the low-pass mask 1, as
    at the lowest frequencies of a spectrum. *)
Definition flat_utils : GridMaskGenerator :=
  {| log_rad_at := fun _ _ _ _ => 0%R;
     angle_at := fun _ _ _ _ => 0%R;
     rcosFn := fun _ _ => ([0%R], [0%R]);
     lookup := fun Y _ _ => hd 0%R Y |}.

(** An image of zeros. *)
Definition blank (h w : nat) : array R := zeros 0%R (h, w).

(** [SCFpyr_NumPy(height=3, nbands=4, scale_factor=2)] *)
Definition pyr3 : NumPy.SCFpyr_NumPy := NumPy.mkSCFpyr 4 3 2.

(** [SCFpyr_NumPy(height=8, nbands=4, scale_factor=2)] *)
Definition pyr8 : NumPy.SCFpyr_NumPy := NumPy.mkSCFpyr 4 8 2.

(** A 1x2x2x2 tensor. *)
Definition sample_tensor : fft.tensor4 nat :=
  fft.mkTensor (1, 2, 2, 2)
    [[[[1; 2]; [3; 4]]; [[5; 6]; [7; 8]]]].

(** A list of levels whose [coeff[1]] has three subbands. *)
Definition three_band_tree : list NumPy.level :=
  [NumPy.Real [[0%R]];
   NumPy.Bands [[[C0]]; [[C0]]; [[C0]]];
   NumPy.Real [[0%R]]].

(** [SCFpyr_NumPy(height=3, nbands=4, scale_factor=4)] *)
Definition pyr_sf4 : NumPy.SCFpyr_NumPy := NumPy.mkSCFpyr 4 3 4.

(** [SCFpyr_NumPy(height=3, nbands=1, scale_factor=2)] *)
Definition pyr_nb1 : NumPy.SCFpyr_NumPy := NumPy.mkSCFpyr 1 3 2.


(** A 1x3x2x2 tensor: the second axis has odd length. *)
Definition odd_tensor : fft.tensor4 nat :=
  fft.mkTensor (1, 3, 2, 2)
    [[[[1; 2]; [3; 4]]; [[5; 6]; [7; 8]]; [[9; 10]; [11; 12]]]].

(** ** Notions used for the remaining code *)

(** What [batch_flip_halves] does to one list along an axis of length [n]:
    the last [n - ceil(n/2)] entries, then the first [ceil(n/2)]. *)
Definition flip_list (n : nat) {B : Type} (l : list B) : list B :=
  slice ((n + 1) / 2) (n - (n + 1) / 2) l ++ slice 0 ((n + 1) / 2) l.

(** [a[i, j]], where the sample exists. *)
Definition sample {A : Type} (a : array A) (i j : nat) : option A :=
  match nth_error a i with
  | Some r => nth_error r j
  | None => None
  end.

(** The first index of the crop window of an axis of extent [d]. *)
Definition window_start (d : nat) : nat := d / 2 - next_dim d / 2.

(** Index [i] of an axis of extent [d] lies in the crop window. *)
Definition in_window (d i : nat) : Prop :=
  window_start d <= i < window_start d + next_dim d.

(** An array that holds at [(i, j)] its row-major position. *)
Definition ramp (h w : nat) : array nat :=
  tabulate h w (fun i j => i * w + j).

(** The lines that [_build_levels] prints for a spectrum of [h] by [w]
    samples and remaining height [n]. *)
Fixpoint levels_trace (h w n : nat) : list string :=
  match n with
  | 0 | 1 =>
      [NumPy.rule; "LOW-PASS"%string;
       ("  low-pass band, shape: " ++ str_shape (h, w)
        ++ ", type: float64")%string]
  | S n' =>
      [NumPy.rule; ("LEVEL " ++ str_nat n)%string; "Lowpass:"%string;
       ("  lodft " ++ str_shape (next_dim h, next_dim w)
        ++ " complex128")%string]
      ++ levels_trace (next_dim h) (next_dim w) n'
  end.

(** The lines that [build] prints after the levels. *)
Definition high_pass_trace (h w : nat) : list string :=
  [NumPy.rule; "HIGH-PASS"%string;
   ("  high-pass band, shape: " ++ str_shape (h, w))%string; NumPy.rule].

(** [SCFpyr_NumPy(height=1, nbands=4)] *)
Definition pyr_h1 : NumPy.SCFpyr_NumPy := NumPy.mkSCFpyr 4 1 2.

(** [SCFpyr_NumPy(height=2, nbands=0)] *)
Definition pyr_h2_nb0 : NumPy.SCFpyr_NumPy := NumPy.mkSCFpyr 0 2 2.

(** [SCFpyr_NumPy(height=3, nbands=0)] *)
Definition pyr_nb0 : NumPy.SCFpyr_NumPy := NumPy.mkSCFpyr 0 3 2.

(** One-pixel levels in which the second level of subbands holds two
    subbands. *)
Definition wide_tree_prefix : list NumPy.level :=
  [NumPy.Real [[0%R]]; NumPy.Bands [[[C0]]]].

(** Every sample of the array is [z]. *)
Definition const_array {A : Type} (z : A) (a : array A) : Prop :=
  Forall (Forall (eq z)) a.

(** Every coefficient of the level is zero. *)
Definition zero_level (c : NumPy.level) : Prop :=
  match c with
  | NumPy.Real a => const_array 0%R a
  | NumPy.Bands bs => Forall (const_array C0) bs
  end.

(** An entry of the container is empty or a level of zeros. *)
Definition zero_entry (o : option NumPy.level) : Prop :=
  match o with
  | Some c => zero_level c
  | None => True
  end.

(** If the computation returns, its value satisfies [P]. *)
Definition returns {A : Type} (P : A -> Prop) (r : result A) : Prop :=
  forall a, r = Ok a -> P a.

(** [ceil(d / 2^k)] *)
Definition ceil_div_pow2 (d k : nat) : nat := (d + 2 ^ k - 1) / 2 ^ k.

(** [SCFpyr_NumPy(height=4, nbands=2, scale_factor=2)] *)
Definition pyr_nb2 : NumPy.SCFpyr_NumPy := NumPy.mkSCFpyr 2 4 2.


(** * Properties *)

(** ** The error monad and lists *)

Lemma bind_Ok_inv {A B : Type} (m : result A) (k : A -> result B) (b : B) :
  bind m k = Ok b -> exists a, m = Ok a /\ k a = Ok b.
Proof.
  destruct m as [a|e]; simpl; intros H; [exists a; auto | discriminate].
Qed.

Lemma zip_with_length {A B C : Type} (f : A -> B -> C) l m :
  length (zip_with f l m) = Nat.min (length l) (length m).
Proof.
  revert m; induction l as [|a l IH]; intros [|b m]; simpl; auto.
Qed.

Lemma slice_length {A : Type} (start len : nat) (l : list A) :
  start + len <= length l -> length (slice start len l) = len.
Proof.
  intros H. unfold slice. rewrite length_firstn, length_skipn. lia.
Qed.

Lemma slice_halves {A : Type} (k : nat) (l : list A) :
  length l = k + k ->
  slice k k (slice k k l ++ slice 0 k l) ++
  slice 0 k (slice k k l ++ slice 0 k l) = l.
Proof.
  intros Hl. unfold slice. simpl skipn.
  assert (H1 : length (firstn k (skipn k l)) = k)
    by (rewrite length_firstn, length_skipn; lia).
  rewrite (skipn_app k), H1, Nat.sub_diag. simpl skipn.
  rewrite (skipn_all2 (firstn k (skipn k l))) by lia. simpl app.
  rewrite (firstn_app k (firstn k (skipn k l))), H1, Nat.sub_diag.
  simpl firstn. rewrite app_nil_r.
  rewrite (firstn_all2 (firstn k l)) by (rewrite length_firstn; lia).
  rewrite (firstn_all2 (firstn k (skipn k l))) by lia.
  rewrite (firstn_all2 (skipn k l)) by (rewrite length_skipn; lia).
  apply firstn_skipn.
Qed.

Lemma zip_with_map_same {A B D E : Type} (op : B -> D -> E)
  (f : A -> B) (g : A -> D) (l : list A) :
  zip_with op (map f l) (map g l) = map (fun a => op (f a) (g a)) l.
Proof.
  induction l as [|a l IH]; simpl; [reflexivity | now rewrite IH].
Qed.

Lemma map_id_Forall {A : Type} (f : A -> A) (P : A -> Prop) (l : list A) :
  (forall a, P a -> f a = a) -> Forall P l -> map f l = l.
Proof.
  intros Hf H. induction H as [|a l Ha _ IH]; simpl;
    [reflexivity | now rewrite Hf, IH].
Qed.

(** ** [fft.py]: the half-flips *)

Module fft_facts.
Import fft.

Lemma swap_halves_length k {B : Type} (l : list B) :
  length l = k + k -> length (swap_halves k l) = k + k.
Proof.
  intros H. unfold swap_halves.
  rewrite length_app, !slice_length; lia.
Qed.

Lemma swap_halves_twice k {B : Type} (l : list B) :
  length l = k + k -> swap_halves k (swap_halves k l) = l.
Proof. intros H. unfold swap_halves. now apply slice_halves. Qed.

Lemma split_size_even k : (k + k + 2 - 1) / 2 = k.
Proof.
  replace (k + k + 2 - 1) with (1 + k * 2) by lia.
  rewrite Nat.div_add by lia. reflexivity.
Qed.

Lemma num_splits_even k : 0 < k -> (k + k + k - 1) / k = 2.
Proof.
  intros Hk. replace (k + k + k - 1) with ((k - 1) + 2 * k) by lia.
  rewrite Nat.div_add by lia. rewrite Nat.div_small by lia. reflexivity.
Qed.

Lemma shape_eqb_refl s : shape_eqb s s = true.
Proof.
  destruct s as [[[a b] c] d]. unfold shape_eqb.
  now rewrite !Nat.eqb_refl.
Qed.

Lemma set_size_twice s axis n m :
  set_size (set_size s axis n) axis m = set_size s axis m.
Proof.
  destruct s as [[[a b] c] d].
  destruct axis as [|[|[|axis]]]; reflexivity.
Qed.

Lemma set_size_same s axis : set_size s axis (size s axis) = s.
Proof.
  destruct s as [[[a b] c] d].
  destruct axis as [|[|[|axis]]]; reflexivity.
Qed.

Lemma size_set_size s axis n : size (set_size s axis n) axis = n.
Proof.
  destruct s as [[[a b] c] d].
  destruct axis as [|[|[|axis]]]; reflexivity.
Qed.

(** On an axis of even length the chunks are the two halves. *)
Lemma chunk_even {A : Type} (x : tensor4 A) axis k :
  size (tshape x) axis = k + k ->
  chunk x 2 axis = [narrow axis 0 k x; narrow axis k k x].
Proof.
  intros Hn. unfold chunk. rewrite Hn, split_size_even.
  destruct k as [|k'].
  - reflexivity.
  - remember (S k') as k eqn:Ek.
    assert (Hk : 0 < k) by lia.
    replace ((k =? 0) && (k + k =? 0)) with false
      by (symmetry; apply andb_false_intro1, Nat.eqb_neq; lia).
    rewrite num_splits_even by exact Hk. simpl Nat.max. simpl seq. simpl map.
    rewrite Nat.sub_0_r, Nat.add_0_r.
    replace (Nat.min k (k + k)) with k by lia.
    replace (Nat.min k (k + k - k)) with k by lia.
    reflexivity.
Qed.

Lemma cat_data_halves {A : Type} (d : list (list (list (list A)))) axis k :
  axis = 1 \/ axis = 2 ->
  cat_data axis (along axis (fun B => slice k k) d)
                (along axis (fun B => slice 0 k) d)
  = along axis (fun B => @swap_halves k B) d.
Proof.
  intros [-> | ->]; cbn [cat_data along].
  - now rewrite zip_with_map_same.
  - rewrite zip_with_map_same. apply map_ext. intros a.
    now rewrite zip_with_map_same.
Qed.

(** [batch_flip_halves] on an axis of even length. *)
Lemma flip_even {A : Type} (x : tensor4 A) axis k :
  axis = 1 \/ axis = 2 ->
  size (tshape x) axis = k + k ->
  batch_flip_halves x axis
  = Ok (mkTensor (tshape x) (along axis (fun B => @swap_halves k B) (tdata x))).
Proof.
  intros Hax Hn. unfold batch_flip_halves.
  replace (3 <? axis) with false by (destruct Hax; subst; reflexivity).
  rewrite (chunk_even x axis k Hn). simpl nth_error.
  unfold cat, narrow. cbn [tshape tdata].
  rewrite !set_size_twice, shape_eqb_refl, !size_set_size.
  rewrite <- Hn, set_size_same.
  now rewrite cat_data_halves.
Qed.

End fft_facts.

Lemma Forall_firstn {B : Type} (P : B -> Prop) n (l : list B) :
  Forall P l -> Forall P (firstn n l).
Proof.
  intros H. revert n. induction H as [|b l Hb _ IH]; intros [|n]; simpl;
    constructor; auto.
Qed.

Lemma Forall_skipn {B : Type} (P : B -> Prop) n (l : list B) :
  Forall P l -> Forall P (skipn n l).
Proof.
  intros H. revert n. induction H as [|b l Hb Hl IH]; intros [|n]; simpl;
    auto.
Qed.

Lemma Forall_slice {B : Type} (P : B -> Prop) s n (l : list B) :
  Forall P l -> Forall P (slice s n l).
Proof.
  intros H. unfold slice. now apply Forall_firstn, Forall_skipn.
Qed.

Lemma Forall_swap_halves {B : Type} (P : B -> Prop) k (l : list B) :
  Forall P l -> Forall P (swap_halves k l).
Proof.
  intros H. unfold swap_halves.
  apply Forall_app; split; now apply Forall_slice.
Qed.

(** C10: on a tensor of shape [N,H,W,2] whose extents [H] and [W] are even,
    [batch_fftshift2d] followed by [batch_ifftshift2d] gives the tensor
    back. *)
Theorem batch_shift_roundtrip {A : Type} (x : fft.tensor4 A) (N H W : nat) :
  fft.wf_tensor x ->
  fft.tshape x = (N, H, W, 2) ->
  Nat.even H = true ->
  Nat.even W = true ->
  bind (fft.batch_fftshift2d x) fft.batch_ifftshift2d = Ok x.
Proof.
  intros Hwf Hs HH HW.
  apply Nat.even_spec in HH. destruct HH as [h Hh].
  apply Nat.even_spec in HW. destruct HW as [w Hw].
  assert (EH : H = h + h) by lia. assert (EW : W = w + w) by lia.
  clear Hh Hw. subst H W.
  destruct x as [s d]. cbn [fft.tshape] in Hs. subst s.
  unfold fft.wf_tensor in Hwf. cbn [fft.tshape fft.tdata] in Hwf.
  destruct Hwf as [_ Hd].
  unfold fft.batch_fftshift2d.
  cbn [fft.tshape fft.size]. cbn [Nat.eqb assert bind].
  rewrite (fft_facts.flip_even _ 1 h) by (auto; reflexivity).
  cbn [bind fft.tshape fft.tdata].
  rewrite (fft_facts.flip_even _ 2 w) by (auto; reflexivity).
  cbn [bind fft.tshape fft.tdata].
  unfold fft.batch_ifftshift2d.
  cbn [fft.tshape fft.size]. cbn [Nat.eqb assert bind].
  rewrite (fft_facts.flip_even _ 2 w) by (auto; reflexivity).
  cbn [bind fft.tshape fft.tdata].
  rewrite (fft_facts.flip_even _ 1 h) by (auto; reflexivity).
  cbn [bind fft.tshape fft.tdata fft.along].
  f_equal. f_equal.
  rewrite !map_map.
  apply map_id_Forall with
    (P := fun a => length a = h + h /\
                   Forall (fun b => length b = w + w /\
                                    Forall (fun c => length c = 2) b) a);
    [| exact Hd].
  intros a [Ha Hrows].
  rewrite !map_map.
  rewrite (map_id_Forall _ (fun b => length b = w + w)).
  - now apply fft_facts.swap_halves_twice.
  - intros b Hb. now apply fft_facts.swap_halves_twice.
  - apply Forall_swap_halves.
    eapply Forall_impl; [| exact Hrows]. now intros b [Hb _].
Qed.

Lemma batch_shift_roundtrip_witness :
  bind (fft.batch_fftshift2d sample_tensor) fft.batch_ifftshift2d
  = Ok sample_tensor.
Proof.
  apply (batch_shift_roundtrip sample_tensor 1 2 2).
  - unfold fft.wf_tensor, sample_tensor; simpl.
    repeat (constructor; simpl; auto).
  - reflexivity.
  - reflexivity.
  - reflexivity.
Defined.

(** On an axis of odd length the two flips do not cancel: the rows of
    [odd_tensor] come back rotated. *)
Example batch_shift_odd_axis :
  bind (fft.batch_fftshift2d odd_tensor) fft.batch_ifftshift2d
  = Ok (fft.mkTensor (1, 3, 2, 2)
          [[[[5; 6]; [7; 8]]; [[9; 10]; [11; 12]]; [[1; 2]; [3; 4]]]]).
Proof. reflexivity. Qed.

(** ** Which exceptions the library calls can raise *)

Lemma quiet_Ok {A : Type} (a : A) : quiet (Ok a).
Proof. intros e H; discriminate. Qed.

Lemma quiet_Err {A : Type} (e : pyerr) :
  own_exception e = false -> quiet (@Err A e).
Proof. intros He e' H. now inversion H; subst. Qed.

Lemma quiet_bind {A B : Type} (m : result A) (k : A -> result B) :
  quiet m -> (forall a, quiet (k a)) -> quiet (bind m k).
Proof.
  intros Hm Hk. destruct m as [a|e]; simpl; [apply Hk|].
  intros e' H. inversion H; subst. now apply Hm.
Qed.

Lemma quiet_bdim a b : quiet (bdim a b).
Proof.
  unfold bdim.
  destruct (a =? b); [apply quiet_Ok|].
  destruct (a =? 1); [apply quiet_Ok|].
  destruct (b =? 1); [apply quiet_Ok | now apply quiet_Err].
Qed.

Lemma quiet_ew2 {A B D : Type} (f : A -> B -> D) a b : quiet (ew2 f a b).
Proof.
  unfold ew2. apply quiet_bind; [apply quiet_bdim | intros h].
  apply quiet_bind; [apply quiet_bdim | intros w]. apply quiet_Ok.
Qed.

Lemma quiet_fft2 a : quiet (fft2 a).
Proof.
  unfold fft2. destruct (shape a) as [h w].
  destruct ((h =? 0) || (w =? 0)); [now apply quiet_Err | apply quiet_Ok].
Qed.

Lemma quiet_ifft2 a : quiet (ifft2 a).
Proof.
  unfold ifft2. destruct (shape a) as [h w].
  destruct ((h =? 0) || (w =? 0)); [now apply quiet_Err | apply quiet_Ok].
Qed.

Lemma quiet_index {A : Type} (l : list A) i : quiet (index l i).
Proof.
  unfold index. destruct (nth_error l i);
    [apply quiet_Ok | now apply quiet_Err].
Qed.

Lemma quiet_setitem {A : Type} (l : list A) i x : quiet (setitem l i x).
Proof.
  revert i; induction l as [|a l IH]; intros i; simpl.
  - now apply quiet_Err.
  - destruct i as [|i]; [apply quiet_Ok|].
    apply quiet_bind; [apply IH | intros r; apply quiet_Ok].
Qed.

Lemma quiet_angular_const n : quiet (angular_const n).
Proof.
  unfold angular_const.
  destruct (n - 1 <? 0)%Z; [now apply quiet_Err | apply quiet_Ok].
Qed.

Lemma quiet_assign_block {A : Type} s0 e0 s1 e1 (v a : array A) :
  quiet (assign_block s0 e0 s1 e1 v a).
Proof.
  unfold assign_block.
  match goal with |- quiet (if ?c then _ else _) => destruct c end;
    [apply quiet_Ok | now apply quiet_Err].
Qed.

Lemma quiet_mapM {A B : Type} (f : A -> result B) (l : list A) :
  (forall a, quiet (f a)) -> quiet (mapM f l).
Proof.
  intros Hf. induction l as [|a l IH]; simpl; [apply quiet_Ok|].
  apply quiet_bind; [apply Hf | intros b].
  apply quiet_bind; [apply IH | intros bs; apply quiet_Ok].
Qed.

Lemma quiet_foldM {A S : Type} (f : S -> A -> result S) (l : list A) s :
  (forall s a, quiet (f s a)) -> quiet (foldM f l s).
Proof.
  intros Hf. revert s. induction l as [|a l IH]; intros s; simpl;
    [apply quiet_Ok|].
  apply quiet_bind; [apply Hf | intros s'; apply IH].
Qed.

(** The result of a printing computation. *)
Lemma snd_iobind {A B : Type} (m : io A) (k : A -> io B) :
  snd (iobind m k) = bind (snd m) (fun a => snd (k a)).
Proof. unfold iobind. now destruct (snd m). Qed.

Lemma quiet_iobind {A B : Type} (m : io A) (k : A -> io B) :
  quiet (snd m) -> (forall a, quiet (snd (k a))) -> quiet (snd (iobind m k)).
Proof. intros Hm Hk. rewrite snd_iobind. now apply quiet_bind. Qed.

Create HintDb quiet.

#[local] Hint Resolve quiet_Ok quiet_bdim quiet_ew2 quiet_fft2 quiet_ifft2 quiet_index
  quiet_setitem quiet_angular_const quiet_assign_block : quiet.

Ltac quiet_step :=
  first
    [ solve [auto with quiet]
    | apply quiet_Err; reflexivity
    | apply quiet_iobind; [| intros ?]
    | apply quiet_bind; [| intros ?]
    | apply quiet_mapM; intros ?
    | apply quiet_foldM; intros ? ?
    | progress (cbn [snd lift print ret])
    | progress (cbv beta zeta)
    | match goal with
      | |- quiet (match ?x with _ => _ end) => destruct x
      end ].

Module NumPy_facts.
Import NumPy.

Lemma quiet_build_band G self lodft angle himask Ycosn b :
  quiet (build_band G self lodft angle himask Ycosn b).
Proof. unfold build_band. repeat quiet_step. Qed.

Lemma quiet_build_pass G self lodft log_rad angle Xrcos Yrcos n :
  quiet (snd (build_pass G self lodft log_rad angle Xrcos Yrcos n)).
Proof. unfold build_pass. repeat quiet_step. Qed.

Lemma build_levels_low G self lodft log_rad angle Xrcos Yrcos n :
  n <= 1 ->
  _build_levels G self lodft log_rad angle Xrcos Yrcos n
  = (_ <~ print rule ;;
     _ <~ print "LOW-PASS"%string ;;
     lo0 <~ lift (ifft2 (ifftshift lodft)) ;;
     _ <~ print ("  low-pass band, shape: " ++ str_shape (shape lo0)
                 ++ ", type: float64")%string ;;
     ret [Real (amap Cre lo0)]).
Proof. intros H. destruct n as [|[|n]]; [reflexivity | reflexivity | lia]. Qed.

Lemma build_levels_rec G self lodft log_rad angle Xrcos Yrcos n :
  _build_levels G self lodft log_rad angle Xrcos Yrcos (S (S n))
  = (_ <~ print rule ;;
     p <~ build_pass G self lodft log_rad angle Xrcos Yrcos (S (S n)) ;;
     coeff <~ _build_levels G self (next_lodft (snd p)) (next_log_rad (snd p))
                (next_angle (snd p)) (next_Xrcos (snd p)) Yrcos (S n) ;;
     ret (Bands (fst p) :: coeff)).
Proof. reflexivity. Qed.

Lemma quiet_build_levels G self n :
  forall lodft log_rad angle Xrcos Yrcos,
    quiet (snd (_build_levels G self lodft log_rad angle Xrcos Yrcos n)).
Proof.
  induction n as [|n IH]; intros lodft log_rad angle Xrcos Yrcos.
  - rewrite build_levels_low by lia. repeat quiet_step.
  - destruct n as [|n].
    + rewrite build_levels_low by lia. repeat quiet_step.
    + rewrite build_levels_rec. repeat quiet_step.
Qed.

Lemma quiet_set_levels pyr coeff : quiet (set_levels pyr coeff).
Proof.
  unfold set_levels. apply quiet_foldM. intros s a.
  unfold set_level. repeat quiet_step.
Qed.

End NumPy_facts.

(** C3: [build] raises the assertion on the pyramid height exactly when
    the configured height exceeds [floor(log2(min(H, W))) - 2]; this
    happens before anything is printed or computed, so nothing depends on
    the samples and no pyramid is returned. *)
Theorem build_too_deep (G : GridMaskGenerator) (self : NumPy.SCFpyr_NumPy)
  (im : array R) :
  let h := fst (shape im) in
  let w := snd (shape im) in
  let m := (Z.log2 (Z.of_nat (Nat.min w h)) - 2)%Z in
  ((exists t msg, NumPy.build G self im = (t, Err (AssertionError msg)))
   <-> (0 < Nat.min w h /\ (NumPy.height self > m)%Z))
  /\ (0 < Nat.min w h /\ (NumPy.height self > m)%Z ->
      NumPy.build G self im
      = ([], Err (AssertionError (NumPy.config_msg m)))).
Proof.
  intros h w m.
  assert (Hfail : 0 < Nat.min w h /\ (NumPy.height self > m)%Z ->
                  NumPy.build G self im
                  = ([], Err (AssertionError (NumPy.config_msg m)))).
  { intros [Hpos Hgt]. unfold NumPy.build.
    rewrite (surjective_pairing (shape im)). fold h w.
    unfold NumPy.max_height_pyr.
    replace (Nat.min w h =? 0) with false
      by (symmetry; apply Nat.eqb_neq; lia).
    unfold iobind at 1. cbn [lift snd fst]. fold m.
    replace (NumPy.height self <=? m)%Z with false
      by (symmetry; apply Z.leb_gt; lia).
    reflexivity. }
  split; [split | exact Hfail].
  - intros (t & msg & Hb).
    assert (Hs : snd (NumPy.build G self im) = Err (AssertionError msg))
      by now rewrite Hb.
    clear Hb. unfold NumPy.build in Hs.
    rewrite (surjective_pairing (shape im)) in Hs. fold h w in Hs.
    rewrite snd_iobind in Hs. unfold NumPy.max_height_pyr in Hs.
    destruct (Nat.min w h =? 0) eqn:E0; [discriminate Hs|].
    apply Nat.eqb_neq in E0. cbn [lift snd bind] in Hs. fold m in Hs.
    rewrite snd_iobind in Hs.
    destruct (NumPy.height self <=? m)%Z eqn:Eh.
    + exfalso. cbn [lift snd bind assert] in Hs.
      destruct (prepare_grid G h w) as [log_rad angle].
      destruct (rcosFn G 1 (-0.5)) as [Xrcos Yrcos].
      revert Hs.
      match goal with
      | |- ?r = Err ?e -> False =>
          assert (Hq : quiet r);
            [| intros Hs; apply Hq in Hs; discriminate Hs]
      end.
      repeat quiet_step;
        solve [apply NumPy_facts.quiet_build_levels
              | apply NumPy_facts.quiet_set_levels].
    + apply Z.leb_gt in Eh. split; lia.
  - intros Hc. exists [], (NumPy.config_msg m). now apply Hfail.
Qed.

Lemma build_too_deep_witness :
  NumPy.build flat_utils pyr8 (blank 32 32)
  = ([], Err (AssertionError (NumPy.config_msg 3))).
Proof.
  apply (proj2 (build_too_deep flat_utils pyr8 (blank 32 32))).
  split; [cbn; lia | reflexivity].
Defined.

Module NumPy_recon_facts.
Import NumPy.

Lemma quiet_recon_step G self coeff recur log_rad Xrcos Yrcos angle :
  (forall a b c d, quiet (recur a b c d)) ->
  quiet (recon_step G self coeff recur log_rad Xrcos Yrcos angle).
Proof.
  intros Hrec. unfold recon_step. repeat quiet_step.
Qed.

Lemma quiet_reconstruct_levels G self coeff :
  forall log_rad Xrcos Yrcos angle,
    quiet (_reconstruct_levels G self coeff log_rad Xrcos Yrcos angle).
Proof.
  induction coeff as [|c rest IH]; intros log_rad Xrcos Yrcos angle.
  - cbn [_reconstruct_levels]. apply quiet_recon_step.
    intros; now apply quiet_Err.
  - destruct rest as [|c' rest].
    + cbn [_reconstruct_levels]. destruct c; repeat quiet_step.
    + remember (c' :: rest) as r. cbn [_reconstruct_levels]. subst r.
      apply quiet_recon_step. intros; apply IH.
Qed.

(** Once the number of orientations has been accepted, nothing that
    [reconstruct] does raises an exception of its own. *)
Lemma reconstruct_outdft_cases G self coeff :
  match nth_error coeff 1 with
  | None => reconstruct_outdft G self coeff = Err IndexError
  | Some c1 =>
      if (nbands self =? Z.of_nat (level_len c1))%Z
      then quiet (reconstruct_outdft G self coeff)
      else reconstruct_outdft G self coeff = Err unmatched
  end.
Proof.
  destruct (nth_error coeff 1) as [c1|] eqn:E1;
    [destruct (nbands self =? Z.of_nat (level_len c1))%Z eqn:E2 |];
    unfold reconstruct_outdft; unfold index at 1; rewrite E1;
    cbn [bind]; rewrite ?E2; try reflexivity.
  cbn [negb]. repeat quiet_step.
  destruct (shape a0) as [M N].
  destruct (prepare_grid G M N) as [log_rad angle].
  destruct (rcosFn G 1 (-0.5)) as [Xrcos Yrcos].
  repeat quiet_step. apply quiet_reconstruct_levels.
Qed.

End NumPy_recon_facts.

Module PyTorch_recon_facts.
Import PyTorch.

Lemma quiet_recon_step_pt G self coeff recur log_rad Xrcos Yrcos angle :
  (forall a b c d, quiet (recur a b c d)) ->
  quiet (recon_step G self coeff recur log_rad Xrcos Yrcos angle).
Proof.
  intros Hrec. unfold recon_step. repeat quiet_step.
Qed.

Lemma quiet_reconstruct_levels_pt G self coeff :
  forall log_rad Xrcos Yrcos angle,
    quiet (_reconstruct_levels G self coeff log_rad Xrcos Yrcos angle).
Proof.
  induction coeff as [|c rest IH]; intros log_rad Xrcos Yrcos angle.
  - cbn [_reconstruct_levels]. apply quiet_recon_step_pt.
    intros; now apply quiet_Err.
  - destruct rest as [|c' rest].
    + cbn [_reconstruct_levels]. destruct c; repeat quiet_step.
    + remember (c' :: rest) as r. cbn [_reconstruct_levels]. subst r.
      apply quiet_recon_step_pt. intros; apply IH.
Qed.

Lemma reconstruct_cases G self coeff :
  match nth_error coeff 1 with
  | None => reconstruct G self coeff = Err IndexError
  | Some c1 =>
      if (nbands self =? Z.of_nat (NumPy.level_len c1))%Z
      then quiet (reconstruct G self coeff)
      else reconstruct G self coeff = Err unmatched
  end.
Proof.
  destruct (nth_error coeff 1) as [c1|] eqn:E1;
    [destruct (nbands self =? Z.of_nat (NumPy.level_len c1))%Z eqn:E2 |];
    unfold reconstruct; unfold index at 1; rewrite E1;
    cbn [bind]; rewrite ?E2; try reflexivity.
  cbn [negb]. repeat quiet_step.
  destruct (shape a0) as [M N].
  destruct (prepare_grid G M N) as [log_rad angle].
  destruct (rcosFn G 1 (-0.5)) as [Xrcos Yrcos].
  repeat quiet_step. apply quiet_reconstruct_levels_pt.
Qed.

End PyTorch_recon_facts.

(** C4: in both classes [reconstruct] raises the exception on unmatched
    orientations exactly when [coeff[1]] exists and its length differs
    from [nbands]; the rest of the list plays no part in it. *)
Theorem reconstruct_unmatched (G : GridMaskGenerator)
  (np : NumPy.SCFpyr_NumPy) (pt : PyTorch.SCFpyr_PyTorch)
  (coeff : list NumPy.level) :
  (NumPy.reconstruct G np (NumPy.CoeffList coeff) = Err NumPy.unmatched
   <-> exists c1, nth_error coeff 1 = Some c1 /\
                  Z.of_nat (NumPy.level_len c1) <> NumPy.nbands np)
  /\
  (PyTorch.reconstruct G pt coeff = Err PyTorch.unmatched
   <-> exists c1, nth_error coeff 1 = Some c1 /\
                  Z.of_nat (NumPy.level_len c1) <> PyTorch.nbands pt).
Proof.
  split.
  - pose proof (NumPy_recon_facts.reconstruct_outdft_cases G np coeff) as H.
    unfold NumPy.reconstruct.
    destruct (nth_error coeff 1) as [c1|].
    + destruct (NumPy.nbands np =? Z.of_nat (NumPy.level_len c1))%Z eqn:E.
      * apply Z.eqb_eq in E. split.
        -- intros Hr. exfalso.
           destruct (NumPy.reconstruct_outdft G np coeff) as [o|e] eqn:Eo.
           ++ cbn [bind] in Hr.
              destruct (ifft2 (ifftshift o)) as [r|e] eqn:Ei;
                [discriminate Hr|].
              cbn [bind] in Hr. inversion Hr; subst e.
              pose proof (quiet_ifft2 (ifftshift o) _ Ei). discriminate.
           ++ cbn [bind] in Hr. inversion Hr; subst e.
              pose proof (H _ eq_refl). discriminate.
        -- intros (c & Hc & Hne). inversion Hc; subst c. lia.
      * apply Z.eqb_neq in E. rewrite H. split; [|reflexivity].
        intros _. exists c1. split; [reflexivity | lia].
    + rewrite H. split; [discriminate|]. intros (c & Hc & _). discriminate.
  - pose proof (PyTorch_recon_facts.reconstruct_cases G pt coeff) as H.
    destruct (nth_error coeff 1) as [c1|].
    + destruct (PyTorch.nbands pt =? Z.of_nat (NumPy.level_len c1))%Z eqn:E.
      * apply Z.eqb_eq in E. split.
        -- intros Hr. apply H in Hr. discriminate.
        -- intros (c & Hc & Hne). inversion Hc; subst c. lia.
      * apply Z.eqb_neq in E. rewrite H. split; [|reflexivity].
        intros _. exists c1. split; [reflexivity | lia].
    + rewrite H. split; [discriminate|]. intros (c & Hc & _). discriminate.
Qed.

Lemma reconstruct_unmatched_witness :
  NumPy.reconstruct flat_utils pyr3 (NumPy.CoeffList three_band_tree)
  = Err NumPy.unmatched.
Proof.
  apply (proj1 (reconstruct_unmatched flat_utils pyr3
                  (PyTorch.mkSCFpyr 4 3 2) three_band_tree)).
  exists (NumPy.Bands [[[C0]]; [[C0]]; [[C0]]]).
  split; [reflexivity | cbn; lia].
Defined.

(** ** The crop window *)

Lemma half_ceil_eq (d : Z) : half_ceil d = ((d + 1) / 2)%Z.
Proof.
  unfold half_ceil, Qceiling, Qfloor, Qdiv, Qminus, Qplus, Qopp, Qmult, Qinv,
    inject_Z.
  cbn [Qnum Qden Pos.mul Z.mul Z.opp Z.pos_sub].
  Z.div_mod_to_equations. lia.
Qed.

Lemma low_ind_start_eq (d : nat) :
  low_ind_start d = (Z.of_nat d / 2 - (Z.of_nat d + 1) / 2 / 2)%Z.
Proof.
  unfold low_ind_start. rewrite half_ceil_eq.
  unfold Qceiling, Qfloor, Qdiv, Qminus, Qplus, Qopp, Qmult, Qinv, inject_Z.
  cbn [Qnum Qden Pos.mul Z.mul Z.opp Z.pos_sub].
  Z.div_mod_to_equations. lia.
Qed.

Lemma next_dim_Z (d : nat) : Z.of_nat (next_dim d) = ((Z.of_nat d + 1) / 2)%Z.
Proof.
  unfold next_dim. rewrite Nat2Z.inj_div, Nat2Z.inj_add. reflexivity.
Qed.

Lemma window_bounds (d : nat) :
  (0 <= low_ind_start d)%Z /\
  (low_ind_end d <= Z.of_nat d)%Z /\
  (low_ind_end d - low_ind_start d = Z.of_nat (next_dim d))%Z.
Proof.
  unfold low_ind_end. rewrite half_ceil_eq, low_ind_start_eq, next_dim_Z.
  Z.div_mod_to_equations. lia.
Qed.

Lemma py_slice_window_length {A : Type} (d : nat) (l : list A) :
  length l = d ->
  length (py_slice (low_ind_start d) (low_ind_end d) l) = next_dim d.
Proof.
  intros Hl. destruct (window_bounds d) as (H0 & H1 & H2).
  unfold py_slice. rewrite Hl. unfold norm_index.
  assert (E1 : (low_ind_start d <? 0)%Z = false) by (apply Z.ltb_ge; lia).
  assert (E2 : (low_ind_end d <? 0)%Z = false) by (apply Z.ltb_ge; lia).
  rewrite E1, E2. rewrite slice_length; lia.
Qed.

Lemma next_dim_pos (d : nat) : 0 < d -> 0 < next_dim d.
Proof.
  intros H. unfold next_dim.
  apply Nat.div_str_pos. lia.
Qed.

Lemma next_dim_lt (d : nat) : 2 <= d -> next_dim d < d.
Proof.
  intros H. unfold next_dim. apply Nat.Div0.div_lt_upper_bound. lia.
Qed.

(** ** Rectangular arrays and the numpy calls on them *)

Lemma rect_shape {A : Type} h w (a : array A) :
  rect h w a -> 0 < h -> shape a = (h, w).
Proof.
  intros [Hl Hr] Hh. unfold shape. rewrite Hl.
  destruct a as [|r a]; [simpl in Hl; lia|].
  inversion Hr; subst. reflexivity.
Qed.

Lemma rect_tabulate {A : Type} h w (f : nat -> nat -> A) :
  rect h w (tabulate h w f).
Proof.
  unfold rect, tabulate. split.
  - now rewrite length_map, length_seq.
  - apply Forall_map, Forall_forall. intros i _.
    now rewrite length_map, length_seq.
Qed.

Lemma rect_amap {A B : Type} (f : A -> B) h w (a : array A) :
  rect h w a -> rect h w (amap f a).
Proof.
  intros [Hl Hr]. unfold rect, amap. split.
  - now rewrite length_map.
  - apply Forall_map. eapply Forall_impl; [| exact Hr].
    intros r Hlen. now rewrite length_map.
Qed.

Lemma rect_zip_with {A B D : Type} (f : A -> B -> D) h w a b :
  rect h w a -> rect h w b -> rect h w (zip_with (zip_with f) a b).
Proof.
  intros [Hla Hra] [Hlb Hrb]. split.
  - rewrite zip_with_length. lia.
  - clear Hla Hlb. revert b Hrb.
    induction Hra as [|r a Hr _ IH]; intros b Hrb; simpl; [constructor|].
    destruct Hrb as [|s b Hs Hb]; constructor.
    + rewrite zip_with_length. lia.
    + now apply IH.
Qed.

Lemma stretch_same {A : Type} n (l : list A) :
  length l = n -> stretch n l = l.
Proof. intros H. unfold stretch. now rewrite H, Nat.eqb_refl. Qed.

Lemma broadcast_to_rect {A : Type} h w (a : array A) :
  rect h w a -> broadcast_to h w a = a.
Proof.
  intros [Hl Hr]. unfold broadcast_to.
  rewrite (map_id_Forall _ (fun r => length r = w));
    [now apply stretch_same | apply stretch_same | exact Hr].
Qed.

Lemma bdim_same n : bdim n n = Ok n.
Proof. unfold bdim. now rewrite Nat.eqb_refl. Qed.

(** An elementwise operation on two arrays of one shape. *)
Lemma ew2_rect {A B D : Type} (f : A -> B -> D) h w a b :
  0 < h -> rect h w a -> rect h w b ->
  exists r, ew2 f a b = Ok r /\ rect h w r.
Proof.
  intros Hh Ha Hb. exists (zip_with (zip_with f) a b). split.
  - unfold ew2.
    rewrite (rect_shape h w a Ha Hh), (rect_shape h w b Hb Hh).
    cbn [fst snd]. rewrite !bdim_same. cbn [bind].
    now rewrite !broadcast_to_rect.
  - now apply rect_zip_with.
Qed.

Lemma nonzero_dims h w : 0 < h -> 0 < w -> (h =? 0) || (w =? 0) = false.
Proof.
  intros Hh Hw. apply orb_false_intro; apply Nat.eqb_neq; lia.
Qed.

Lemma fft2_rect h w a :
  0 < h -> 0 < w -> rect h w a -> exists r, fft2 a = Ok r /\ rect h w r.
Proof.
  intros Hh Hw Ha. unfold fft2. rewrite (rect_shape h w a Ha Hh).
  rewrite nonzero_dims by assumption.
  eexists; split; [reflexivity | apply rect_tabulate].
Qed.

Lemma ifft2_rect h w a :
  0 < h -> 0 < w -> rect h w a -> exists r, ifft2 a = Ok r /\ rect h w r.
Proof.
  intros Hh Hw Ha. unfold ifft2. rewrite (rect_shape h w a Ha Hh).
  rewrite nonzero_dims by assumption.
  eexists; split; [reflexivity | apply rect_tabulate].
Qed.

Lemma rotl_length {A : Type} k (l : list A) : length (rotl k l) = length l.
Proof.
  unfold rotl. rewrite length_app, length_skipn, length_firstn. lia.
Qed.

Lemma Forall_rotl {A : Type} (P : A -> Prop) k (l : list A) :
  Forall P l -> Forall P (rotl k l).
Proof.
  intros H. unfold rotl. apply Forall_app; split;
    [now apply Forall_skipn | now apply Forall_firstn].
Qed.

Lemma rect_fftshift {A : Type} h w (a : array A) :
  rect h w a -> rect h w (fftshift a).
Proof.
  intros [Hl Hr]. unfold fftshift, fftshift1. split.
  - now rewrite length_map, rotl_length.
  - apply Forall_map, Forall_rotl.
    eapply Forall_impl; [| exact Hr]. intros r Hlen.
    now rewrite rotl_length.
Qed.

Lemma rect_ifftshift {A : Type} h w (a : array A) :
  rect h w a -> rect h w (ifftshift a).
Proof.
  intros [Hl Hr]. unfold ifftshift, ifftshift1. split.
  - now rewrite length_map, rotl_length.
  - apply Forall_map, Forall_rotl.
    eapply Forall_impl; [| exact Hr]. intros r Hlen.
    now rewrite rotl_length.
Qed.

Lemma Forall_py_slice {A : Type} (P : A -> Prop) s e (l : list A) :
  Forall P l -> Forall P (py_slice s e l).
Proof. intros H. unfold py_slice. now apply Forall_slice. Qed.

Lemma rect_crop_window {A : Type} h w (a : array A) :
  rect h w a -> rect (next_dim h) (next_dim w) (crop_window (h, w) a).
Proof.
  intros [Hl Hr]. unfold crop_window, crop. cbn [fst snd]. split.
  - rewrite length_map. now apply py_slice_window_length.
  - apply Forall_map, Forall_py_slice.
    eapply Forall_impl; [| exact Hr]. intros r Hlen.
    now apply py_slice_window_length.
Qed.

Lemma rect_pointOp G h w im Y X :
  rect h w im -> rect h w (pointOp G im Y X).
Proof. apply rect_amap. Qed.

Lemma rect_prepare_grid G h w :
  rect h w (fst (prepare_grid G h w)) /\ rect h w (snd (prepare_grid G h w)).
Proof. split; apply rect_tabulate. Qed.

(** ** [build] on a valid input *)

Lemma mapM_ok {A B : Type} (f : A -> result B) (P : B -> Prop) (l : list A) :
  (forall a, exists b, f a = Ok b /\ P b) ->
  exists bs, mapM f l = Ok bs /\ length bs = length l /\ Forall P bs.
Proof.
  intros Hf. induction l as [|a l IH]; simpl.
  - exists []. repeat split; constructor.
  - destruct (Hf a) as (b & Hb & Pb). destruct IH as (bs & Hbs & Hl & HP).
    exists (b :: bs). rewrite Hb, Hbs. simpl.
    repeat split; [now rewrite Hl | now constructor].
Qed.

Lemma setitem_app {A : Type} (l1 l2 : list A) (x y : A) :
  setitem (l1 ++ x :: l2) (length l1) y = Ok (l1 ++ y :: l2).
Proof.
  induction l1 as [|a l1 IH]; simpl; [reflexivity | now rewrite IH].
Qed.

Ltac io_simpl :=
  repeat first [ rewrite snd_iobind
               | progress cbn [print snd bind lift ret] ].

Module NumPy_shape_facts.
Import NumPy.

Lemma levels_ok_length nb n : forall h w coeff,
  levels_ok nb h w n coeff -> length coeff = Nat.max 1 n.
Proof.
  induction n as [|n IH]; intros h w coeff H.
  - destruct H as (a & -> & _). reflexivity.
  - destruct n as [|n].
    + destruct H as (a & -> & _). reflexivity.
    + destruct H as (bs & rest & -> & _ & _ & Hrest).
      apply IH in Hrest. simpl length. rewrite Hrest. lia.
Qed.

Lemma build_band_ok G self h w lodft angle himask Ycosn b :
  0 < h -> 0 < w ->
  rect h w lodft -> rect h w angle -> rect h w himask ->
  exists band,
    build_band G self lodft angle himask Ycosn b = Ok band /\ rect h w band.
Proof.
  intros Hh Hw Hlo Han Hhi. unfold build_band.
  destruct (ew2_rect CmulR h w (amap (Cmul (build_phase self)) lodft)
              (pointOp G angle Ycosn
                 (map (fun x => (x + PI * INR b / IZR (nbands self))%R) Xcosn)))
    as (t & Ht & Rt); [assumption | now apply rect_amap
                      | now apply rect_pointOp |].
  rewrite Ht. cbn [bind].
  destruct (ew2_rect CmulR h w t himask) as (u & Hu & Ru); try assumption.
  rewrite Hu. cbn [bind].
  apply ifft2_rect; try assumption. now apply rect_ifftshift.
Qed.

Lemma angular_const_ok nb :
  (1 <= nb)%Z -> exists c, angular_const nb = Ok c.
Proof.
  intros H. unfold angular_const.
  replace (nb - 1 <? 0)%Z with false by (symmetry; apply Z.ltb_ge; lia).
  eexists; reflexivity.
Qed.

Lemma build_pass_ok G self h w lodft log_rad angle Xrcos Yrcos n :
  (1 <= nbands self)%Z ->
  0 < h -> 0 < w ->
  rect h w lodft -> rect h w log_rad -> rect h w angle ->
  exists bs lodft',
    snd (build_pass G self lodft log_rad angle Xrcos Yrcos n)
    = Ok (bs, mkPassed lodft' (crop_window (h, w) log_rad)
                       (crop_window (h, w) angle)
                       (map (fun x => (x - 1)%R) Xrcos))
    /\ length bs = Z.to_nat (nbands self)
    /\ Forall (rect h w) bs
    /\ rect (next_dim h) (next_dim w) lodft'.
Proof.
  intros Hnb Hh Hw Hlo Hlr Han.
  destruct (angular_const_ok _ Hnb) as (c & Hc).
  set (Xrcos' := map (fun x => (x - 1)%R) Xrcos).
  set (himask := pointOp G log_rad Yrcos Xrcos').
  destruct (mapM_ok
              (build_band G self lodft angle himask
                 (build_Ycosn c (Z.to_nat (nbands self - 1))))
              (rect h w) (seq 0 (Z.to_nat (nbands self))))
    as (bs & Hbs & Lbs & Rbs).
  { intros b. apply build_band_ok; auto. now apply rect_pointOp. }
  rewrite length_seq in Lbs.
  set (log_rad' := crop_window (h, w) log_rad).
  set (YIrcos := map (fun y => Rabs (sqrt (1 - y ^ 2)))%R Yrcos).
  destruct (ew2_rect (fun (m : R) (z : C) => CmulR z m)
              (next_dim h) (next_dim w)
              (pointOp G log_rad' YIrcos Xrcos')
              (crop_window (h, w) lodft))
    as (lodft' & Hlodft' & Rlodft').
  { now apply next_dim_pos. }
  { apply rect_pointOp. now apply rect_crop_window. }
  { now apply rect_crop_window. }
  exists bs, lodft'. split; [|auto].
  unfold build_pass. io_simpl. rewrite Hc. io_simpl.
  fold Xrcos' himask. rewrite Hbs. io_simpl.
  rewrite (rect_shape h w lodft Hlo Hh).
  fold log_rad' YIrcos. rewrite Hlodft'. io_simpl. reflexivity.
Qed.

Lemma build_levels_ok G self n :
  forall h w lodft log_rad angle Xrcos Yrcos,
    (1 <= nbands self)%Z ->
    0 < h -> 0 < w ->
    rect h w lodft -> rect h w log_rad -> rect h w angle ->
    exists coeff,
      snd (_build_levels G self lodft log_rad angle Xrcos Yrcos n) = Ok coeff
      /\ levels_ok (Z.to_nat (nbands self)) h w n coeff.
Proof.
  assert (Hbase : forall h w lodft log_rad angle Xrcos Yrcos m,
            m <= 1 -> 0 < h -> 0 < w -> rect h w lodft ->
            exists coeff,
              snd (_build_levels G self lodft log_rad angle Xrcos Yrcos m)
              = Ok coeff
              /\ levels_ok (Z.to_nat (nbands self)) h w m coeff).
  { intros h w lodft log_rad angle Xrcos Yrcos m Hm Hh Hw Hlo.
    destruct (ifft2_rect h w (ifftshift lodft)) as (lo0 & Hlo0 & Rlo0);
      [assumption | assumption | now apply rect_ifftshift |].
    exists [Real (amap Cre lo0)].
    split.
    - rewrite NumPy_facts.build_levels_low by exact Hm.
      io_simpl. rewrite Hlo0. io_simpl. reflexivity.
    - destruct m as [|[|m]]; [| | lia]; cbn [levels_ok];
        (eexists; split; [reflexivity | now apply rect_amap]). }
  induction n as [|n IH];
    intros h w lodft log_rad angle Xrcos Yrcos Hnb Hh Hw Hlo Hlr Han.
  - apply Hbase; auto.
  - destruct n as [|n]; [apply Hbase; auto|].
    destruct (build_pass_ok G self h w lodft log_rad angle Xrcos Yrcos
                (S (S n)) Hnb Hh Hw Hlo Hlr Han)
      as (bs & lodft' & Hp & Lbs & Rbs & Rlodft').
    destruct (IH (next_dim h) (next_dim w) lodft'
                 (crop_window (h, w) log_rad) (crop_window (h, w) angle)
                 (map (fun x => (x - 1)%R) Xrcos) Yrcos Hnb)
      as (rest & Hrest & Orest).
    { now apply next_dim_pos. }
    { now apply next_dim_pos. }
    { exact Rlodft'. }
    { now apply rect_crop_window. }
    { now apply rect_crop_window. }
    exists (Bands bs :: rest). split.
    + rewrite NumPy_facts.build_levels_rec. io_simpl. rewrite Hp. io_simpl.
      cbn [fst snd next_lodft next_log_rad next_angle next_Xrcos].
      rewrite Hrest. reflexivity.
    + change (levels_ok (Z.to_nat (nbands self)) h w (S (S n))
                (Bands bs :: rest))
        with (exists bs0 rest0,
                 Bands bs :: rest = Bands bs0 :: rest0 /\
                 length bs0 = Z.to_nat (nbands self) /\
                 Forall (rect h w) bs0 /\
                 levels_ok (Z.to_nat (nbands self)) (next_dim h) (next_dim w)
                   (S n) rest0).
      exists bs, rest. auto.
Qed.

End NumPy_shape_facts.

Module NumPy_build_facts.
Import NumPy NumPy_shape_facts.

Lemma set_levels_from h nb (cs : list level) : forall done,
  foldM (fun p ic => set_level p (fst ic) (snd ic))
        (combine (seq (length done) (length cs)) cs)
        (mkPyramid h nb (map Some done ++ repeat None (length cs)))
  = Ok (mkPyramid h nb (map Some (done ++ cs))).
Proof.
  induction cs as [|c cs IH]; intros done.
  - simpl. now rewrite !app_nil_r.
  - cbn [length seq combine foldM repeat].
    unfold set_level at 1. cbn [_coeff _height _nbands fst snd].
    replace (length done) with (length (map (@Some level) done))
      by apply length_map.
    rewrite setitem_app. cbn [bind]. rewrite length_map.
    specialize (IH (done ++ [c])).
    rewrite length_app, Nat.add_1_r in IH. cbn [length] in IH.
    rewrite map_app in IH. cbn [map] in IH. rewrite <- app_assoc in IH.
    cbn [app] in IH. rewrite IH. now rewrite <- app_assoc.
Qed.

Lemma set_levels_init h nb (coeff : list level) :
  length coeff = Z.to_nat h ->
  set_levels (init h nb) coeff = Ok (mkPyramid h nb (map Some coeff)).
Proof.
  intros Hl. unfold set_levels, init. rewrite <- Hl.
  exact (set_levels_from h nb coeff []).
Qed.

(** On a non-empty image that passes the check on the height, [build]
    returns the container filled with the high-pass residual followed by
    the levels of [_build_levels]. *)
Lemma build_ok G self im H W :
  rect H W im -> 0 < H -> 0 < W ->
  (2 <= height self <= Z.log2 (Z.of_nat (Nat.min W H)) - 2)%Z ->
  (1 <= nbands self)%Z ->
  exists hi coeff,
    snd (build G self im)
    = Ok (mkPyramid (height self) (nbands self)
            (Some (Real hi) :: map Some coeff))
    /\ rect H W hi
    /\ levels_ok (Z.to_nat (nbands self)) H W
                 (Z.to_nat (height self - 1)) coeff.
Proof.
  intros Him HH HW Hh Hnb.
  destruct (fft2_rect H W (amap RtoC im)) as (f & Hf & Rf);
    [assumption | assumption | now apply rect_amap |].
  destruct (rcosFn G 1 (-0.5)) as [Xrcos Yrcos0] eqn:Ercos.
  set (Yrcos := map sqrt Yrcos0).
  set (YIrcos := map (fun y => sqrt (1 - y ^ 2))%R Yrcos).
  set (log_rad := tabulate H W (log_rad_at G H W)).
  set (angle := tabulate H W (angle_at G H W)).
  assert (Rlr : rect H W log_rad) by apply rect_tabulate.
  assert (Ran : rect H W angle) by apply rect_tabulate.
  destruct (ew2_rect CmulR H W (fftshift f) (pointOp G log_rad YIrcos Xrcos))
    as (lo0dft & Hlo0 & Rlo0);
    [assumption | now apply rect_fftshift | now apply rect_pointOp |].
  destruct (ew2_rect CmulR H W (fftshift f) (pointOp G log_rad Yrcos Xrcos))
    as (hi0dft & Hhi0 & Rhi0);
    [assumption | now apply rect_fftshift | now apply rect_pointOp |].
  destruct (ifft2_rect H W (ifftshift hi0dft)) as (hi0 & Hhi & Rhi);
    [assumption | assumption | now apply rect_ifftshift |].
  destruct (build_levels_ok G self (Z.to_nat (height self - 1)) H W
              lo0dft log_rad angle Xrcos Yrcos Hnb HH HW Rlo0 Rlr Ran)
    as (coeff & Hcoeff & Ocoeff).
  exists (amap Cre hi0), coeff. split; [| split];
    [| now apply rect_amap | exact Ocoeff].
  unfold build. rewrite (rect_shape H W im Him HH).
  unfold max_height_pyr.
  replace (Nat.min W H =? 0) with false
    by (symmetry; apply Nat.eqb_neq; lia).
  io_simpl.
  replace (height self <=? Z.log2 (Z.of_nat (Nat.min W H)) - 2)%Z with true
    by (symmetry; apply Z.leb_le; lia).
  cbn [assert bind]. unfold prepare_grid. fold log_rad angle.
  rewrite Ercos. fold Yrcos YIrcos.
  io_simpl. rewrite Hf. io_simpl. rewrite Hlo0. io_simpl.
  rewrite Hcoeff. io_simpl. rewrite Hhi0. io_simpl. rewrite Hhi. io_simpl.
  apply set_levels_init.
  apply levels_ok_length in Ocoeff. cbn [length]. rewrite Ocoeff. lia.
Qed.

End NumPy_build_facts.

(** ** The shapes of the levels *)

Lemma iter_next_dim_lower j : forall m d,
  2 ^ (j + m) <= d -> 2 ^ m <= Nat.iter j next_dim d.
Proof.
  induction j as [|j IH]; intros m d H.
  - exact H.
  - assert (H1 : 2 ^ (S m) <= Nat.iter j next_dim d).
    { apply IH. now replace (j + S m) with (S j + m) by lia. }
    rewrite Nat.pow_succ_r' in H1.
    rewrite Nat.iter_succ. revert H1. generalize (Nat.iter j next_dim d).
    intros x H1. unfold next_dim.
    apply Nat.div_le_lower_bound; lia.
Qed.

Lemma pow2_le_of_log2 (n : nat) (h : Z) :
  (0 <= h <= Z.log2 (Z.of_nat n))%Z -> 0 < n -> 2 ^ Z.to_nat h <= n.
Proof.
  intros Hh Hn. apply Nat2Z.inj_le.
  rewrite Nat2Z.inj_pow, Z2Nat.id by lia.
  transitivity (2 ^ Z.log2 (Z.of_nat n))%Z.
  - apply Z.pow_le_mono_r; lia.
  - apply Z.log2_spec. lia.
Qed.

Lemma log2_pos_arg (n : nat) :
  (0 < Z.log2 (Z.of_nat n))%Z -> 0 < n.
Proof.
  intros H. destruct n; [simpl in H; lia | lia].
Qed.

Module NumPy_level_facts.
Import NumPy NumPy_shape_facts.

(** The entries of the list of [_build_levels], by position. *)
Lemma levels_ok_nth nb n : forall h w coeff,
  levels_ok nb h w n coeff -> 1 <= n ->
  (forall j, j < n - 1 ->
     exists bs, nth_error coeff j = Some (Bands bs) /\ length bs = nb /\
                Forall (rect (Nat.iter j next_dim h) (Nat.iter j next_dim w))
                       bs)
  /\ exists a, nth_error coeff (n - 1) = Some (Real a) /\
               rect (Nat.iter (n - 1) next_dim h)
                    (Nat.iter (n - 1) next_dim w) a.
Proof.
  induction n as [|n IH]; intros h w coeff H Hn; [lia|].
  destruct n as [|n].
  - destruct H as (a & -> & Ra). split; [intros j Hj; simpl in Hj; lia|].
    exists a. now split.
  - destruct H as (bs & rest & -> & Lbs & Rbs & Hrest).
    destruct (IH _ _ _ Hrest ltac:(lia)) as (Hmid & a & Ha & Ra).
    assert (Eit : forall j d, Nat.iter j next_dim (next_dim d)
                              = Nat.iter (S j) next_dim d).
    { intros j d. symmetry. apply Nat.iter_succ_r. }
    split.
    + intros [|j] Hj.
      * exists bs. now repeat split.
      * destruct (Hmid j ltac:(lia)) as (bs' & Hn' & Ln' & Rn').
        exists bs'. rewrite <- !Eit. now repeat split.
    + exists a. replace (S (S n) - 1) with (S (S n - 1)) by lia.
      rewrite <- !Eit. now split.
Qed.

End NumPy_level_facts.

Lemma level_dims_iter H W k :
  level_dims H W k
  = (Nat.iter (k - 1) next_dim H, Nat.iter (k - 1) next_dim W).
Proof. reflexivity. Qed.

Lemma io_result {A : Type} (m : io A) (r : result A) :
  snd m = r -> m = (fst m, r).
Proof. intros <-. apply surjective_pairing. Qed.

(** C8, as the code has it: on a valid input [build] returns [height]
    levels; level 0 has the shape of the image; each of the levels
    [1 .. height-2] holds [nbands] subbands of one shape; level 1 has the
    shape of the image again, and from level 1 on every axis shrinks
    strictly from one level to the next, to [ceil((d - 0.5)/2)]. *)
Theorem build_pyramid_shapes (G : GridMaskGenerator)
  (self : NumPy.SCFpyr_NumPy) (im : array R) (H W : nat) :
  rect H W im ->
  (2 <= NumPy.height self <= Z.log2 (Z.of_nat (Nat.min W H)) - 2)%Z ->
  (1 <= NumPy.nbands self)%Z ->
  let n := Z.to_nat (NumPy.height self) in
  exists t pyr,
    NumPy.build G self im = (t, Ok pyr) /\
    length (NumPy._coeff pyr) = n /\
    (exists a, nth_error (NumPy._coeff pyr) 0 = Some (Some (NumPy.Real a)) /\
               shape a = (H, W)) /\
    (forall k, 1 <= k <= n - 2 ->
       exists bs,
         nth_error (NumPy._coeff pyr) k = Some (Some (NumPy.Bands bs)) /\
         Z.of_nat (length bs) = NumPy.nbands self /\
         Forall (fun b => shape b = level_dims H W k) bs) /\
    (exists a, nth_error (NumPy._coeff pyr) (n - 1)
               = Some (Some (NumPy.Real a)) /\
               shape a = level_dims H W (n - 1)) /\
    level_dims H W 1 = (H, W) /\
    (forall k, 1 <= k < n - 1 ->
       let d := level_dims H W k in
       let d' := level_dims H W (k + 1) in
       Z.of_nat (fst d') = half_ceil (Z.of_nat (fst d)) /\
       Z.of_nat (snd d') = half_ceil (Z.of_nat (snd d)) /\
       fst d' < fst d /\ snd d' < snd d).
Proof.
  intros Him Hh Hnb n.
  assert (Hmin : 0 < Nat.min W H) by (apply log2_pos_arg; lia).
  assert (HH : 0 < H) by lia. assert (HW : 0 < W) by lia.
  assert (Hpow : 2 ^ (n + 2) <= Nat.min W H).
  { replace (n + 2) with (Z.to_nat (NumPy.height self + 2)) by (unfold n; lia).
    apply pow2_le_of_log2; [lia | exact Hmin]. }
  assert (Hiter : forall j d, j + 1 <= n -> Nat.min W H <= d ->
                              1 <= Nat.iter j next_dim d /\
                              2 <= Nat.iter j next_dim d).
  { intros j d Hj Hd.
    assert (H2 : 2 ^ 1 <= Nat.iter j next_dim d).
    { apply iter_next_dim_lower. transitivity (2 ^ (n + 2)); [|lia].
      apply Nat.pow_le_mono_r; lia. }
    simpl in H2. lia. }
  destruct (NumPy_build_facts.build_ok G self im H W Him HH HW Hh Hnb)
    as (hi & coeff & Hb & Rhi & Hlv).
  replace (Z.to_nat (NumPy.height self - 1)) with (n - 1) in Hlv
    by (unfold n; lia).
  pose proof (NumPy_shape_facts.levels_ok_length _ _ _ _ _ Hlv) as Hlen.
  destruct (NumPy_level_facts.levels_ok_nth _ _ _ _ _ Hlv ltac:(unfold n; lia))
    as (Hmid & lo & Hlo & Rlo).
  exists (fst (NumPy.build G self im)),
    (NumPy.mkPyramid (NumPy.height self) (NumPy.nbands self)
       (Some (NumPy.Real hi) :: map Some coeff)).
  split; [now apply io_result|].
  cbn [NumPy._coeff].
  split; [cbn [length]; rewrite length_map, Hlen; unfold n; lia|].
  split; [exists hi; split; [reflexivity | now apply rect_shape]|].
  split.
  { intros k Hk. destruct k as [|k]; [lia|].
    destruct (Hmid k ltac:(lia)) as (bs & Hn & Lbs & Rbs).
    exists bs. cbn [nth_error]. rewrite nth_error_map, Hn. cbn [option_map].
    split; [reflexivity|]. split; [lia|].
    eapply Forall_impl; [| exact Rbs]. intros b Rb.
    rewrite level_dims_iter. replace (S k - 1) with k by lia.
    apply rect_shape; [exact Rb|].
    apply (Hiter k H); lia. }
  split.
  { exists lo. replace (n - 1) with (S (n - 1 - 1)) at 1 by (unfold n; lia).
    cbn [nth_error]. rewrite nth_error_map, Hlo. cbn [option_map].
    split; [reflexivity|].
    rewrite level_dims_iter.
    apply rect_shape; [exact Rlo|].
    apply (Hiter (n - 1 - 1) H); lia. }
  split; [reflexivity|].
  intros k Hk. rewrite !level_dims_iter.
  replace (k + 1 - 1) with (S (k - 1)) by lia.
  rewrite !Nat.iter_succ. cbn [fst snd].
  rewrite !half_ceil_eq, !next_dim_Z.
  split; [reflexivity|]. split; [reflexivity|].
  split; apply next_dim_lt.
  - apply (Hiter (k - 1) H); lia.
  - apply (Hiter (k - 1) W); lia.
Qed.

Lemma build_pyramid_shapes_witness :
  exists t pyr,
    NumPy.build flat_utils pyr3 (blank 32 32) = (t, Ok pyr) /\
    length (NumPy._coeff pyr) = 3.
Proof.
  destruct (build_pyramid_shapes flat_utils pyr3 (blank 32 32) 32 32)
    as (t & pyr & Hb & Hl & _).
  - apply rect_tabulate.
  - cbn. lia.
  - cbn. lia.
  - exists t, pyr. split; [exact Hb | exact Hl].
Defined.

(** The pyramid of height 3 with 4 bands over a blank 32 by 32 image. *)
Lemma build_pyr3 (G : GridMaskGenerator) :
  exists hi bs lo,
    snd (NumPy.build G pyr3 (blank 32 32))
    = Ok (NumPy.mkPyramid 3 4
            [Some (NumPy.Real hi); Some (NumPy.Bands bs);
             Some (NumPy.Real lo)])
    /\ rect 32 32 hi /\ length bs = 4 /\ Forall (rect 32 32) bs
    /\ rect 16 16 lo.
Proof.
  destruct (NumPy_build_facts.build_ok G pyr3 (blank 32 32) 32 32)
    as (hi & coeff & Hb & Rhi & Hlv).
  - apply rect_tabulate.
  - lia.
  - lia.
  - cbn. lia.
  - cbn. lia.
  - change (Z.to_nat (NumPy.height pyr3 - 1)) with 2 in Hlv.
    change (Z.to_nat (NumPy.nbands pyr3)) with 4 in Hlv.
    destruct Hlv as (bs & rest & -> & Lbs & Rbs & (lo & -> & Rlo)).
    exists hi, bs, lo.
    split; [exact Hb|]. split; [exact Rhi|]. split; [exact Lbs|].
    split; [exact Rbs | exact Rlo].
Qed.

(** C8, the claim as stated fails between level 0 and level 1: the
    subbands of level 1 have the shape of the image. *)
Lemma level1_keeps_image_shape :
  exists t pyr a bs b,
    NumPy.build flat_utils pyr3 (blank 32 32) = (t, Ok pyr) /\
    nth_error (NumPy._coeff pyr) 0 = Some (Some (NumPy.Real a)) /\
    nth_error (NumPy._coeff pyr) 1 = Some (Some (NumPy.Bands bs)) /\
    In b bs /\
    shape a = (32, 32) /\ shape b = (32, 32) /\
    ~ fst (shape b) < fst (shape a).
Proof.
  destruct (build_pyr3 flat_utils) as (hi & bs & lo & Hb & Rhi & Lbs & Rbs & _).
  destruct bs as [|b bs]; [discriminate Lbs|].
  assert (Rb : rect 32 32 b) by now inversion Rbs.
  exists (fst (NumPy.build flat_utils pyr3 (blank 32 32))),
    (NumPy.mkPyramid 3 4
       [Some (NumPy.Real hi); Some (NumPy.Bands (b :: bs));
        Some (NumPy.Real lo)]),
    hi, (b :: bs), b.
  split; [now apply io_result|].
  split; [reflexivity|]. split; [reflexivity|].
  split; [now left|].
  rewrite (rect_shape 32 32 hi Rhi), (rect_shape 32 32 b Rb) by lia.
  repeat split. cbn. lia.
Qed.

(** C9: [level_size] at the low-pass level of a pyramid of [build] returns
    the 1-tuple [(16,)], the shape of the first row, while the low-pass
    array has shape [(16, 16)]. *)
Theorem level_size_low_pass (G : GridMaskGenerator) :
  exists t pyr lo,
    NumPy.build G pyr3 (blank 32 32) = (t, Ok pyr) /\
    nth_error (NumPy._coeff pyr) 2 = Some (Some (NumPy.Real lo)) /\
    shape lo = (16, 16) /\
    NumPy.level_size pyr 2 = Ok [16].
Proof.
  destruct (build_pyr3 G) as (hi & bs & lo & Hb & _ & _ & _ & Rlo).
  exists (fst (NumPy.build G pyr3 (blank 32 32))),
    (NumPy.mkPyramid 3 4
       [Some (NumPy.Real hi); Some (NumPy.Bands bs); Some (NumPy.Real lo)]),
    lo.
  split; [now apply io_result|].
  split; [reflexivity|].
  split; [apply rect_shape; [exact Rlo | lia]|].
  unfold NumPy.level_size. cbn [Nat.eqb NumPy._nbands NumPy._coeff].
  cbn [Z.of_nat Pos.of_succ_nat Pos.succ Z.eqb Pos.eqb].
  unfold index. cbn [nth_error bind NumPy.item0_shape].
  destruct Rlo as [Ll Rr]. destruct lo as [|r lo]; [discriminate Ll|].
  inversion Rr as [|r' lo' Hr Hlo]; subst. now rewrite Hr.
Qed.

(** C1: [reconstruct] applied to the object that [build] returns raises
    [TypeError] at [coeff[1]], so the round trip yields no image. *)
Theorem reconstruct_of_build_raises (G : GridMaskGenerator) :
  exists t pyr,
    NumPy.build G pyr3 (blank 32 32) = (t, Ok pyr) /\
    NumPy.reconstruct G pyr3 (NumPy.CoeffPyramid pyr) = Err TypeError.
Proof.
  destruct (build_pyr3 G) as (hi & bs & lo & Hb & _).
  eexists _, _. split; [apply io_result; exact Hb | reflexivity].
Qed.

(** ** The tensor builder *)

Lemma fft_has_no_fftshift : fft.getattr "fftshift" = Err AttributeError.
Proof. reflexivity. Qed.

Lemma iobind_Err {A B : Type} (m : io A) (k : A -> io B) e :
  snd m = Err e -> snd (iobind m k) = Err e.
Proof. intros H. rewrite snd_iobind, H. reflexivity. Qed.

Lemma iobind_cases {A B : Type} (m : io A) (k : A -> io B) :
  (exists e, snd m = Err e /\ snd (iobind m k) = Err e) \/
  (exists a, snd m = Ok a /\ snd (iobind m k) = snd (k a)).
Proof.
  rewrite snd_iobind. destruct (snd m) as [a|e].
  - right. exists a. split; reflexivity.
  - left. exists e. split; reflexivity.
Qed.

(** C2: the two builders do not agree.  [SCFpyr_PyTorch.build] calls
    [fft_utils.fftshift], a name that [fft.py] does not define, so it
    raises on every batch, whereas [SCFpyr_NumPy.build] returns a pyramid
    for a 32 by 32 image. *)
Theorem backends_disagree (T : TorchOps) (G : GridMaskGenerator)
  (pt : PyTorch.SCFpyr_PyTorch) (im_batch : Tensor T) :
  (exists e, snd (PyTorch.build T G pt im_batch) = Err e) /\
  (exists pyr, snd (NumPy.build G pyr3 (blank 32 32)) = Ok pyr).
Proof.
  split.
  - unfold PyTorch.build.
    repeat
      match goal with
      | |- exists e,
             snd (iobind (lift (PyTorch.fft_utils_fftshift _ _ _)) _)
             = Err e =>
          exists AttributeError; apply iobind_Err; reflexivity
      | |- exists e, snd (iobind ?m ?k) = Err e =>
          let He := fresh "He" in
          let Ha := fresh "Ha" in
          destruct (iobind_cases m k) as [(? & _ & He) | (? & _ & Ha)];
            [eexists; exact He | rewrite Ha; clear Ha; cbv beta]
      | |- exists e, snd (let '(x, y) := ?p in _) = Err e =>
          destruct p
      end.
  - destruct (build_pyr3 G) as (hi & bs & lo & Hb & _).
    eexists. exact Hb.
Qed.

(** ** The shift of the radial abscissa *)

Lemma snd_iobind_Ok {A B : Type} (m : io A) (k : A -> io B) (b : B) :
  snd (iobind m k) = Ok b -> exists a, snd m = Ok a /\ snd (k a) = Ok b.
Proof. rewrite snd_iobind. apply bind_Ok_inv. Qed.

Ltac io_invert H :=
  repeat
    match type of H with
    | snd (iobind _ _) = Ok _ =>
        let a := fresh "a" in
        let Ha := fresh "Ha" in
        apply snd_iobind_Ok in H; destruct H as (a & Ha & H); cbv beta in H
    end.

(** Whatever [SCFpyr_NumPy._build_levels] passes on, its abscissa is the
    incoming one minus 1. *)
Lemma numpy_next_Xrcos G self lodft log_rad angle Xrcos Yrcos n bs p :
  snd (NumPy.build_pass G self lodft log_rad angle Xrcos Yrcos n) = Ok (bs, p)
  -> NumPy.next_Xrcos p = map (fun x => (x - 1)%R) Xrcos.
Proof.
  intros H. unfold NumPy.build_pass in H. io_invert H.
  cbn [ret snd] in H. inversion H; subst. reflexivity.
Qed.

(** Whatever [SCFpyr_PyTorch._build_levels] passes on, its abscissa is the
    incoming one minus [log2(scale_factor)]. *)
Lemma pytorch_next_Xrcos T G self lodft log_rad angle Xrcos Yrcos bs p :
  snd (PyTorch.build_pass T G self lodft log_rad angle Xrcos Yrcos)
  = Ok (bs, p) ->
  PyTorch.next_Xrcos p
  = map (fun x => (x - log2R (PyTorch.scale_factor self))%R) Xrcos.
Proof.
  intros H. unfold PyTorch.build_pass in H. io_invert H.
  cbn [ret snd] in H. inversion H; subst. reflexivity.
Qed.

Lemma log2R_4 : log2R 4 = 2%R.
Proof.
  unfold log2R. replace 4%R with (2 * 2)%R by ring.
  rewrite ln_mult by lra.
  assert (H : (0 < ln 2)%R).
  { rewrite <- ln_1. apply ln_increasing; lra. }
  field. lra.
Qed.

(** C5: with [scale_factor = 4] the recursive call of
    [SCFpyr_NumPy._build_levels] receives [Xrcos - 1], here [[-1]], and not
    [Xrcos - log2(4)], which is [[-2]]. *)
Theorem numpy_shift_ignores_scale_factor (G : GridMaskGenerator) :
  exists bs p,
    snd (NumPy.build_pass G pyr_sf4 (zeros C0 (32, 32)) (blank 32 32)
           (blank 32 32) [0%R] [1%R] 2) = Ok (bs, p) /\
    NumPy.next_Xrcos p = [(-1)%R] /\
    map (fun x => (x - log2R (NumPy.scale_factor pyr_sf4))%R) [0%R]
    = [(-2)%R] /\
    NumPy.next_Xrcos p
    <> map (fun x => (x - log2R (NumPy.scale_factor pyr_sf4))%R) [0%R].
Proof.
  destruct (NumPy_shape_facts.build_pass_ok G pyr_sf4 32 32
              (zeros C0 (32, 32)) (blank 32 32) (blank 32 32) [0%R] [1%R] 2)
    as (bs & lodft' & Hp & _); try apply rect_tabulate; try lia.
  { cbn. lia. }
  assert (E1 : map (fun x => (x - 1)%R) [0%R] = [(-1)%R])
    by (cbn [map]; f_equal; ring).
  assert (E2 : map (fun x => (x - log2R (NumPy.scale_factor pyr_sf4))%R) [0%R]
               = [(-2)%R]).
  { cbn [map NumPy.scale_factor pyr_sf4]. rewrite log2R_4. f_equal. ring. }
  eexists _, _. split; [exact Hp|]. cbn [NumPy.next_Xrcos].
  rewrite E1, E2. repeat split.
  intros H. inversion H. lra.
Qed.

(** ** The angular profiles *)

Lemma nth_error_zip_with {A B D : Type} (f : A -> B -> D) l m i :
  nth_error (zip_with f l m) i
  = match nth_error l i, nth_error m i with
    | Some a, Some b => Some (f a b)
    | _, _ => None
    end.
Proof.
  revert m i. induction l as [|a l IH]; intros [|b m] [|i]; simpl; auto.
  - now destruct (nth_error l i).
Qed.

Lemma nth_error_zrange a b i :
  nth_error (zrange a b) i
  = if i <? Z.to_nat (b - a) then Some (a + Z.of_nat i)%Z else None.
Proof.
  unfold zrange. rewrite nth_error_map, nth_error_seq.
  now destruct (i <? Z.to_nat (b - a)).
Qed.

(** Entry [i] of the abscissa is [pi * (i - 2049) / 1024]. *)
Lemma Xcosn_at i :
  i < 3075 ->
  nth_error Xcosn i
  = Some (PI * IZR (Z.of_nat i - 2049) / 1024)%R.
Proof.
  intros Hi. unfold Xcosn. rewrite nth_error_map, nth_error_zrange.
  change (Z.to_nat (lutsize + 2 - - (2 * lutsize + 1))) with 3075.
  replace (i <? 3075) with true by (symmetry; apply Nat.ltb_lt; exact Hi).
  cbn [option_map]. unfold lutsize.
  replace (- (2 * 1024 + 1) + Z.of_nat i)%Z with (Z.of_nat i - 2049)%Z by lia.
  reflexivity.
Qed.

Lemma Xcosn_length : length Xcosn = 3075.
Proof.
  unfold Xcosn, zrange. now rewrite !length_map, length_seq.
Qed.

Lemma Xcosn_in_range i x : nth_error Xcosn i = Some x -> i < 3075.
Proof.
  intros H. rewrite <- Xcosn_length. apply nth_error_Some. now rewrite H.
Qed.



Lemma Cmul_comm z w : Cmul z w = Cmul w z.
Proof. unfold Cmul. f_equal; ring. Qed.














(** ** [reconstruct] on a valid list of levels *)

Lemma foldM_ok {A S : Type} (f : S -> A -> result S) (P : S -> Prop)
  (l : list A) : forall s,
  (forall s a, In a l -> P s -> exists s', f s a = Ok s' /\ P s') ->
  P s -> exists s', foldM f l s = Ok s' /\ P s'.
Proof.
  induction l as [|a l IH]; intros s Hf Hs; simpl.
  - now exists s.
  - destruct (Hf s a (or_introl eq_refl) Hs) as (s1 & H1 & P1).
    rewrite H1. cbn [bind]. apply IH; [|exact P1].
    intros s2 b Hb. apply Hf. now right.
Qed.

Lemma norm_index_window (d : nat) :
  norm_index d (low_ind_start d) = Z.to_nat (low_ind_start d) /\
  norm_index d (low_ind_end d) = Z.to_nat (low_ind_end d) /\
  Z.to_nat (low_ind_end d) - Z.to_nat (low_ind_start d) = next_dim d /\
  Z.to_nat (low_ind_start d) + next_dim d <= d.
Proof.
  destruct (window_bounds d) as (H0 & H1 & H2). unfold norm_index.
  replace (low_ind_start d <? 0)%Z with false by (symmetry; apply Z.ltb_ge; lia).
  replace (low_ind_end d <? 0)%Z with false by (symmetry; apply Z.ltb_ge; lia).
  repeat split; lia.
Qed.

Lemma splice_length {A : Type} (s : nat) (v l : list A) :
  s + length v <= length l -> length (splice s v l) = length l.
Proof.
  intros H. unfold splice.
  rewrite !length_app, length_firstn, length_skipn. lia.
Qed.

(** Writing a block of the cropped shape back into an array. *)
Lemma assign_block_rect {A : Type} h w (v a : array A) :
  0 < h -> 0 < w ->
  rect (next_dim h) (next_dim w) v -> rect h w a ->
  exists r,
    assign_block (low_ind_start h) (low_ind_end h)
                 (low_ind_start w) (low_ind_end w) v a = Ok r
    /\ rect h w r.
Proof.
  intros Hh Hw Rv Ra.
  destruct (norm_index_window h) as (Eh0 & Eh1 & Eh2 & Eh3).
  destruct (norm_index_window w) as (Ew0 & Ew1 & Ew2 & Ew3).
  unfold assign_block.
  rewrite (rect_shape h w a Ra Hh).
  rewrite (rect_shape _ _ v Rv (next_dim_pos h Hh)).
  cbn [fst snd]. rewrite Eh0, Eh1, Ew0, Ew1, Eh2, Ew2.
  rewrite !Nat.eqb_refl. cbn [orb andb].
  rewrite (broadcast_to_rect _ _ v Rv).
  eexists. split; [reflexivity|].
  destruct Ra as [La Fa]. destruct Rv as [Lv Fv].
  set (r0 := Z.to_nat (low_ind_start h)) in *.
  set (c0 := Z.to_nat (low_ind_start w)) in *.
  split.
  - rewrite !length_app, zip_with_length, length_firstn, length_skipn.
    rewrite slice_length by lia. lia.
  - apply Forall_app. split; [now apply Forall_firstn|].
    apply Forall_app. split; [|now apply Forall_skipn].
    assert (Fs : Forall (fun r => length r = w) (slice r0 (next_dim h) a))
      by now apply Forall_slice.
    clear La Lv. revert Fs. generalize (slice r0 (next_dim h) a).
    induction Fv as [|vr v Hvr _ IH]; intros l Fs; simpl; [constructor|].
    destruct Fs as [|ar l Har Hl]; constructor.
    + rewrite splice_length; lia.
    + now apply IH.
Qed.

Module NumPy_recon_ok.
Import NumPy.

Lemma reconstruct_levels_rec G self c c' rest log_rad Xrcos Yrcos angle :
  _reconstruct_levels G self (c :: c' :: rest) log_rad Xrcos Yrcos angle
  = recon_step G self (c :: c' :: rest)
      (_reconstruct_levels G self (c' :: rest)) log_rad Xrcos Yrcos angle.
Proof. reflexivity. Qed.

Lemma recon_band_ok G self h w bs angle himask Ycosn orientdft b :
  0 < h -> 0 < w ->
  Forall (rect h w) bs -> b < length bs ->
  rect h w angle -> rect h w himask -> rect h w orientdft ->
  exists r,
    recon_band G self bs angle himask Ycosn orientdft b = Ok r /\ rect h w r.
Proof.
  intros Hh Hw Rbs Hb Ran Rhi Ror. unfold recon_band.
  destruct (nth_error bs b) as [band|] eqn:Eb;
    [| apply nth_error_None in Eb; lia].
  assert (Rband : rect h w band).
  { apply (proj1 (Forall_forall _ _) Rbs). eapply nth_error_In; eauto. }
  unfold index. rewrite Eb. cbn [bind].
  destruct (fft2_rect h w band Hh Hw Rband) as (f & Hf & Rf).
  rewrite Hf. cbn [bind].
  destruct (ew2_rect CmulR h w
              (amap (Cmul (recon_phase self)) (fftshift f))
              (pointOp G angle Ycosn
                 (map (fun x => (x + PI * INR b / IZR (nbands self))%R) Xcosn)))
    as (t & Ht & Rt);
    [assumption | now apply rect_amap, rect_fftshift
    | now apply rect_pointOp |].
  rewrite Ht. cbn [bind].
  destruct (ew2_rect CmulR h w t himask) as (u & Hu & Ru); try assumption.
  rewrite Hu. cbn [bind].
  now apply ew2_rect.
Qed.

Lemma reconstruct_levels_ok G self n :
  forall h w coeff log_rad Xrcos Yrcos angle,
    (1 <= nbands self)%Z ->
    0 < h -> 0 < w ->
    levels_ok (Z.to_nat (nbands self)) h w n coeff ->
    rect h w log_rad -> rect h w angle ->
    exists r,
      _reconstruct_levels G self coeff log_rad Xrcos Yrcos angle = Ok r
      /\ rect h w r.
Proof.
  assert (Hbase : forall h w coeff log_rad Xrcos Yrcos angle,
            0 < h -> 0 < w ->
            (exists a, coeff = [Real a] /\ rect h w a) ->
            exists r,
              _reconstruct_levels G self coeff log_rad Xrcos Yrcos angle
              = Ok r /\ rect h w r).
  { intros h w coeff log_rad Xrcos Yrcos angle Hh Hw (a & -> & Ra).
    cbn [_reconstruct_levels].
    destruct (fft2_rect h w (amap RtoC a)) as (f & Hf & Rf);
      [assumption | assumption | now apply rect_amap |].
    rewrite Hf. cbn [bind]. eexists. split; [reflexivity|].
    now apply rect_fftshift. }
  induction n as [|n IH];
    intros h w coeff log_rad Xrcos Yrcos angle Hnb Hh Hw Hlv Rlr Ran.
  - now apply Hbase.
  - destruct n as [|n]; [now apply Hbase|].
    destruct Hlv as (bs & rest & -> & Lbs & Rbs & Hrest).
    assert (Hrest' := Hrest).
    apply NumPy_shape_facts.levels_ok_length in Hrest'.
    destruct rest as [|c' rest]; [simpl in Hrest'; lia|].
    rewrite reconstruct_levels_rec. unfold recon_step.
    destruct (NumPy_shape_facts.angular_const_ok _ Hnb) as (c & Hc).
    rewrite Hc. cbn [bind index nth_error].
    destruct bs as [|b0 bs]; [simpl in Lbs; lia|].
    cbn [index nth_error bind].
    assert (Rb0 : rect h w b0) by now inversion Rbs.
    rewrite (rect_shape h w b0 Rb0 Hh).
    set (Xrcos' := map (fun x => (x - 1)%R) Xrcos).
    set (himask := pointOp G log_rad Yrcos Xrcos').
    destruct (foldM_ok
                (recon_band G self (b0 :: bs) angle himask
                   (recon_Ycosn c (Z.to_nat (nbands self - 1))))
                (rect h w) (seq 0 (Z.to_nat (nbands self)))
                (zeros C0 (h, w)))
      as (orientdft & Hor & Ror).
    { intros s b Hb Rs. apply in_seq in Hb.
      apply recon_band_ok with (h := h) (w := w); auto; try lia.
      now apply rect_pointOp. }
    { apply rect_tabulate. }
    rewrite Hor. cbn [bind].
    destruct (IH (next_dim h) (next_dim w) (c' :: rest)
                 (crop_window (h, w) log_rad) Xrcos' Yrcos
                 (crop_window (h, w) angle) Hnb)
      as (nresdft & Hn & Rn);
      [now apply next_dim_pos | now apply next_dim_pos | exact Hrest
      | now apply rect_crop_window | now apply rect_crop_window |].
    rewrite Hn. cbn [bind].
    destruct (ew2_rect CmulR (next_dim h) (next_dim w) nresdft
                (pointOp G (crop_window (h, w) log_rad)
                   (map (fun y => sqrt (Rabs (1 - y * y)))%R Yrcos) Xrcos'))
      as (v & Hv & Rv);
      [now apply next_dim_pos | exact Rn
      | now apply rect_pointOp, rect_crop_window |].
    rewrite Hv. cbn [bind fst snd].
    destruct (assign_block_rect h w v (zeros C0 (h, w)) Hh Hw Rv)
      as (resdft & Hres & Rres); [apply rect_tabulate|].
    rewrite Hres. cbn [bind].
    now apply ew2_rect.
Qed.

(** On a valid list of levels [reconstruct] reaches its last line with a
    spectrum of the shape of the high-pass residual. *)
Lemma reconstruct_outdft_ok G self H W tree :
  valid_tree self H W tree ->
  exists outdft, reconstruct_outdft G self tree = Ok outdft /\ rect H W outdft.
Proof.
  intros (HH & HW & Hnb & hi & coeff & n & -> & Hn & Rhi & Hlv).
  destruct n as [|[|n]]; [lia | lia |].
  assert (Hlv' := Hlv).
  destruct Hlv' as (bs & rest & -> & Lbs & Rbs & Hrest).
  unfold reconstruct_outdft.
  cbn [index nth_error bind level_len]. rewrite Lbs.
  replace (nbands self =? Z.of_nat (Z.to_nat (nbands self)))%Z with true
    by (symmetry; apply Z.eqb_eq; lia).
  cbn [negb]. rewrite (rect_shape H W hi Rhi HH).
  unfold prepare_grid.
  destruct (rcosFn G 1 (-0.5)) as [Xrcos Yrcos0].
  set (Yrcos := map sqrt Yrcos0).
  set (log_rad := tabulate H W (log_rad_at G H W)).
  set (angle := tabulate H W (angle_at G H W)).
  cbn [tl].
  destruct (reconstruct_levels_ok G self (S (S n)) H W (Bands bs :: rest)
              log_rad Xrcos Yrcos angle Hnb HH HW Hlv)
    as (tempdft & Ht & Rt); try apply rect_tabulate.
  rewrite Ht. cbn [bind].
  destruct (fft2_rect H W (amap RtoC hi)) as (f & Hf & Rf);
    [assumption | assumption | now apply rect_amap |].
  rewrite Hf. cbn [bind].
  destruct (ew2_rect CmulR H W tempdft
              (pointOp G log_rad
                 (map (fun y => sqrt (Rabs (1 - y * y)))%R Yrcos) Xrcos))
    as (t1 & H1 & R1);
    [assumption | exact Rt | apply rect_pointOp, rect_tabulate |].
  rewrite H1. cbn [bind].
  destruct (ew2_rect CmulR H W (fftshift f) (pointOp G log_rad Yrcos Xrcos))
    as (t2 & H2 & R2);
    [assumption | now apply rect_fftshift
    | apply rect_pointOp, rect_tabulate |].
  rewrite H2. cbn [bind].
  now apply ew2_rect.
Qed.

End NumPy_recon_ok.

(** Handed the list of the levels that [build] put into its container
    for the blank 32 by 32 image, [reconstruct] returns a 32 by 32
    image. *)
Lemma reconstruct_of_levels_returns (G : GridMaskGenerator) :
  exists hi bs lo img,
    snd (NumPy.build G pyr3 (blank 32 32))
    = Ok (NumPy.mkPyramid 3 4
            (map Some [NumPy.Real hi; NumPy.Bands bs; NumPy.Real lo])) /\
    NumPy.reconstruct G pyr3
      (NumPy.CoeffList [NumPy.Real hi; NumPy.Bands bs; NumPy.Real lo])
    = Ok img /\
    shape img = (32, 32).
Proof.
  destruct (build_pyr3 G) as (hi & bs & lo & Hb & Rhi & Lbs & Rbs & Rlo).
  assert (Hv : valid_tree pyr3 32 32
                 [NumPy.Real hi; NumPy.Bands bs; NumPy.Real lo]).
  { unfold valid_tree. repeat split; try lia; [cbn; lia|].
    exists hi, [NumPy.Bands bs; NumPy.Real lo], 2.
    split; [reflexivity|]. split; [lia|]. split; [exact Rhi|].
    exists bs, [NumPy.Real lo].
    split; [reflexivity|]. split; [exact Lbs|]. split; [exact Rbs|].
    exists lo. split; [reflexivity | exact Rlo]. }
  destruct (NumPy_recon_ok.reconstruct_outdft_ok G pyr3 32 32 _ Hv)
    as (outdft & Ho & Ro).
  destruct (ifft2_rect 32 32 (ifftshift outdft)) as (r & Hr & Rr);
    [lia | lia | now apply rect_ifftshift |].
  exists hi, bs, lo, (amap (fun z => astype_int (Cre z)) r).
  split; [exact Hb|].
  split; [unfold NumPy.reconstruct; now rewrite Ho; cbn [bind]; rewrite Hr|].
  apply rect_shape; [now apply rect_amap | lia].
Qed.

(** ** The last line of [reconstruct] *)








Lemma Cmul_C0_r z : Cmul z C0 = C0.
Proof. unfold Cmul, C0. cbn [fst snd]. f_equal; ring. Qed.

Lemma CmulR_C0 x : CmulR C0 x = C0.
Proof. unfold CmulR, C0. cbn [fst snd]. f_equal; ring. Qed.

Lemma CmulR_0 z : CmulR z 0 = C0.
Proof. unfold CmulR, C0. f_equal; ring. Qed.


Lemma Cadd_C0_l z : Cadd C0 z = z.
Proof. destruct z. unfold Cadd, C0. cbn [fst snd]. f_equal; ring. Qed.









(** A coefficient list with at least one level of subbands is a list on
    which every step of [reconstruct] finds the shapes it expects. *)
Lemma pyramid_tree_valid self H W tree :
  pyramid_tree self H W tree -> 3 <= length tree ->
  valid_tree self H W tree.
Proof.
  intros (HH & HW & Hnb & hi & coeff & n & -> & Hn & Rhi & Hlv) Hl.
  pose proof (NumPy_shape_facts.levels_ok_length _ _ _ _ _ Hlv) as Lc.
  cbn [length] in Hl.
  unfold valid_tree. split; [exact HH|]. split; [exact HW|].
  split; [lia|]. exists hi, coeff, n.
  split; [reflexivity|]. split; [lia|]. split; assumption.
Qed.






(** * Further properties *)

(** ** [fft.py]: the flips on any axis *)

Module fft_more.
Import fft.

Lemma split_size_any n : (n + 2 - 1) / 2 = (n + 1) / 2.
Proof. f_equal. lia. Qed.

Lemma half_up_bounds n :
  n <= 2 * ((n + 1) / 2) /\ 2 * ((n + 1) / 2) <= n + 1.
Proof.
  pose proof (Nat.div_mod_eq (n + 1) 2) as E.
  pose proof (Nat.mod_upper_bound (n + 1) 2 ltac:(lia)) as U. lia.
Qed.

Lemma num_splits_any n :
  2 <= n -> (n + (n + 1) / 2 - 1) / ((n + 1) / 2) = 2.
Proof.
  intros Hn. destruct (half_up_bounds n) as [L U].
  set (s := (n + 1) / 2) in *.
  assert (Hs : 1 <= s) by lia.
  symmetry. apply (Nat.div_unique _ _ _ (n + s - 1 - 2 * s)); lia.
Qed.

(** The chunks of an axis of length other than 1. *)
Lemma chunk_any {A : Type} (x : tensor4 A) axis :
  size (tshape x) axis <> 1 ->
  let n := size (tshape x) axis in
  chunk x 2 axis
  = [narrow axis 0 ((n + 1) / 2) x;
     narrow axis ((n + 1) / 2) (n - (n + 1) / 2) x].
Proof.
  intros Hn n. unfold chunk. fold n. rewrite split_size_any.
  destruct (half_up_bounds n) as [L U].
  destruct (Nat.eq_dec n 0) as [E0|E0].
  - rewrite E0. reflexivity.
  - assert (H2 : 2 <= n) by (unfold n in *; lia).
    replace (((n + 1) / 2 =? 0) && (n =? 0)) with false
      by (symmetry; apply andb_false_intro2, Nat.eqb_neq; exact E0).
    rewrite num_splits_any by exact H2.
    cbn [Nat.max seq map]. rewrite Nat.mul_0_l, Nat.mul_1_l, Nat.sub_0_r.
    f_equal; [f_equal; lia | f_equal; f_equal; lia].
Qed.

Lemma chunk_one {A : Type} (x : tensor4 A) axis :
  size (tshape x) axis = 1 -> chunk x 2 axis = [narrow axis 0 1 x].
Proof. intros Hn. unfold chunk. rewrite Hn. reflexivity. Qed.

Lemma zip_with_app_map {B : Type} (f g : list B -> list B) (l : list (list B)) :
  zip_with (@app B) (map f l) (map g l) = map (fun a => f a ++ g a) l.
Proof. apply zip_with_map_same. Qed.

Lemma cat_data_along {A : Type} (d : list (list (list (list A)))) axis
  (f g : forall B : Type, list B -> list B) :
  axis <= 3 ->
  cat_data axis (along axis f d) (along axis g d)
  = along axis (fun B l => f B l ++ g B l) d.
Proof.
  intros Hax.
  destruct axis as [|[|[|[|axis]]]]; [| | | | lia]; cbn [cat_data along].
  - reflexivity.
  - now rewrite zip_with_map_same.
  - rewrite zip_with_map_same. apply map_ext. intros a.
    now rewrite zip_with_map_same.
  - rewrite zip_with_map_same. apply map_ext. intros a.
    rewrite zip_with_map_same. apply map_ext. intros b.
    now rewrite zip_with_map_same.
Qed.

Lemma size_set_other s axis n : size (set_size s axis n) axis = n.
Proof. apply fft_facts.size_set_size. Qed.

(** [batch_flip_halves] on an axis of length 1. *)
Lemma flip_one {A : Type} (x : tensor4 A) axis :
  size (tshape x) axis = 1 -> batch_flip_halves x axis = Err IndexError.
Proof.
  intros Hn. unfold batch_flip_halves.
  destruct (3 <? axis); [reflexivity|].
  rewrite (chunk_one x axis Hn). reflexivity.
Qed.

(** [batch_flip_halves] on an axis of any other length. *)
Lemma flip_any {A : Type} (x : tensor4 A) axis :
  axis <= 3 -> size (tshape x) axis <> 1 ->
  batch_flip_halves x axis
  = Ok (mkTensor (tshape x)
          (along axis (fun B => @flip_list (size (tshape x) axis) B)
                 (tdata x))).
Proof.
  intros Hax Hn. unfold batch_flip_halves.
  replace (3 <? axis) with false by (symmetry; apply Nat.ltb_ge; lia).
  rewrite (chunk_any x axis Hn).
  set (n := size (tshape x) axis).
  cbn [nth_error]. unfold cat, narrow. cbn [tshape tdata].
  rewrite !fft_facts.set_size_twice, fft_facts.shape_eqb_refl.
  rewrite !fft_facts.size_set_size.
  destruct (half_up_bounds n) as [L U].
  replace (n - (n + 1) / 2 + (n + 1) / 2) with n by lia.
  unfold n at 1. rewrite fft_facts.set_size_same.
  now rewrite cat_data_along.
Qed.

Lemma slice_map {B D : Type} (f : B -> D) s n (l : list B) :
  slice s n (map f l) = map f (slice s n l).
Proof. unfold slice. now rewrite skipn_map, firstn_map. Qed.

Lemma flip_list_map {B D : Type} (f : B -> D) n (l : list B) :
  flip_list n (map f l) = map f (flip_list n l).
Proof. unfold flip_list. now rewrite !slice_map, map_app. Qed.

(** On a list of the length of the axis the flip is numpy's [fftshift]. *)
Lemma flip_list_fftshift1 {B : Type} (l : list B) :
  flip_list (length l) l = fftshift1 l.
Proof.
  unfold flip_list, fftshift1, rotl, slice. cbn [skipn].
  f_equal. apply firstn_all2. rewrite length_skipn. lia.
Qed.

Lemma flip_list_length {B : Type} n (l : list B) :
  length l = n -> length (flip_list n l) = n.
Proof.
  intros <-. rewrite flip_list_fftshift1. apply rotl_length.
Qed.

End fft_more.

(** X1: [batch_flip_halves] on an axis of length [n] of a 4-axis tensor
    raises [IndexError] exactly when [n = 1] (or the axis does not exist);
    otherwise it keeps the shape and moves the last [n - ceil(n/2)]
    entries along the axis in front of the first [ceil(n/2)]. *)
Theorem batch_flip_halves_spec {A : Type} (x : fft.tensor4 A) (axis : nat) :
  let n := fft.size (fft.tshape x) axis in
  (3 < axis \/ n = 1 -> fft.batch_flip_halves x axis = Err IndexError) /\
  (axis <= 3 /\ n <> 1 ->
   fft.batch_flip_halves x axis
   = Ok (fft.mkTensor (fft.tshape x)
           (fft.along axis (fun B => @flip_list n B) (fft.tdata x)))).
Proof.
  intros n. split.
  - intros [Hax | Hn].
    + unfold fft.batch_flip_halves.
      replace (3 <? axis) with true by (symmetry; apply Nat.ltb_lt; lia).
      reflexivity.
    + now apply fft_more.flip_one.
  - intros [Hax Hn]. now apply fft_more.flip_any.
Qed.

(** X2: [batch_ifftshift2d] is the same function as [batch_fftshift2d]:
    on every tensor the two return the same tensor or raise the same
    exception, since the flips of the two axes commute. *)
Theorem batch_ifftshift2d_same {A : Type} (x : fft.tensor4 A) :
  fft.batch_ifftshift2d x = fft.batch_fftshift2d x.
Proof.
  unfold fft.batch_ifftshift2d, fft.batch_fftshift2d.
  destruct (assert (fft.size (fft.tshape x) 3 =? 2) fft.shape_msg) as [u|e];
    [|reflexivity].
  cbn [bind].
  destruct (Nat.eq_dec (fft.size (fft.tshape x) 1) 1) as [H1|H1];
    destruct (Nat.eq_dec (fft.size (fft.tshape x) 2) 1) as [H2|H2].
  - now rewrite (fft_more.flip_one x 1 H1), (fft_more.flip_one x 2 H2).
  - rewrite (fft_more.flip_one x 1 H1).
    rewrite (fft_more.flip_any x 2) by (lia || exact H2). cbn [bind].
    now rewrite fft_more.flip_one.
  - rewrite (fft_more.flip_one x 2 H2).
    rewrite (fft_more.flip_any x 1) by (lia || exact H1). cbn [bind].
    now rewrite fft_more.flip_one.
  - rewrite (fft_more.flip_any x 2) by (lia || exact H2).
    rewrite (fft_more.flip_any x 1) by (lia || exact H1). cbn [bind].
    rewrite !fft_more.flip_any by (cbn [fft.tshape]; lia || assumption).
    cbn [bind fft.tshape fft.tdata fft.along]. do 2 f_equal.
    rewrite !map_map. apply map_ext. intros a.
    apply fft_more.flip_list_map.
Qed.

Lemma map_ext_Forall {B D : Type} (f g : B -> D) (P : B -> Prop) l :
  (forall b, P b -> f b = g b) -> Forall P l -> map f l = map g l.
Proof.
  intros H F. induction F as [|b l Hb _ IH]; simpl;
    [reflexivity | now rewrite H, IH].
Qed.

Lemma rotl_rotl_app {B : Type} (a : nat) (l1 l2 : list B) :
  length l2 <= a -> a <= length l1 + length l2 ->
  rotl a (l2 ++ l1) = rotl (a - length l2) (l1 ++ l2).
Proof.
  intros Ha Hal. unfold rotl.
  rewrite (skipn_app a), (firstn_app a).
  rewrite (skipn_all2 l2), (firstn_all2 l2) by lia.
  rewrite (skipn_app (a - length l2)), (firstn_app (a - length l2)).
  replace (a - length l2 - length l1) with 0 by lia.
  cbn [skipn firstn app]. now rewrite app_nil_r, <- !app_assoc.
Qed.

Lemma rotl_rotl {B : Type} (a b : nat) (l : list B) :
  b <= length l -> length l - b <= a -> a <= length l ->
  rotl a (rotl b l) = rotl (a + b - length l) l.
Proof.
  intros Hb Ha Hal.
  assert (E1 : length (firstn b l) = b) by (rewrite length_firstn; lia).
  assert (E2 : length (skipn b l) = length l - b) by apply length_skipn.
  unfold rotl at 2. rewrite rotl_rotl_app by lia.
  rewrite firstn_skipn, E2. f_equal. lia.
Qed.

Lemma fftshift1_map {B D : Type} (f : B -> D) (l : list B) :
  fftshift1 (map f l) = map f (fftshift1 l).
Proof.
  unfold fftshift1, rotl.
  now rewrite length_map, skipn_map, firstn_map, map_app.
Qed.

(** Flipping a list twice rotates it by the parity of its length. *)
Lemma fftshift1_twice {B : Type} (l : list B) :
  fftshift1 (fftshift1 l) = rotl (length l mod 2) l.
Proof.
  unfold fftshift1. rewrite rotl_length.
  destruct (fft_more.half_up_bounds (length l)) as [L U].
  pose proof (Nat.div_mod_eq (length l + 1) 2) as E.
  pose proof (Nat.div_mod_eq (length l) 2) as E'.
  pose proof (Nat.mod_upper_bound (length l) 2 ltac:(lia)) as U'.
  pose proof (Nat.mod_upper_bound (length l + 1) 2 ltac:(lia)) as U2.
  destruct (Nat.eq_dec (length l) 0) as [E0|E0].
  - destruct l; [reflexivity | discriminate E0].
  - rewrite rotl_rotl by lia. f_equal.
    assert (Hm : (length l + 1) mod 2 = 1 - length l mod 2).
    { rewrite Nat.Div0.add_mod by lia.
      destruct (length l mod 2) as [|[|k]] eqn:Ek; [reflexivity | reflexivity | lia]. }
    lia.
Qed.

Lemma wf_lengths {A : Type} (x : fft.tensor4 A) N H W K :
  fft.wf_tensor x -> fft.tshape x = (N, H, W, K) ->
  length (fft.tdata x) = N /\
  Forall (fun a => length a = H /\
            Forall (fun b => length b = W /\
                      Forall (fun c => length c = K) b) a) (fft.tdata x).
Proof.
  intros Hwf Hs. unfold fft.wf_tensor in Hwf. now rewrite Hs in Hwf.
Qed.

(** For a tensor whose entries agree with its shape, the data after
    [batch_fftshift2d]. *)
Lemma fftshift2d_data {A : Type} (x : fft.tensor4 A) N H W :
  fft.wf_tensor x -> fft.tshape x = (N, H, W, 2) -> H <> 1 -> W <> 1 ->
  fft.batch_fftshift2d x
  = Ok (fft.mkTensor (fft.tshape x) (map (@fftshift (list A)) (fft.tdata x))).
Proof.
  intros Hwf Hs H1 W1.
  destruct (wf_lengths x N H W 2 Hwf Hs) as [_ Hd].
  unfold fft.batch_fftshift2d. rewrite Hs. cbn [fft.size Nat.eqb assert bind].
  rewrite (fft_more.flip_any x 1) by (rewrite ?Hs; cbn [fft.size]; lia).
  cbn [bind].
  rewrite fft_more.flip_any by (cbn [fft.tshape]; rewrite ?Hs; cbn [fft.size]; lia).
  cbn [bind fft.tshape fft.tdata fft.along]. rewrite Hs. cbn [fft.size].
  do 2 f_equal. rewrite ?map_map.
  eapply map_ext_Forall; [| exact Hd].
  intros a [La Fa]. cbn beta. unfold fftshift.
  rewrite <- La, fft_more.flip_list_fftshift1.
  eapply map_ext_Forall; [| apply Forall_rotl; exact Fa].
  intros b [Lb _]. cbn beta. now rewrite <- Lb, fft_more.flip_list_fftshift1.
Qed.

Lemma wf_fftshift_data {A : Type} (d : list (list (list (list A)))) N H W K :
  length d = N ->
  Forall (fun a => length a = H /\
            Forall (fun b => length b = W /\
                      Forall (fun c => length c = K) b) a) d ->
  fft.wf_tensor (fft.mkTensor (N, H, W, K) (map (@fftshift (list A)) d)).
Proof.
  intros Ld Fd. unfold fft.wf_tensor. cbn [fft.tshape fft.tdata].
  split; [now rewrite length_map|].
  apply Forall_map. eapply Forall_impl; [| exact Fd].
  intros a [La Fa]. unfold fftshift, fftshift1. split.
  - now rewrite length_map, rotl_length.
  - apply Forall_map, Forall_rotl. eapply Forall_impl; [| exact Fa].
    intros b [Lb Fb]. split; [now rewrite rotl_length|].
    now apply Forall_rotl.
Qed.

(** X3: on a tensor of shape [N,H,W,2] with [H] and [W] other than 1,
    [batch_fftshift2d] returns the tensor of the same shape whose every
    batch element is numpy's [fftshift] of the element over its first two
    axes, for even and for odd extents. *)
Theorem batch_fftshift2d_is_fftshift {A : Type} (x : fft.tensor4 A)
  (N H W : nat) :
  fft.wf_tensor x -> fft.tshape x = (N, H, W, 2) -> H <> 1 -> W <> 1 ->
  exists y,
    fft.batch_fftshift2d x = Ok y /\
    fft.tshape y = (N, H, W, 2) /\
    fft.tdata y = map (@fftshift (list A)) (fft.tdata x) /\
    fft.wf_tensor y.
Proof.
  intros Hwf Hs H1 W1.
  destruct (wf_lengths x N H W 2 Hwf Hs) as [Ld Fd].
  eexists. split; [exact (fftshift2d_data x N H W Hwf Hs H1 W1)|].
  cbn [fft.tshape fft.tdata]. split; [exact Hs|]. split; [reflexivity|].
  rewrite Hs. now apply wf_fftshift_data.
Qed.

Lemma batch_fftshift2d_is_fftshift_witness :
  exists y,
    fft.batch_fftshift2d odd_tensor = Ok y /\
    fft.tshape y = (1, 3, 2, 2) /\
    fft.tdata y = map (@fftshift (list nat)) (fft.tdata odd_tensor) /\
    fft.wf_tensor y.
Proof.
  apply (batch_fftshift2d_is_fftshift odd_tensor 1 3 2).
  - unfold fft.wf_tensor, odd_tensor; simpl.
    repeat (constructor; simpl; auto).
  - reflexivity.
  - lia.
  - lia.
Defined.

(** X4: [batch_fftshift2d] returns a tensor exactly when the last axis has
    length 2 and neither [H] nor [W] is 1; a last axis of another length
    raises the [AssertionError], and otherwise an axis of length 1 raises
    [IndexError]. *)
Theorem batch_fftshift2d_outcome {A : Type} (x : fft.tensor4 A) :
  let K := fft.size (fft.tshape x) 3 in
  let H := fft.size (fft.tshape x) 1 in
  let W := fft.size (fft.tshape x) 2 in
  (K <> 2 ->
   fft.batch_fftshift2d x = Err (AssertionError fft.shape_msg)) /\
  (K = 2 -> H = 1 \/ W = 1 -> fft.batch_fftshift2d x = Err IndexError) /\
  (K = 2 -> H <> 1 -> W <> 1 ->
   exists y, fft.batch_fftshift2d x = Ok y /\ fft.tshape y = fft.tshape x).
Proof.
  intros K H W. unfold fft.batch_fftshift2d. fold K. repeat split.
  - intros HK. replace (K =? 2) with false
      by (symmetry; apply Nat.eqb_neq; exact HK). reflexivity.
  - intros HK HHW. rewrite HK. cbn [Nat.eqb assert bind].
    destruct (Nat.eq_dec H 1) as [H1|H1].
    + now rewrite (fft_more.flip_one x 1 H1).
    + rewrite (fft_more.flip_any x 1) by (lia || exact H1). cbn [bind].
      rewrite fft_more.flip_one; [reflexivity|].
      cbn [fft.tshape]. fold W. destruct HHW; [contradiction | assumption].
  - intros HK H1 W1. rewrite HK. cbn [Nat.eqb assert bind].
    rewrite (fft_more.flip_any x 1) by (lia || exact H1). cbn [bind].
    rewrite fft_more.flip_any by (cbn [fft.tshape]; lia || exact W1).
    cbn [bind]. eexists. split; reflexivity.
Qed.

(** X5: on a tensor of shape [N,H,W,2] with [H] and [W] other than 1,
    [batch_fftshift2d] followed by [batch_ifftshift2d] rotates every axis
    of odd length by one position and leaves the axes of even length as
    they were; it is the identity only when both extents are even. *)
Theorem batch_shift_roundtrip_rotates {A : Type} (x : fft.tensor4 A)
  (N H W : nat) :
  fft.wf_tensor x -> fft.tshape x = (N, H, W, 2) -> H <> 1 -> W <> 1 ->
  bind (fft.batch_fftshift2d x) fft.batch_ifftshift2d
  = Ok (fft.mkTensor (fft.tshape x)
          (map (fun b => map (rotl (W mod 2)) (rotl (H mod 2) b))
               (fft.tdata x))).
Proof.
  intros Hwf Hs H1 W1.
  destruct (wf_lengths x N H W 2 Hwf Hs) as [Ld Fd].
  rewrite (fftshift2d_data x N H W Hwf Hs H1 W1). cbn [bind].
  rewrite Hs.
  assert (Hwf' : fft.wf_tensor
                   (fft.mkTensor (N, H, W, 2)
                      (map (@fftshift (list A)) (fft.tdata x))))
    by now apply wf_fftshift_data.
  assert (Hs' : fft.tshape (fft.mkTensor (N, H, W, 2)
                   (map (@fftshift (list A)) (fft.tdata x))) = (N, H, W, 2))
    by reflexivity.
  etransitivity.
  { refine (eq_trans _ (fftshift2d_data _ N H W Hwf' Hs' H1 W1)).
    unfold fft.batch_ifftshift2d, fft.batch_fftshift2d.
    cbn [fft.tshape fft.size Nat.eqb assert bind].
    rewrite (fft_more.flip_any _ 2) by (cbn [fft.tshape fft.size]; lia).
    rewrite (fft_more.flip_any _ 1) by (cbn [fft.tshape fft.size]; lia).
    cbn [bind].
    rewrite !fft_more.flip_any by (cbn [fft.tshape fft.size]; lia).
    cbn [bind fft.tshape fft.tdata fft.along fft.size]. do 2 f_equal.
    rewrite !map_map. apply map_ext. intros a.
    apply fft_more.flip_list_map. }
  cbn [fft.tshape fft.tdata]. do 2 f_equal.
  rewrite map_map. eapply map_ext_Forall; [| exact Fd].
  intros a [La Fa]. cbn beta. unfold fftshift.
  rewrite fftshift1_map, map_map, fftshift1_twice, La.
  eapply map_ext_Forall; [| apply Forall_rotl; exact Fa].
  intros b [Lb _]. cbn beta. now rewrite fftshift1_twice, Lb.
Qed.

Lemma batch_shift_roundtrip_rotates_witness :
  bind (fft.batch_fftshift2d odd_tensor) fft.batch_ifftshift2d
  = Ok (fft.mkTensor (1, 3, 2, 2)
          (map (fun b => map (rotl (2 mod 2)) (rotl (3 mod 2) b))
               (fft.tdata odd_tensor))).
Proof.
  apply (batch_shift_roundtrip_rotates odd_tensor 1 3 2).
  - unfold fft.wf_tensor, odd_tensor; simpl.
    repeat (constructor; simpl; auto).
  - reflexivity.
  - lia.
  - lia.
Defined.

(** ** The crop window and the placement of the low-pass spectrum *)

Lemma nth_error_slice {A : Type} s n (l : list A) i :
  i < n -> nth_error (slice s n l) i = nth_error l (s + i).
Proof.
  intros H. unfold slice. rewrite nth_error_firstn, nth_error_skipn.
  now replace (i <? n) with true by (symmetry; apply Nat.ltb_lt; lia).
Qed.

Lemma next_dim_half_le (d : nat) : next_dim d / 2 <= d / 2.
Proof.
  apply Nat.Div0.div_le_mono. unfold next_dim.
  pose proof (Nat.div_mod_eq (d + 1) 2) as E.
  pose proof (Nat.mod_upper_bound (d + 1) 2 ltac:(lia)) as U. lia.
Qed.

Lemma window_start_eq (d : nat) :
  Z.to_nat (low_ind_start d) = window_start d.
Proof.
  apply Nat2Z.inj. destruct (window_bounds d) as (H0 & _).
  rewrite Z2Nat.id by exact H0. unfold window_start.
  rewrite Nat2Z.inj_sub by apply next_dim_half_le.
  rewrite !Nat2Z.inj_div, next_dim_Z, low_ind_start_eq. reflexivity.
Qed.

Lemma py_slice_window {A : Type} (d : nat) (l : list A) :
  length l = d ->
  py_slice (low_ind_start d) (low_ind_end d) l
  = slice (window_start d) (next_dim d) l.
Proof.
  intros Hl. destruct (norm_index_window d) as (E0 & E1 & E2 & _).
  unfold py_slice. rewrite Hl, E0, E1, E2. now rewrite window_start_eq.
Qed.

Lemma window_fits (d : nat) : window_start d + next_dim d <= d.
Proof.
  destruct (norm_index_window d) as (_ & _ & _ & E).
  now rewrite window_start_eq in E.
Qed.

Lemma sample_crop_window {A : Type} h w (a : array A) i j :
  rect h w a -> i < next_dim h -> j < next_dim w ->
  sample (crop_window (h, w) a) i j
  = sample a (window_start h + i) (window_start w + j).
Proof.
  intros [La Fa] Hi Hj. unfold sample, crop_window, crop. cbn [fst snd].
  rewrite nth_error_map, (py_slice_window h a La), nth_error_slice by exact Hi.
  destruct (nth_error a (window_start h + i)) as [r|] eqn:Er;
    [|reflexivity].
  cbn [option_map].
  assert (Lr : length r = w).
  { apply nth_error_In in Er. rewrite Forall_forall in Fa. now apply Fa. }
  now rewrite (py_slice_window w r Lr), nth_error_slice by exact Hj.
Qed.

(** X6: the crop of [_build_levels] keeps the samples of a window of
    [ceil(d/2)] consecutive indices per axis, starting at
    [floor(d/2) - floor(ceil(d/2)/2)], and the centre sample
    [(floor(h/2), floor(w/2))] of the shifted spectrum, its zero-frequency
    term, is again the centre sample of the crop. *)
Theorem crop_window_keeps_centre {A : Type} (h w : nat) (a : array A) :
  rect h w a -> 0 < h -> 0 < w ->
  (forall i j, i < next_dim h -> j < next_dim w ->
     sample (crop_window (h, w) a) i j
     = sample a (window_start h + i) (window_start w + j)) /\
  sample (crop_window (h, w) a) (next_dim h / 2) (next_dim w / 2)
  = sample a (h / 2) (w / 2).
Proof.
  intros Ra Hh Hw. split.
  - intros i j Hi Hj. now apply sample_crop_window.
  - pose proof (next_dim_pos h Hh) as Ph.
    pose proof (next_dim_pos w Hw) as Pw.
    rewrite (sample_crop_window h w a _ _ Ra)
      by (apply Nat.Div0.div_lt_upper_bound; lia).
    unfold window_start.
    pose proof (next_dim_half_le h). pose proof (next_dim_half_le w).
    f_equal; lia.
Qed.

Lemma crop_window_keeps_centre_witness :
  (forall i j, i < next_dim 5 -> j < next_dim 4 ->
     sample (crop_window (5, 4) (ramp 5 4)) i j
     = sample (ramp 5 4) (window_start 5 + i) (window_start 4 + j)) /\
  sample (crop_window (5, 4) (ramp 5 4)) (next_dim 5 / 2) (next_dim 4 / 2)
  = sample (ramp 5 4) (5 / 2) (4 / 2).
Proof.
  apply (crop_window_keeps_centre 5 4 (ramp 5 4)).
  - unfold rect, ramp; simpl. repeat (constructor; simpl; auto).
  - lia.
  - lia.
Defined.

Lemma slice_app_mid {A : Type} (l1 m l2 : list A) n k :
  length l1 = n -> length m = k -> slice n k (l1 ++ m ++ l2) = m.
Proof.
  intros <- <-. unfold slice.
  rewrite skipn_app, skipn_all, Nat.sub_diag. cbn [skipn app].
  rewrite firstn_app, firstn_all, Nat.sub_diag. cbn [firstn].
  apply app_nil_r.
Qed.

Lemma crop_rows_of_spliced {A : Type} w (v l : list (list A)) :
  Forall (fun r => length r = next_dim w) v ->
  Forall (fun r => length r = w) l ->
  length v = length l ->
  map (py_slice (low_ind_start w) (low_ind_end w))
      (zip_with (fun vr ar => splice (window_start w) vr ar) v l) = v.
Proof.
  intros Fv. revert l.
  induction Fv as [|vr v Hvr _ IH]; intros l Fl Hl; [reflexivity|].
  destruct Fl as [|ar l Har Fl]; [discriminate Hl|].
  cbn [zip_with map]. f_equal; [|apply IH; [exact Fl | now inversion Hl]].
  pose proof (window_fits w) as Hfit.
  rewrite py_slice_window by (rewrite splice_length; lia).
  unfold splice. apply slice_app_mid; [|exact Hvr].
  rewrite length_firstn. lia.
Qed.

Lemma nth_error_splice_outside {A : Type} s (v l : list A) j :
  s + length v <= length l -> j < s \/ s + length v <= j ->
  nth_error (splice s v l) j = nth_error l j.
Proof.
  intros Hfit Hj. unfold splice. destruct Hj as [Hj|Hj].
  - rewrite nth_error_app1 by (rewrite length_firstn; lia).
    rewrite nth_error_firstn.
    now replace (j <? s) with true by (symmetry; apply Nat.ltb_lt; lia).
  - rewrite nth_error_app2 by (rewrite length_firstn; lia).
    rewrite nth_error_app2 by (rewrite length_firstn; lia).
    rewrite nth_error_skipn, length_firstn. f_equal. lia.
Qed.

(** The array after [a[s0:e0, s1:e1] = v] for the crop window of the
    shape of [a]. *)
Lemma assign_block_window {A : Type} h w (v a : array A) :
  0 < h -> 0 < w ->
  rect (next_dim h) (next_dim w) v -> rect h w a ->
  assign_block (low_ind_start h) (low_ind_end h)
               (low_ind_start w) (low_ind_end w) v a
  = Ok (firstn (window_start h) a ++
        zip_with (fun vr ar => splice (window_start w) vr ar) v
                 (slice (window_start h) (next_dim h) a) ++
        skipn (window_start h + next_dim h) a).
Proof.
  intros Hh Hw Rv Ra.
  destruct (norm_index_window h) as (Eh0 & Eh1 & Eh2 & Eh3).
  destruct (norm_index_window w) as (Ew0 & Ew1 & Ew2 & Ew3).
  unfold assign_block.
  rewrite (rect_shape h w a Ra Hh).
  rewrite (rect_shape _ _ v Rv (next_dim_pos h Hh)).
  cbn [fst snd]. rewrite Eh0, Eh1, Ew0, Ew1, Eh2, Ew2.
  rewrite !Nat.eqb_refl. cbn [orb andb].
  rewrite (broadcast_to_rect _ _ v Rv).
  now rewrite !window_start_eq.
Qed.

(** X7: the placement of [_reconstruct_levels] undoes the crop of
    [_build_levels]: writing a block of the cropped shape into the
    window of an array of the full shape succeeds, cropping the result
    gives the block back, and outside the window the array keeps its
    samples (the zeros of [np.zeros(dims)] in the source). *)
Theorem crop_of_placement {A : Type} (h w : nat) (v a : array A) :
  0 < h -> 0 < w ->
  rect (next_dim h) (next_dim w) v -> rect h w a ->
  exists r,
    assign_block (low_ind_start h) (low_ind_end h)
                 (low_ind_start w) (low_ind_end w) v a = Ok r /\
    rect h w r /\
    crop_window (h, w) r = v /\
    (forall i j, ~ (in_window h i /\ in_window w j) ->
       sample r i j = sample a i j).
Proof.
  intros Hh Hw Rv Ra.
  destruct (assign_block_rect h w v a Hh Hw Rv Ra) as (r & Hr & Rr).
  exists r. split; [exact Hr|]. split; [exact Rr|].
  rewrite (assign_block_window h w v a Hh Hw Rv Ra) in Hr.
  injection Hr as Hr.
  pose proof (window_fits h) as Fh. pose proof (window_fits w) as Fw.
  destruct Ra as [La Fa]. destruct Rv as [Lv Fv].
  assert (Lf : length (firstn (window_start h) a) = window_start h)
    by (rewrite length_firstn; lia).
  assert (Ls : length (slice (window_start h) (next_dim h) a) = next_dim h)
    by (apply slice_length; lia).
  assert (Fs : Forall (fun r => length r = w)
                 (slice (window_start h) (next_dim h) a))
    by now apply Forall_slice.
  set (mid := zip_with (fun vr ar => splice (window_start w) vr ar) v
                (slice (window_start h) (next_dim h) a)) in *.
  assert (Lm : length mid = next_dim h)
    by (unfold mid; rewrite zip_with_length; lia).
  split.
  - unfold crop_window, crop. cbn [fst snd].
    rewrite (py_slice_window h r) by apply Rr.
    rewrite <- Hr, (slice_app_mid _ mid _ _ _ Lf Lm).
    apply crop_rows_of_spliced; [exact Fv | exact Fs | lia].
  - intros i j Hout. unfold sample. rewrite <- Hr.
    destruct (Nat.lt_ge_cases i (window_start h)) as [Hi|Hi].
    { rewrite nth_error_app1 by lia. rewrite nth_error_firstn.
      now replace (i <? window_start h) with true
        by (symmetry; apply Nat.ltb_lt; lia). }
    rewrite nth_error_app2 by lia. rewrite Lf.
    destruct (Nat.lt_ge_cases i (window_start h + next_dim h)) as [Hi'|Hi'].
    + rewrite nth_error_app1 by lia. unfold mid.
      rewrite nth_error_zip_with, nth_error_slice by lia.
      replace (window_start h + (i - window_start h)) with i by lia.
      destruct (nth_error v (i - window_start h)) as [vr|] eqn:Ev.
      2:{ apply nth_error_None in Ev. lia. }
      destruct (nth_error a i) as [ar|] eqn:Ea; [|reflexivity].
      assert (Lvr : length vr = next_dim w).
      { apply nth_error_In in Ev. rewrite Forall_forall in Fv.
        now apply Fv. }
      assert (Lar : length ar = w).
      { apply nth_error_In in Ea. rewrite Forall_forall in Fa.
        now apply Fa. }
      apply nth_error_splice_outside; [lia|].
      rewrite Lvr. unfold in_window in Hout. lia.
    + rewrite nth_error_app2 by lia. rewrite Lm, nth_error_skipn.
      now replace (window_start h + next_dim h
                   + (i - window_start h - next_dim h)) with i by lia.
Qed.

Lemma crop_of_placement_witness :
  exists r,
    assign_block (low_ind_start 5) (low_ind_end 5)
                 (low_ind_start 4) (low_ind_end 4)
                 (ramp 3 2) (zeros 0 (5, 4)) = Ok r /\
    rect 5 4 r /\
    crop_window (5, 4) r = ramp 3 2 /\
    (forall i j, ~ (in_window 5 i /\ in_window 4 j) ->
       sample r i j = sample (zeros 0 (5, 4)) i j).
Proof.
  apply (crop_of_placement 5 4 (ramp 3 2) (zeros 0 (5, 4))).
  - lia.
  - lia.
  - unfold rect, ramp; simpl. repeat (constructor; simpl; auto).
  - unfold rect, zeros; simpl. repeat (constructor; simpl; auto).
Defined.

(** ** The container [ComplexSteerablePyramid] *)

Lemma setitem_in_range {A : Type} (l : list A) (i : nat) (x : A) :
  i < length l -> setitem l i x = Ok (firstn i l ++ x :: skipn (S i) l).
Proof.
  revert i. induction l as [|a l IH]; intros [|i] Hi; simpl in Hi;
    try lia; [reflexivity|].
  cbn [setitem]. rewrite IH by lia. reflexivity.
Qed.

Lemma setitem_out_of_range {A : Type} (l : list A) (i : nat) (x : A) :
  length l <= i -> setitem l i x = Err IndexError.
Proof.
  revert i. induction l as [|a l IH]; intros i Hi; [reflexivity|].
  destruct i as [|i]; simpl in Hi; [lia|].
  cbn [setitem]. rewrite IH by lia. reflexivity.
Qed.

Lemma nth_error_updated {A : Type} (l : list A) (i k : nat) (x : A) :
  i < length l ->
  nth_error (firstn i l ++ x :: skipn (S i) l) k
  = if k =? i then Some x else nth_error l k.
Proof.
  intros Hi.
  assert (Lf : length (firstn i l) = i) by (rewrite length_firstn; lia).
  destruct (Nat.eqb_spec k i) as [->|Hk].
  - rewrite nth_error_app2 by lia. now rewrite Lf, Nat.sub_diag.
  - destruct (Nat.lt_ge_cases k i) as [Hlt|Hge].
    + rewrite nth_error_app1 by lia. rewrite nth_error_firstn.
      now replace (k <? i) with true by (symmetry; apply Nat.ltb_lt; lia).
    + rewrite nth_error_app2 by lia. rewrite Lf.
      destruct (k - i) as [|m] eqn:Em; [lia|].
      cbn [nth_error]. rewrite nth_error_skipn.
      now replace (S i + m) with k by lia.
Qed.

Lemma index_out_of_range {A : Type} (l : list A) (i : nat) :
  length l <= i -> index l i = Err IndexError.
Proof.
  intros H. unfold index. apply nth_error_None in H. now rewrite H.
Qed.

(** X8: [set_level] on a level below the length of the container returns
    a container of the same height, number of bands and length, in which
    [get_level] gives the new entry at that level and the old entry at
    every other level; at a level from the length on it raises
    [IndexError] and nothing is stored. *)
Theorem set_level_get_level (p : NumPy.ComplexSteerablePyramid)
  (lvl : nat) (c : NumPy.level) :
  (lvl < length (NumPy._coeff p) ->
   exists p',
     NumPy.set_level p lvl c = Ok p' /\
     NumPy.get_level p' lvl = Ok (Some c) /\
     (forall k, k <> lvl -> NumPy.get_level p' k = NumPy.get_level p k) /\
     NumPy._height p' = NumPy._height p /\
     NumPy._nbands p' = NumPy._nbands p /\
     length (NumPy._coeff p') = length (NumPy._coeff p)) /\
  (length (NumPy._coeff p) <= lvl ->
   NumPy.set_level p lvl c = Err IndexError /\
   NumPy.get_level p lvl = Err IndexError).
Proof.
  split.
  - intros Hl. eexists. unfold NumPy.set_level.
    rewrite setitem_in_range by exact Hl. cbn [bind].
    split; [reflexivity|].
    unfold NumPy.get_level, index. cbn [NumPy._coeff NumPy._height
                                          NumPy._nbands].
    split; [|split; [|split; [reflexivity | split; [reflexivity|]]]].
    + now rewrite nth_error_updated, Nat.eqb_refl by exact Hl.
    + intros k Hk. rewrite nth_error_updated by exact Hl.
      now replace (k =? lvl) with false
        by (symmetry; apply Nat.eqb_neq; exact Hk).
    + rewrite length_app, length_firstn. cbn [length].
      rewrite length_skipn. lia.
  - intros Hl. split.
    + unfold NumPy.set_level. now rewrite setitem_out_of_range by exact Hl.
    + unfold NumPy.get_level. now apply index_out_of_range.
Qed.

(** X9: a container fresh from [__init__] has [max(height, 0)] levels,
    all [None]: [get_level] returns [None] below that length and raises
    [IndexError] from it on, and [level_size] raises at every level,
    [AttributeError] at level 0 and [TypeError] at the others that
    exist. *)
Theorem init_levels (height nbands : Z) (k : nat) :
  let p := NumPy.init height nbands in
  length (NumPy._coeff p) = Z.to_nat height /\
  (k < Z.to_nat height ->
   NumPy.get_level p k = Ok None /\
   NumPy.level_size p k
   = Err (if k =? 0 then AttributeError else TypeError)) /\
  (Z.to_nat height <= k ->
   NumPy.get_level p k = Err IndexError /\
   NumPy.level_size p k = Err IndexError).
Proof.
  intros p. unfold p, NumPy.init. cbn [NumPy._coeff].
  split; [apply repeat_length|]. split.
  - intros Hk.
    assert (E : index (repeat (@None NumPy.level) (Z.to_nat height)) k
                = Ok None)
      by (unfold index; now rewrite nth_error_repeat by exact Hk).
    split; [exact E|].
    unfold NumPy.level_size. cbn [NumPy._coeff NumPy._nbands].
    rewrite E. cbn [bind NumPy.shape_attr NumPy.item0_shape].
    destruct (k =? 0); [reflexivity|].
    now destruct (Z.of_nat k =? nbands)%Z.
  - intros Hk.
    assert (E : index (repeat (@None NumPy.level) (Z.to_nat height)) k
                = Err IndexError)
      by (apply index_out_of_range; now rewrite repeat_length).
    split; [exact E|].
    unfold NumPy.level_size. cbn [NumPy._coeff NumPy._nbands].
    rewrite E. cbn [bind].
    destruct (k =? 0); [reflexivity|].
    now destruct (Z.of_nat k =? nbands)%Z.
Qed.

Lemma iter_next_dim_pos j d : 0 < d -> 0 < Nat.iter j next_dim d.
Proof.
  intros Hd. induction j as [|j IH]; [exact Hd|].
  rewrite Nat.iter_succ. now apply next_dim_pos.
Qed.

Lemma level_size_from_one (p : NumPy.ComplexSteerablePyramid) (k : nat) :
  1 <= k ->
  NumPy.level_size p k
  = bind (index (NumPy._coeff p) k) NumPy.item0_shape.
Proof.
  intros Hk. unfold NumPy.level_size.
  replace (k =? 0) with false by (symmetry; apply Nat.eqb_neq; lia).
  now destruct (Z.of_nat k =? NumPy._nbands p)%Z.
Qed.

Lemma item0_shape_real (a : array R) h w :
  rect h w a -> 0 < h -> NumPy.item0_shape (Some (NumPy.Real a)) = Ok [w].
Proof.
  intros [La Fa] Hh. destruct a as [|r a]; [simpl in La; lia|].
  apply Forall_inv in Fa. cbn [NumPy.item0_shape]. now rewrite Fa.
Qed.

Lemma item0_shape_bands (bs : list (array C)) h w :
  Forall (rect h w) bs -> 0 < length bs -> 0 < h ->
  NumPy.item0_shape (Some (NumPy.Bands bs)) = Ok [h; w].
Proof.
  intros Fb Lb Hh. destruct bs as [|b bs]; [simpl in Lb; lia|].
  apply Forall_inv in Fb. cbn [NumPy.item0_shape].
  now rewrite (rect_shape h w b Fb Hh).
Qed.

(** X10: [level_size] on the pyramid that [build] returns: level 0 gives
    the shape of the image; each level [1 .. height-2] gives the 2-D
    shape of its subbands; the low-pass level [height-1] gives a 1-tuple,
    the number of columns of the low-pass array, whatever [nbands] is;
    from [height] on it raises [IndexError]. *)
Theorem level_size_of_build (G : GridMaskGenerator)
  (self : NumPy.SCFpyr_NumPy) (im : array R) (H W : nat) :
  rect H W im ->
  (2 <= NumPy.height self <= Z.log2 (Z.of_nat (Nat.min W H)) - 2)%Z ->
  (1 <= NumPy.nbands self)%Z ->
  let n := Z.to_nat (NumPy.height self) in
  exists t pyr,
    NumPy.build G self im = (t, Ok pyr) /\
    NumPy.level_size pyr 0 = Ok [H; W] /\
    (forall k, 1 <= k <= n - 2 ->
       NumPy.level_size pyr k
       = Ok [fst (level_dims H W k); snd (level_dims H W k)]) /\
    NumPy.level_size pyr (n - 1) = Ok [snd (level_dims H W (n - 1))] /\
    (forall k, n <= k -> NumPy.level_size pyr k = Err IndexError).
Proof.
  intros Him Hh Hnb n.
  assert (Hmin : 0 < Nat.min W H) by (apply log2_pos_arg; lia).
  assert (HH : 0 < H) by lia. assert (HW : 0 < W) by lia.
  destruct (NumPy_build_facts.build_ok G self im H W Him HH HW Hh Hnb)
    as (hi & coeff & Hb & Rhi & Hlv).
  pose proof (NumPy_shape_facts.levels_ok_length _ _ _ _ _ Hlv) as Lc.
  destruct (NumPy_level_facts.levels_ok_nth _ _ _ _ _ Hlv ltac:(lia))
    as (Hmid & lo & Hlo & Rlo).
  eexists _, _. split; [apply io_result; exact Hb|].
  assert (Eidx : forall k, 1 <= k ->
            index (Some (NumPy.Real hi) :: map Some coeff) k
            = match nth_error coeff (k - 1) with
              | Some c => Ok (Some c)
              | None => Err IndexError
              end).
  { intros [|k] Hk; [lia|]. unfold index. cbn [nth_error].
    rewrite nth_error_map. replace (S k - 1) with k by lia.
    now destruct (nth_error coeff k). }
  split; [|split; [|split]].
  - unfold NumPy.level_size, index.
    cbn [Nat.eqb NumPy._coeff nth_error bind NumPy.shape_attr].
    now rewrite (rect_shape H W hi Rhi HH).
  - intros k Hk. rewrite level_size_from_one by lia.
    cbn [NumPy._coeff]. rewrite Eidx by lia.
    destruct (Hmid (k - 1) ltac:(lia)) as (bs & Hn & Lbs & Rbs).
    rewrite Hn. cbn [bind]. rewrite level_dims_iter. cbn [fst snd].
    apply item0_shape_bands; [exact Rbs | lia | now apply iter_next_dim_pos].
  - rewrite level_size_from_one by lia.
    cbn [NumPy._coeff]. rewrite Eidx by lia.
    replace (n - 1 - 1) with (Z.to_nat (NumPy.height self - 1) - 1) by lia.
    rewrite Hlo. cbn [bind]. rewrite level_dims_iter. cbn [snd].
    replace (n - 1 - 1) with (Z.to_nat (NumPy.height self - 1) - 1) by lia.
    eapply item0_shape_real; [exact Rlo | now apply iter_next_dim_pos].
  - intros k Hk. rewrite level_size_from_one by lia.
    cbn [NumPy._coeff]. rewrite Eidx by lia.
    replace (nth_error coeff (k - 1)) with (@None NumPy.level);
      [reflexivity|].
    symmetry. apply nth_error_None. lia.
Qed.

Lemma level_size_of_build_witness :
  exists t pyr,
    NumPy.build flat_utils pyr3 (blank 32 32) = (t, Ok pyr) /\
    NumPy.level_size pyr 0 = Ok [32; 32] /\
    (forall k, 1 <= k <= 3 - 2 ->
       NumPy.level_size pyr k
       = Ok [fst (level_dims 32 32 k); snd (level_dims 32 32 k)]) /\
    NumPy.level_size pyr (3 - 1) = Ok [snd (level_dims 32 32 (3 - 1))] /\
    (forall k, 3 <= k -> NumPy.level_size pyr k = Err IndexError).
Proof.
  apply (level_size_of_build flat_utils pyr3 (blank 32 32) 32 32).
  - apply rect_tabulate.
  - cbn. lia.
  - cbn. lia.
Defined.

(** ** The outcomes and the output of [build] *)

Lemma iobind_print {B : Type} (s : string) (k : unit -> io B) t r :
  k tt = (t, r) -> iobind (print s) k = (s :: t, r).
Proof. intros H. unfold iobind, print. cbn [snd fst app]. now rewrite H. Qed.

Lemma iobind_lift_Ok {A B : Type} {r : result A} {a : A}
  (k : A -> io B) :
  r = Ok a -> iobind (lift r) k = k a.
Proof.
  intros ->. unfold iobind, lift. cbn [snd fst app]. now destruct (k a).
Qed.

Lemma iobind_lift_Err {A B : Type} (r : result A) e (k : A -> io B) :
  r = Err e -> iobind (lift r) k = ([], Err e).
Proof. now intros ->. Qed.

Lemma iobind_run {A B : Type} (m : io A) (k : A -> io B) t a t' r :
  m = (t, Ok a) -> k a = (t', r) -> iobind m k = (t ++ t', r).
Proof. intros -> H. unfold iobind. cbn [snd fst]. now rewrite H. Qed.

Lemma iobind_stop {A B : Type} (m : io A) (k : A -> io B) t e :
  m = (t, Err e) -> iobind m k = (t, Err e).
Proof. now intros ->. Qed.

Module NumPy_trace_facts.
Import NumPy NumPy_shape_facts.

(** The low-pass branch of [_build_levels]. *)
Lemma build_levels_base G self h w lodft log_rad angle Xrcos Yrcos m :
  m <= 1 -> 0 < h -> 0 < w -> rect h w lodft ->
  exists lo,
    _build_levels G self lodft log_rad angle Xrcos Yrcos m
    = (levels_trace h w m, Ok [Real lo]) /\ rect h w lo.
Proof.
  intros Hm Hh Hw Hlo.
  destruct (ifft2_rect h w (ifftshift lodft)) as (lo0 & Hlo0 & Rlo0);
    [assumption | assumption | now apply rect_ifftshift |].
  exists (amap Cre lo0). split; [|now apply rect_amap].
  rewrite NumPy_facts.build_levels_low by exact Hm.
  replace (levels_trace h w m)
    with [rule; "LOW-PASS"%string;
          ("  low-pass band, shape: " ++ str_shape (h, w)
           ++ ", type: float64")%string]
    by (destruct m as [|[|m]]; [reflexivity | reflexivity | lia]).
  apply iobind_print, iobind_print.
  rewrite (iobind_lift_Ok _ Hlo0). cbv beta.
  rewrite (rect_shape h w lo0 Rlo0 Hh). now apply iobind_print.
Qed.

(** One pass of the [else] branch, with what it prints. *)
Lemma build_pass_full G self h w lodft log_rad angle Xrcos Yrcos n :
  (1 <= nbands self)%Z ->
  0 < h -> 0 < w ->
  rect h w lodft -> rect h w log_rad -> rect h w angle ->
  exists bs lodft',
    build_pass G self lodft log_rad angle Xrcos Yrcos n
    = ([("LEVEL " ++ str_nat n)%string; "Lowpass:"%string;
        ("  lodft " ++ str_shape (next_dim h, next_dim w)
         ++ " complex128")%string],
       Ok (bs, mkPassed lodft' (crop_window (h, w) log_rad)
                        (crop_window (h, w) angle)
                        (map (fun x => (x - 1)%R) Xrcos)))
    /\ length bs = Z.to_nat (nbands self)
    /\ Forall (rect h w) bs
    /\ rect (next_dim h) (next_dim w) lodft'.
Proof.
  intros Hnb Hh Hw Hlo Hlr Han.
  destruct (angular_const_ok _ Hnb) as (c & Hc).
  set (Xrcos' := map (fun x => (x - 1)%R) Xrcos).
  set (himask := pointOp G log_rad Yrcos Xrcos').
  destruct (mapM_ok
              (build_band G self lodft angle himask
                 (build_Ycosn c (Z.to_nat (nbands self - 1))))
              (rect h w) (seq 0 (Z.to_nat (nbands self))))
    as (bs & Hbs & Lbs & Rbs).
  { intros b. apply build_band_ok; auto. now apply rect_pointOp. }
  rewrite length_seq in Lbs.
  set (log_rad' := crop_window (h, w) log_rad).
  set (YIrcos := map (fun y => Rabs (sqrt (1 - y ^ 2)))%R Yrcos).
  destruct (ew2_rect (fun (m : R) (z : C) => CmulR z m)
              (next_dim h) (next_dim w)
              (pointOp G log_rad' YIrcos Xrcos')
              (crop_window (h, w) lodft))
    as (lodft' & Hlodft' & Rlodft').
  { now apply next_dim_pos. }
  { apply rect_pointOp. now apply rect_crop_window. }
  { now apply rect_crop_window. }
  exists bs, lodft'. split; [|auto].
  unfold build_pass. apply iobind_print. cbv beta zeta.
  rewrite (iobind_lift_Ok _ Hc). fold Xrcos' himask.
  rewrite (iobind_lift_Ok _ Hbs).
  rewrite (rect_shape h w lodft Hlo Hh). fold log_rad' YIrcos.
  rewrite (iobind_lift_Ok _ Hlodft'). cbv beta.
  rewrite (rect_shape _ _ lodft' Rlodft' (next_dim_pos h Hh)).
  now apply iobind_print, iobind_print.
Qed.

(** [_build_levels] where it succeeds: the list of levels and the lines
    printed. *)
Lemma build_levels_full G self n :
  forall h w lodft log_rad angle Xrcos Yrcos,
    n <= 1 \/ (1 <= nbands self)%Z ->
    0 < h -> 0 < w ->
    rect h w lodft -> rect h w log_rad -> rect h w angle ->
    exists coeff,
      _build_levels G self lodft log_rad angle Xrcos Yrcos n
      = (levels_trace h w n, Ok coeff)
      /\ levels_ok (Z.to_nat (nbands self)) h w n coeff.
Proof.
  assert (Hbase : forall h w lodft log_rad angle Xrcos Yrcos m,
            m <= 1 -> 0 < h -> 0 < w -> rect h w lodft ->
            exists coeff,
              _build_levels G self lodft log_rad angle Xrcos Yrcos m
              = (levels_trace h w m, Ok coeff)
              /\ levels_ok (Z.to_nat (nbands self)) h w m coeff).
  { intros h w lodft log_rad angle Xrcos Yrcos m Hm Hh Hw Hlo.
    destruct (build_levels_base G self h w lodft log_rad angle Xrcos Yrcos
                m Hm Hh Hw Hlo) as (lo & Hb & Rlo).
    exists [Real lo]. split; [exact Hb|].
    destruct m as [|[|m]]; [| | lia]; cbn [levels_ok];
      (eexists; split; [reflexivity | exact Rlo]). }
  induction n as [|n IH];
    intros h w lodft log_rad angle Xrcos Yrcos Hnb Hh Hw Hlo Hlr Han.
  - apply Hbase; auto.
  - destruct n as [|n]; [apply Hbase; auto|].
    assert (Hnb' : (1 <= nbands self)%Z) by lia.
    destruct (build_pass_full G self h w lodft log_rad angle Xrcos Yrcos
                (S (S n)) Hnb' Hh Hw Hlo Hlr Han)
      as (bs & lodft' & Hp & Lbs & Rbs & Rlodft').
    destruct (IH (next_dim h) (next_dim w) lodft'
                 (crop_window (h, w) log_rad) (crop_window (h, w) angle)
                 (map (fun x => (x - 1)%R) Xrcos) Yrcos)
      as (rest & Hrest & Orest).
    { right. exact Hnb'. }
    { now apply next_dim_pos. }
    { now apply next_dim_pos. }
    { exact Rlodft'. }
    { now apply rect_crop_window. }
    { now apply rect_crop_window. }
    exists (Bands bs :: rest). split.
    + rewrite NumPy_facts.build_levels_rec.
      change (levels_trace h w (S (S n)))
        with (rule ::
              ([("LEVEL " ++ str_nat (S (S n)))%string; "Lowpass:"%string;
                ("  lodft " ++ str_shape (next_dim h, next_dim w)
                 ++ " complex128")%string]
               ++ levels_trace (next_dim h) (next_dim w) (S n))).
      apply iobind_print.
      eapply iobind_run; [exact Hp|].
      cbn [fst snd next_lodft next_log_rad next_angle next_Xrcos].
      rewrite <- (app_nil_r (levels_trace _ _ _)).
      eapply iobind_run; [exact Hrest | reflexivity].
    + change (levels_ok (Z.to_nat (nbands self)) h w (S (S n))
                (Bands bs :: rest))
        with (exists bs0 rest0,
                 Bands bs :: rest = Bands bs0 :: rest0 /\
                 length bs0 = Z.to_nat (nbands self) /\
                 Forall (rect h w) bs0 /\
                 levels_ok (Z.to_nat (nbands self)) (next_dim h) (next_dim w)
                   (S n) rest0).
      exists bs, rest. auto.
Qed.

(** [build] up to the conversion to the container: the lines printed and
    the list handed to [set_levels]. *)
Lemma build_until_container G self im H W :
  rect H W im -> 0 < H -> 0 < W ->
  (height self <= Z.log2 (Z.of_nat (Nat.min W H)) - 2)%Z ->
  (height self <= 2 \/ 1 <= nbands self)%Z ->
  exists hi coeff,
    build G self im
    = (levels_trace H W (Z.to_nat (height self - 1)) ++ high_pass_trace H W,
       set_levels (init (height self) (nbands self)) (Real hi :: coeff))
    /\ rect H W hi
    /\ levels_ok (Z.to_nat (nbands self)) H W
                 (Z.to_nat (height self - 1)) coeff.
Proof.
  intros Him HH HW Hh Hnb.
  destruct (fft2_rect H W (amap RtoC im)) as (f & Hf & Rf);
    [assumption | assumption | now apply rect_amap |].
  destruct (rcosFn G 1 (-0.5)) as [Xrcos Yrcos0] eqn:Ercos.
  set (Yrcos := map sqrt Yrcos0).
  set (YIrcos := map (fun y => sqrt (1 - y ^ 2))%R Yrcos).
  set (log_rad := tabulate H W (log_rad_at G H W)).
  set (angle := tabulate H W (angle_at G H W)).
  assert (Rlr : rect H W log_rad) by apply rect_tabulate.
  assert (Ran : rect H W angle) by apply rect_tabulate.
  destruct (ew2_rect CmulR H W (fftshift f) (pointOp G log_rad YIrcos Xrcos))
    as (lo0dft & Hlo0 & Rlo0);
    [assumption | now apply rect_fftshift | now apply rect_pointOp |].
  destruct (ew2_rect CmulR H W (fftshift f) (pointOp G log_rad Yrcos Xrcos))
    as (hi0dft & Hhi0 & Rhi0);
    [assumption | now apply rect_fftshift | now apply rect_pointOp |].
  destruct (ifft2_rect H W (ifftshift hi0dft)) as (hi0 & Hhi & Rhi);
    [assumption | assumption | now apply rect_ifftshift |].
  destruct (build_levels_full G self (Z.to_nat (height self - 1)) H W
              lo0dft log_rad angle Xrcos Yrcos)
    as (coeff & Hcoeff & Ocoeff); try assumption.
  { destruct Hnb as [Hnb|Hnb]; [left; lia | right; exact Hnb]. }
  exists (amap Cre hi0), coeff. split; [| split];
    [| now apply rect_amap | exact Ocoeff].
  unfold build. rewrite (rect_shape H W im Him HH).
  unfold max_height_pyr.
  replace (Nat.min W H =? 0) with false
    by (symmetry; apply Nat.eqb_neq; lia).
  rewrite (iobind_lift_Ok _ eq_refl).
  replace (height self <=? Z.log2 (Z.of_nat (Nat.min W H)) - 2)%Z with true
    by (symmetry; apply Z.leb_le; lia).
  cbn [assert]. rewrite (iobind_lift_Ok _ eq_refl).
  unfold prepare_grid. fold log_rad angle.
  rewrite Ercos. fold Yrcos YIrcos.
  rewrite (iobind_lift_Ok _ Hf). cbv zeta.
  rewrite (iobind_lift_Ok _ Hlo0).
  eapply iobind_run; [exact Hcoeff|].
  rewrite (iobind_lift_Ok _ Hhi0), (iobind_lift_Ok _ Hhi). cbv beta.
  rewrite (rect_shape H W hi0 Rhi HH).
  unfold high_pass_trace.
  now do 4 apply iobind_print.
Qed.

End NumPy_trace_facts.

(** X11: with a configured height of 1 or less that passes the check on
    the height, [build] computes and prints the low-pass and the
    high-pass residual and then raises [IndexError]: the container has
    fewer than the two levels that are stored. *)
Theorem build_height_below_two (G : GridMaskGenerator)
  (self : NumPy.SCFpyr_NumPy) (im : array R) (H W : nat) :
  rect H W im -> 0 < H -> 0 < W ->
  (NumPy.height self <= 1)%Z ->
  (NumPy.height self <= Z.log2 (Z.of_nat (Nat.min W H)) - 2)%Z ->
  NumPy.build G self im
  = (levels_trace H W 0 ++ high_pass_trace H W, Err IndexError).
Proof.
  intros Him HH HW H1 Hmax.
  destruct (NumPy_trace_facts.build_until_container G self im H W
              Him HH HW Hmax ltac:(lia))
    as (hi & coeff & Hb & Rhi & Hlv).
  rewrite Hb.
  assert (E01 : Z.to_nat (NumPy.height self - 1) = 0) by lia.
  rewrite E01 in *. destruct Hlv as (lo & -> & Rlo).
  f_equal. unfold NumPy.set_levels, NumPy.init.
  cbn [length seq combine foldM fst snd].
  assert (Hz : Z.to_nat (NumPy.height self) = 0
               \/ Z.to_nat (NumPy.height self) = 1) by lia.
  destruct Hz as [-> | ->]; reflexivity.
Qed.

Lemma build_height_below_two_witness :
  NumPy.build flat_utils pyr_h1 (blank 8 8)
  = (levels_trace 8 8 0 ++ high_pass_trace 8 8, Err IndexError).
Proof.
  apply (build_height_below_two flat_utils pyr_h1 (blank 8 8) 8 8).
  - apply rect_tabulate.
  - lia.
  - lia.
  - cbn. lia.
  - cbn. lia.
Defined.

(** X12: with a configured height of 2 that passes the check, [build]
    returns a container of two real arrays of the shape of the image,
    the high-pass and the low-pass residual, and no oriented subbands,
    whatever [nbands] is, zero and negative values included. *)
Theorem build_height_two (G : GridMaskGenerator)
  (self : NumPy.SCFpyr_NumPy) (im : array R) (H W : nat) :
  rect H W im -> 0 < H -> 0 < W ->
  NumPy.height self = 2%Z ->
  (2 <= Z.log2 (Z.of_nat (Nat.min W H)) - 2)%Z ->
  exists hi lo,
    NumPy.build G self im
    = (levels_trace H W 1 ++ high_pass_trace H W,
       Ok (NumPy.mkPyramid 2 (NumPy.nbands self)
             [Some (NumPy.Real hi); Some (NumPy.Real lo)])) /\
    rect H W hi /\ rect H W lo.
Proof.
  intros Him HH HW H2 Hmax.
  destruct (NumPy_trace_facts.build_until_container G self im H W
              Him HH HW ltac:(lia) ltac:(lia))
    as (hi & coeff & Hb & Rhi & Hlv).
  rewrite H2 in *. change (Z.to_nat (2 - 1)) with 1 in *.
  destruct Hlv as (lo & -> & Rlo).
  exists hi, lo. split; [|split; assumption].
  rewrite Hb. reflexivity.
Qed.

Lemma build_height_two_witness :
  exists hi lo,
    NumPy.build flat_utils pyr_h2_nb0 (blank 16 16)
    = (levels_trace 16 16 1 ++ high_pass_trace 16 16,
       Ok (NumPy.mkPyramid 2 (NumPy.nbands pyr_h2_nb0)
             [Some (NumPy.Real hi); Some (NumPy.Real lo)])) /\
    rect 16 16 hi /\ rect 16 16 lo.
Proof.
  apply (build_height_two flat_utils pyr_h2_nb0 (blank 16 16) 16 16).
  - apply rect_tabulate.
  - lia.
  - lia.
  - reflexivity.
  - cbn. lia.
Defined.

(** X13: with [nbands <= 0] and a configured height of 3 or more that
    passes the check, [build] raises [ValueError] at the first level,
    after printing the rule and the line of that level: numpy refuses
    the negative integer power in the angular constant. *)
Theorem build_without_bands (G : GridMaskGenerator)
  (self : NumPy.SCFpyr_NumPy) (im : array R) (H W : nat) :
  rect H W im -> 0 < H -> 0 < W ->
  (3 <= NumPy.height self <= Z.log2 (Z.of_nat (Nat.min W H)) - 2)%Z ->
  (NumPy.nbands self <= 0)%Z ->
  NumPy.build G self im
  = ([NumPy.rule;
      ("LEVEL " ++ str_nat (Z.to_nat (NumPy.height self - 1)))%string],
     Err ValueError).
Proof.
  intros Him HH HW Hh Hnb.
  destruct (fft2_rect H W (amap RtoC im)) as (f & Hf & Rf);
    [assumption | assumption | now apply rect_amap |].
  destruct (rcosFn G 1 (-0.5)) as [Xrcos Yrcos0] eqn:Ercos.
  set (log_rad := tabulate H W (log_rad_at G H W)).
  destruct (ew2_rect CmulR H W (fftshift f)
              (pointOp G log_rad
                 (map (fun y => sqrt (1 - y ^ 2))%R (map sqrt Yrcos0)) Xrcos))
    as (lo0dft & Hlo0 & Rlo0);
    [assumption | now apply rect_fftshift
    | apply rect_pointOp, rect_tabulate |].
  unfold NumPy.build. rewrite (rect_shape H W im Him HH).
  unfold NumPy.max_height_pyr.
  replace (Nat.min W H =? 0) with false
    by (symmetry; apply Nat.eqb_neq; lia).
  rewrite (iobind_lift_Ok _ eq_refl).
  replace (NumPy.height self <=? Z.log2 (Z.of_nat (Nat.min W H)) - 2)%Z
    with true by (symmetry; apply Z.leb_le; lia).
  cbn [assert]. rewrite (iobind_lift_Ok _ eq_refl).
  unfold prepare_grid. fold log_rad. rewrite Ercos.
  rewrite (iobind_lift_Ok _ Hf). cbv zeta.
  rewrite (iobind_lift_Ok _ Hlo0).
  apply iobind_stop.
  destruct (Z.to_nat (NumPy.height self - 1)) as [|[|n]] eqn:En;
    [lia | lia |].
  rewrite NumPy_facts.build_levels_rec.
  apply iobind_print, iobind_stop.
  unfold NumPy.build_pass. apply iobind_print. cbv beta zeta.
  apply iobind_lift_Err. unfold angular_const.
  now replace (NumPy.nbands self - 1 <? 0)%Z with true
    by (symmetry; apply Z.ltb_lt; lia).
Qed.

Lemma build_without_bands_witness :
  NumPy.build flat_utils pyr_nb0 (blank 32 32)
  = ([NumPy.rule;
      ("LEVEL " ++ str_nat (Z.to_nat (NumPy.height pyr_nb0 - 1)))%string],
     Err ValueError).
Proof.
  apply (build_without_bands flat_utils pyr_nb0 (blank 32 32) 32 32).
  - apply rect_tabulate.
  - lia.
  - lia.
  - cbn. lia.
  - cbn. lia.
Defined.

(** X14: where [build] returns a pyramid, what it prints depends on the
    shape of the image and on the height alone: four lines for each
    level with subbands, three for the low-pass residual and four for
    the high-pass residual, [4 * height - 1] lines in all. *)
Theorem build_stdout (G : GridMaskGenerator)
  (self : NumPy.SCFpyr_NumPy) (im : array R) (H W : nat) :
  rect H W im ->
  (2 <= NumPy.height self <= Z.log2 (Z.of_nat (Nat.min W H)) - 2)%Z ->
  (1 <= NumPy.nbands self)%Z ->
  exists pyr,
    NumPy.build G self im
    = (levels_trace H W (Z.to_nat (NumPy.height self - 1))
       ++ high_pass_trace H W, Ok pyr) /\
    length (fst (NumPy.build G self im))
    = 4 * Z.to_nat (NumPy.height self) - 1.
Proof.
  intros Him Hh Hnb.
  assert (Hmin : 0 < Nat.min W H) by (apply log2_pos_arg; lia).
  assert (HH : 0 < H) by lia. assert (HW : 0 < W) by lia.
  destruct (NumPy_trace_facts.build_until_container G self im H W
              Him HH HW ltac:(lia) ltac:(lia))
    as (hi & coeff & Hb & Rhi & Hlv).
  pose proof (NumPy_shape_facts.levels_ok_length _ _ _ _ _ Hlv) as Lc.
  rewrite NumPy_build_facts.set_levels_init in Hb
    by (cbn [length]; rewrite Lc; lia).
  eexists. split; [exact Hb|].
  rewrite Hb. cbn [fst]. rewrite length_app. cbn [high_pass_trace length].
  assert (Ltr : forall n h w, 1 <= n ->
            length (levels_trace h w n) = 4 * n - 1).
  { induction n as [|n IHn]; intros h w Hn; [lia|].
    destruct n as [|n]; [reflexivity|].
    change (levels_trace h w (S (S n)))
      with ([NumPy.rule; ("LEVEL " ++ str_nat (S (S n)))%string;
             "Lowpass:"%string;
             ("  lodft " ++ str_shape (next_dim h, next_dim w)
              ++ " complex128")%string]
            ++ levels_trace (next_dim h) (next_dim w) (S n)).
    rewrite length_app, IHn by lia. cbn [length]. lia. }
  rewrite Ltr by lia. lia.
Qed.

Lemma build_stdout_witness :
  exists pyr,
    NumPy.build flat_utils pyr3 (blank 32 32)
    = (levels_trace 32 32 (Z.to_nat (NumPy.height pyr3 - 1))
       ++ high_pass_trace 32 32, Ok pyr) /\
    length (fst (NumPy.build flat_utils pyr3 (blank 32 32)))
    = 4 * Z.to_nat (NumPy.height pyr3) - 1.
Proof.
  apply (build_stdout flat_utils pyr3 (blank 32 32) 32 32).
  - apply rect_tabulate.
  - cbn. lia.
  - cbn. lia.
Defined.

(** ** [SCFpyr_PyTorch]: what the tensor class can return *)

Lemma fst_iobind_lift {A B : Type} (r : result A) (k : A -> io B) :
  fst (iobind (lift r) k)
  = match r with Ok a => fst (k a) | Err _ => [] end.
Proof. now destruct r. Qed.

Module PyTorch_more.
Import PyTorch.

(** The in-place addition stops every pass of the loop over the bands. *)
Lemma recon_band_fails G self bs angle himask Ycosn orientdft b r :
  recon_band G self bs angle himask Ycosn orientdft b <> Ok r.
Proof.
  unfold recon_band. intros H.
  repeat (apply bind_Ok_inv in H; destruct H as (? & _ & H)).
  discriminate H.
Qed.

Lemma recon_step_fails G self coeff recur log_rad Xrcos Yrcos angle r :
  recon_step G self coeff recur log_rad Xrcos Yrcos angle <> Ok r.
Proof.
  unfold recon_step. intros H.
  apply bind_Ok_inv in H. destruct H as (const & Hc & H).
  assert (Hnb : (1 <= nbands self)%Z).
  { unfold angular_const in Hc.
    destruct (nbands self - 1 <? 0)%Z eqn:E; [discriminate Hc|].
    apply Z.ltb_ge in E. lia. }
  do 3 (apply bind_Ok_inv in H; destruct H as (? & _ & H)).
  apply bind_Ok_inv in H. destruct H as (o & Ho & _).
  destruct (Z.to_nat (nbands self)) as [|n] eqn:En; [lia|].
  cbn [seq foldM] in Ho.
  apply bind_Ok_inv in Ho. destruct Ho as (s & Hs & _).
  exact (recon_band_fails _ _ _ _ _ _ _ _ _ Hs).
Qed.

(** On two levels the tensor class runs the code of the numpy class. *)
Lemma reconstruct_two_levels G self c0 c1 :
  reconstruct G self [c0; c1]
  = NumPy.reconstruct G
      (NumPy.mkSCFpyr (nbands self) (height self) (scale_factor self))
      (NumPy.CoeffList [c0; c1]).
Proof.
  unfold reconstruct, NumPy.reconstruct, NumPy.reconstruct_outdft, index.
  cbn [nth_error tl bind NumPy.nbands].
  destruct (negb (nbands self =? Z.of_nat (NumPy.level_len c1))%Z);
    [reflexivity|].
  destruct c0 as [a0|bs0]; cbn [bind]; [|reflexivity].
  destruct (shape a0) as [M N].
  destruct (prepare_grid G M N) as [log_rad angle].
  destruct (rcosFn G 1 (-0.5)) as [Xrcos Yrcos].
  cbn [_reconstruct_levels NumPy._reconstruct_levels].
  destruct c1 as [a1|bs1]; cbn [bind]; [|reflexivity].
  destruct (fft2 (amap RtoC a1)) as [f1|e]; cbn [bind]; [|reflexivity].
  destruct (fft2 (amap RtoC a0)) as [f0|e]; cbn [bind]; [|reflexivity].
  destruct (ew2 CmulR (fftshift f1) _) as [t1|e]; cbn [bind]; [|reflexivity].
  destruct (ew2 CmulR (fftshift f0) _) as [t2|e]; cbn [bind]; [|reflexivity].
  now destruct (ew2 Cadd t1 t2).
Qed.

Lemma reconstruct_needs_two_levels G self coeff img :
  reconstruct G self coeff = Ok img -> length coeff = 2.
Proof.
  intros H. destruct coeff as [|c0 [|c1 [|c2 rest]]];
    [discriminate H | discriminate H | reflexivity |].
  exfalso. unfold reconstruct in H.
  apply bind_Ok_inv in H. destruct H as (c & _ & H).
  destruct (negb (nbands self =? Z.of_nat (NumPy.level_len c))%Z);
    [discriminate H|].
  do 2 (apply bind_Ok_inv in H; destruct H as (? & _ & H)).
  destruct (shape _) as [M N].
  destruct (prepare_grid G M N) as [log_rad angle].
  destruct (rcosFn G 1 (-0.5)) as [Xrcos Yrcos].
  apply bind_Ok_inv in H. destruct H as (t & Ht & _).
  cbn [tl _reconstruct_levels] in Ht.
  exact (recon_step_fails _ _ _ _ _ _ _ _ _ Ht).
Qed.

End PyTorch_more.

(** X15: [SCFpyr_PyTorch.reconstruct] returns an image only for a list
    of exactly two levels, and then the image that
    [SCFpyr_NumPy.reconstruct] returns for the same list and the same
    configuration; for every list of three or more levels it raises, as
    it adds complex spectra in place to a real array of zeros. *)
Theorem pytorch_reconstruct_two_levels (G : GridMaskGenerator)
  (pt : PyTorch.SCFpyr_PyTorch) (coeff : list NumPy.level)
  (img : array Z) :
  PyTorch.reconstruct G pt coeff = Ok img <->
  length coeff = 2 /\
  NumPy.reconstruct G
    (NumPy.mkSCFpyr (PyTorch.nbands pt) (PyTorch.height pt)
                    (PyTorch.scale_factor pt))
    (NumPy.CoeffList coeff) = Ok img.
Proof.
  split.
  - intros H.
    pose proof (PyTorch_more.reconstruct_needs_two_levels G pt coeff img H)
      as L.
    split; [exact L|].
    destruct coeff as [|c0 [|c1 [|c2 rest]]]; try discriminate L.
    now rewrite <- PyTorch_more.reconstruct_two_levels.
  - intros [L H].
    destruct coeff as [|c0 [|c1 [|c2 rest]]]; try discriminate L.
    now rewrite PyTorch_more.reconstruct_two_levels.
Qed.

(** X16: [SCFpyr_PyTorch._build_levels] returns on no input: every path
    ends in the low-pass branch, which calls [fft_utils.fftshift], a name
    that [fft.py] does not define. *)
Theorem pytorch_build_levels_never_returns (T : TorchOps)
  (G : GridMaskGenerator) (pt : PyTorch.SCFpyr_PyTorch) (height : nat) :
  forall (lodft : Tensor T) (log_rad angle : array R) (Xrcos Yrcos : list R),
  exists e,
    snd (PyTorch._build_levels T G pt lodft log_rad angle Xrcos Yrcos height)
    = Err e.
Proof.
  assert (Hbase : forall m lodft log_rad angle Xrcos Yrcos, m <= 1 ->
            exists e,
              snd (PyTorch._build_levels T G pt lodft log_rad angle
                     Xrcos Yrcos m) = Err e).
  { intros m lodft log_rad angle Xrcos Yrcos Hm.
    destruct (snd (PyTorch._build_levels T G pt lodft log_rad angle
                     Xrcos Yrcos m)) as [r|e] eqn:E; [|now exists e].
    exfalso. destruct m as [|[|m]]; [| | lia];
      cbn [PyTorch._build_levels] in E; io_invert E;
      match goal with
      | Hf : snd (lift (PyTorch.fft_utils_fftshift _ _ _)) = Ok _ |- _ =>
          discriminate Hf
      end. }
  induction height as [|n IH];
    intros lodft log_rad angle Xrcos Yrcos; [apply Hbase; lia|].
  destruct n as [|n]; [apply Hbase; lia|].
  change (PyTorch._build_levels T G pt lodft log_rad angle Xrcos Yrcos
            (S (S n)))
    with (iobind (PyTorch.build_pass T G pt lodft log_rad angle Xrcos Yrcos)
            (fun p =>
               iobind (PyTorch._build_levels T G pt
                         (PyTorch.next_lodft (snd p))
                         (PyTorch.next_log_rad (snd p))
                         (PyTorch.next_angle (snd p))
                         (PyTorch.next_Xrcos (snd p)) Yrcos (S n))
                 (fun coeff => ret (PyTorch.Bands T (fst p) :: coeff)))).
  destruct (iobind_cases
              (PyTorch.build_pass T G pt lodft log_rad angle Xrcos Yrcos)
              (fun p =>
                 iobind (PyTorch._build_levels T G pt
                           (PyTorch.next_lodft (snd p))
                           (PyTorch.next_log_rad (snd p))
                           (PyTorch.next_angle (snd p))
                           (PyTorch.next_Xrcos (snd p)) Yrcos (S n))
                   (fun coeff => ret (PyTorch.Bands T (fst p) :: coeff))))
    as [(e & _ & He) | (p & _ & Hp)]; [now exists e|].
  rewrite Hp.
  destruct (IH (PyTorch.next_lodft (snd p)) (PyTorch.next_log_rad (snd p))
               (PyTorch.next_angle (snd p)) (PyTorch.next_Xrcos (snd p))
               Yrcos) as (e & He).
  exists e. now apply iobind_Err.
Qed.

(** X17: [SCFpyr_PyTorch.build] prints nothing, and its three checks
    come in a fixed order: a batch that is not float32 raises the
    assertion on the type; then a batch that is not 3-D raises the one
    on grayscale images; then a height above
    [floor(log2(min(H, W))) - 2] raises the one on the height; a batch
    that passes all three and is transformed by [torch.rfft] raises
    [AttributeError] at [fft_utils.fftshift]. *)
Theorem pytorch_build_checks (T : TorchOps) (G : GridMaskGenerator)
  (pt : PyTorch.SCFpyr_PyTorch) (im_batch : Tensor T) :
  let s := tensor_shape T im_batch in
  let h := nth 1 s 0 in
  let w := nth 2 s 0 in
  let m := (Z.log2 (Z.of_nat (Nat.min w h)) - 2)%Z in
  let out := PyTorch.build T G pt im_batch in
  fst out = [] /\
  (is_float32 T im_batch = false ->
   snd out = Err (AssertionError "Image batch must be torch.float32")) /\
  (is_float32 T im_batch = true -> length s <> 3 ->
   snd out = Err (AssertionError "Images batch must be grayscale")) /\
  (is_float32 T im_batch = true -> length s = 3 -> 0 < Nat.min w h ->
   (PyTorch.height pt > m)%Z ->
   snd out = Err (AssertionError (PyTorch.config_msg m))) /\
  (is_float32 T im_batch = true -> length s = 3 -> 0 < Nat.min w h ->
   (PyTorch.height pt <= m)%Z ->
   forall d, rfft T im_batch = Ok d -> 2 <= length (unbind T d) ->
   snd out = Err AttributeError).
Proof.
  intros s h w m out. unfold out, PyTorch.build. fold s h w.
  split; [|split; [|split; [|split]]].
  - repeat
      match goal with
      | |- fst (iobind (lift (PyTorch.fft_utils_fftshift _ _ _)) _) = [] =>
          reflexivity
      | |- fst (iobind (lift ?r) _) = [] =>
          rewrite fst_iobind_lift; destruct r; [cbv beta | reflexivity]
      | |- fst (let '(x, y) := ?p in _) = [] => destruct p
      end.
  - intros Hf. rewrite Hf. reflexivity.
  - intros Hf Hs. rewrite Hf.
    replace (length s =? 3) with false
      by (symmetry; apply Nat.eqb_neq; exact Hs).
    reflexivity.
  - intros Hf Hs Hmin Hgt. rewrite Hf, Hs. io_simpl. cbn [Nat.eqb assert bind].
    unfold NumPy.max_height_pyr.
    replace (Nat.min w h =? 0) with false
      by (symmetry; apply Nat.eqb_neq; lia).
    cbn [bind]. fold m.
    replace (PyTorch.height pt <=? m)%Z with false
      by (symmetry; apply Z.leb_gt; lia).
    reflexivity.
  - intros Hf Hs Hmin Hle d Hd Hu. rewrite Hf, Hs. io_simpl.
    cbn [Nat.eqb assert bind].
    unfold NumPy.max_height_pyr.
    replace (Nat.min w h =? 0) with false
      by (symmetry; apply Nat.eqb_neq; lia).
    cbn [bind]. fold m.
    replace (PyTorch.height pt <=? m)%Z with true
      by (symmetry; apply Z.leb_le; lia).
    cbn [assert bind].
    destruct (prepare_grid G h w) as [log_rad angle].
    destruct (rcosFn G 1 (-0.5)) as [Xrcos Yrcos].
    io_simpl. rewrite Hd. cbn [bind]. unfold index.
    destruct (unbind T d) as [|re [|im rest]];
      [simpl in Hu; lia | simpl in Hu; lia |].
    cbn [nth_error bind]. io_simpl. reflexivity.
Qed.

(** ** [reconstruct] on the levels of [build], and what it reads *)

(** X18: with a height of 3 or more, the levels that [build] stores in
    its container, handed to [reconstruct] as a list, are accepted:
    [reconstruct] returns an image of the shape of the input image. *)
Theorem reconstruct_accepts_build_levels (G : GridMaskGenerator)
  (self : NumPy.SCFpyr_NumPy) (im : array R) (H W : nat) :
  rect H W im ->
  (3 <= NumPy.height self <= Z.log2 (Z.of_nat (Nat.min W H)) - 2)%Z ->
  (1 <= NumPy.nbands self)%Z ->
  exists levels img,
    snd (NumPy.build G self im)
    = Ok (NumPy.mkPyramid (NumPy.height self) (NumPy.nbands self)
            (map Some levels)) /\
    length levels = Z.to_nat (NumPy.height self) /\
    NumPy.reconstruct G self (NumPy.CoeffList levels) = Ok img /\
    shape img = (H, W).
Proof.
  intros Him Hh Hnb.
  assert (Hmin : 0 < Nat.min W H) by (apply log2_pos_arg; lia).
  assert (HH : 0 < H) by lia. assert (HW : 0 < W) by lia.
  destruct (NumPy_build_facts.build_ok G self im H W Him HH HW
              ltac:(lia) Hnb)
    as (hi & coeff & Hb & Rhi & Hlv).
  pose proof (NumPy_shape_facts.levels_ok_length _ _ _ _ _ Hlv) as Lc.
  assert (Hv : valid_tree self H W (NumPy.Real hi :: coeff)).
  { unfold valid_tree. repeat split; try assumption.
    exists hi, coeff, (Z.to_nat (NumPy.height self - 1)).
    split; [reflexivity|]. split; [lia|]. split; assumption. }
  destruct (NumPy_recon_ok.reconstruct_outdft_ok G self H W _ Hv)
    as (outdft & Ho & Ro).
  destruct (ifft2_rect H W (ifftshift outdft)) as (r & Hr & Rr);
    [assumption | assumption | now apply rect_ifftshift |].
  exists (NumPy.Real hi :: coeff), (amap (fun z => astype_int (Cre z)) r).
  split; [exact Hb|].
  split; [cbn [length]; rewrite Lc; lia|].
  split.
  - unfold NumPy.reconstruct. rewrite Ho. cbn [bind]. now rewrite Hr.
  - apply rect_shape; [now apply rect_amap | exact HH].
Qed.

Lemma reconstruct_accepts_build_levels_witness :
  exists levels img,
    snd (NumPy.build flat_utils pyr3 (blank 32 32))
    = Ok (NumPy.mkPyramid (NumPy.height pyr3) (NumPy.nbands pyr3)
            (map Some levels)) /\
    length levels = Z.to_nat (NumPy.height pyr3) /\
    NumPy.reconstruct flat_utils pyr3 (NumPy.CoeffList levels) = Ok img /\
    shape img = (32, 32).
Proof.
  apply (reconstruct_accepts_build_levels flat_utils pyr3 (blank 32 32)
           32 32).
  - apply rect_tabulate.
  - cbn. lia.
  - cbn. lia.
Defined.

(** X19: with a height of 2, [build] stores the high-pass and the
    low-pass residual only, and [reconstruct] takes the low-pass array
    for the list of subbands: handed the two levels as a list, it raises
    the exception on unmatched orientations unless [nbands] equals the
    number of rows of the image. *)
Theorem reconstruct_rejects_two_levels (G : GridMaskGenerator)
  (self : NumPy.SCFpyr_NumPy) (im : array R) (H W : nat) :
  rect H W im -> 0 < H -> 0 < W ->
  NumPy.height self = 2%Z ->
  (2 <= Z.log2 (Z.of_nat (Nat.min W H)) - 2)%Z ->
  NumPy.nbands self <> Z.of_nat H ->
  exists hi lo,
    snd (NumPy.build G self im)
    = Ok (NumPy.mkPyramid 2 (NumPy.nbands self)
            (map Some [NumPy.Real hi; NumPy.Real lo])) /\
    NumPy.reconstruct G self
      (NumPy.CoeffList [NumPy.Real hi; NumPy.Real lo])
    = Err NumPy.unmatched.
Proof.
  intros Him HH HW H2 Hmax Hnb.
  destruct (NumPy_trace_facts.build_until_container G self im H W
              Him HH HW ltac:(lia) ltac:(lia))
    as (hi & coeff & Hb & Rhi & Hlv).
  rewrite H2 in *. change (Z.to_nat (2 - 1)) with 1 in *.
  destruct Hlv as (lo & -> & Rlo).
  exists hi, lo. split; [now rewrite Hb|].
  unfold NumPy.reconstruct, NumPy.reconstruct_outdft, index.
  cbn [nth_error bind NumPy.level_len].
  destruct Rlo as [Llo _]. rewrite Llo.
  now replace (NumPy.nbands self =? Z.of_nat H)%Z with false
    by (symmetry; apply Z.eqb_neq; exact Hnb).
Qed.

Lemma reconstruct_rejects_two_levels_witness :
  exists hi lo,
    snd (NumPy.build flat_utils pyr_h2_nb0 (blank 16 16))
    = Ok (NumPy.mkPyramid 2 (NumPy.nbands pyr_h2_nb0)
            (map Some [NumPy.Real hi; NumPy.Real lo])) /\
    NumPy.reconstruct flat_utils pyr_h2_nb0
      (NumPy.CoeffList [NumPy.Real hi; NumPy.Real lo])
    = Err NumPy.unmatched.
Proof.
  apply (reconstruct_rejects_two_levels flat_utils pyr_h2_nb0
           (blank 16 16) 16 16).
  - apply rect_tabulate.
  - lia.
  - lia.
  - reflexivity.
  - cbn. lia.
  - cbn. lia.
Defined.

Lemma foldM_ext {A S : Type} (f g : S -> A -> result S) (l : list A) :
  (forall s a, In a l -> f s a = g s a) ->
  forall s, foldM f l s = foldM g l s.
Proof.
  induction l as [|a l IH]; intros Hfg s; [reflexivity|].
  cbn [foldM]. rewrite (Hfg s a (or_introl eq_refl)).
  destruct (g s a) as [s'|e]; cbn [bind]; [|reflexivity].
  apply IH. intros s0 b Hb. apply Hfg. now right.
Qed.

Module NumPy_reads.
Import NumPy.

Lemma recon_band_prefix G self bs extra angle himask Ycosn orientdft b :
  b < length bs ->
  recon_band G self (bs ++ extra) angle himask Ycosn orientdft b
  = recon_band G self bs angle himask Ycosn orientdft b.
Proof.
  intros Hb. unfold recon_band, index.
  now rewrite nth_error_app1 by exact Hb.
Qed.

(** [recon_step] reads the first level of its list only, and of that
    level the first [nbands] subbands. *)
Lemma recon_step_reads G self bs extra l1 l2 r1 r2 log_rad Xrcos Yrcos angle :
  0 < length bs -> Z.to_nat (nbands self) <= length bs ->
  (forall a b c d, r1 a b c d = r2 a b c d) ->
  recon_step G self (Bands (bs ++ extra) :: l1) r1 log_rad Xrcos Yrcos angle
  = recon_step G self (Bands bs :: l2) r2 log_rad Xrcos Yrcos angle.
Proof.
  intros Hpos Hnb Hr. unfold recon_step. cbv zeta.
  destruct (angular_const (nbands self)) as [c|e]; cbn [bind];
    [|reflexivity].
  cbn [index nth_error bind].
  destruct bs as [|b0 bs]; [simpl in Hpos; lia|].
  cbn [app index nth_error bind].
  rewrite (foldM_ext
             (recon_band G self (b0 :: bs ++ extra) angle
                (pointOp G log_rad Yrcos (map (fun x => (x - 1)%R) Xrcos))
                (recon_Ycosn c (Z.to_nat (nbands self - 1))))
             (recon_band G self (b0 :: bs) angle
                (pointOp G log_rad Yrcos (map (fun x => (x - 1)%R) Xrcos))
                (recon_Ycosn c (Z.to_nat (nbands self - 1))))).
  - destruct (foldM _ _ _) as [o|e]; cbn [bind]; [|reflexivity].
    now rewrite Hr.
  - intros s b Hb. apply in_seq in Hb.
    apply (recon_band_prefix G self (b0 :: bs) extra). lia.
Qed.

Lemma recon_step_same_head G self c l1 l2 r1 r2 log_rad Xrcos Yrcos angle :
  (forall a b c d, r1 a b c d = r2 a b c d) ->
  recon_step G self (c :: l1) r1 log_rad Xrcos Yrcos angle
  = recon_step G self (c :: l2) r2 log_rad Xrcos Yrcos angle.
Proof.
  intros Hr. unfold recon_step. cbv zeta. cbn [index nth_error].
  destruct (angular_const (nbands self)) as [k|e]; cbn [bind];
    [|reflexivity].
  destruct c as [a|bs]; cbn [bind]; [reflexivity|].
  destruct (index bs 0) as [b0|e]; cbn [bind]; [|reflexivity].
  destruct (foldM _ _ _) as [o|e]; cbn [bind]; [|reflexivity].
  now rewrite Hr.
Qed.

Lemma reconstruct_levels_reads G self bs extra post :
  post <> [] -> 0 < length bs -> Z.to_nat (nbands self) <= length bs ->
  forall pre log_rad Xrcos Yrcos angle,
    _reconstruct_levels G self (pre ++ Bands (bs ++ extra) :: post)
      log_rad Xrcos Yrcos angle
    = _reconstruct_levels G self (pre ++ Bands bs :: post)
        log_rad Xrcos Yrcos angle.
Proof.
  intros Hpost Hpos Hnb.
  destruct post as [|p post]; [contradiction|].
  induction pre as [|c pre IH]; intros log_rad Xrcos Yrcos angle.
  - cbn [app _reconstruct_levels]. now apply recon_step_reads.
  - cbn [app].
    destruct pre as [|c' pre];
      cbn [app _reconstruct_levels] in *;
      apply recon_step_same_head; intros; apply IH.
Qed.

End NumPy_reads.

(** X20: [reconstruct] checks the number of subbands at level 1 only; at
    every deeper level it reads the first [nbands] subbands and never
    the others, so a list with surplus subbands at a deeper level gives
    the result, image or exception, of the list without them. *)
Theorem reconstruct_ignores_surplus_subbands (G : GridMaskGenerator)
  (self : NumPy.SCFpyr_NumPy) (pre post : list NumPy.level)
  (bs extra : list (array C)) :
  2 <= length pre -> post <> [] ->
  0 < length bs -> Z.to_nat (NumPy.nbands self) <= length bs ->
  NumPy.reconstruct G self
    (NumPy.CoeffList (pre ++ NumPy.Bands (bs ++ extra) :: post))
  = NumPy.reconstruct G self
      (NumPy.CoeffList (pre ++ NumPy.Bands bs :: post)).
Proof.
  intros Hpre Hpost Hpos Hnb.
  destruct pre as [|c0 [|c1 pre]]; [simpl in Hpre; lia
                                   | simpl in Hpre; lia |].
  unfold NumPy.reconstruct, NumPy.reconstruct_outdft, index.
  cbn [app nth_error bind tl].
  destruct (negb (NumPy.nbands self =? Z.of_nat (NumPy.level_len c1))%Z);
    [reflexivity|].
  destruct c0 as [a0|bs0]; cbn [bind]; [|reflexivity].
  destruct (shape a0) as [M N].
  destruct (prepare_grid G M N) as [log_rad angle].
  destruct (rcosFn G 1 (-0.5)) as [Xrcos Yrcos].
  now rewrite (NumPy_reads.reconstruct_levels_reads G self bs extra post
                 Hpost Hpos Hnb (c1 :: pre)).
Qed.

Lemma reconstruct_ignores_surplus_subbands_witness :
  NumPy.reconstruct flat_utils pyr_nb1
    (NumPy.CoeffList (wide_tree_prefix
                      ++ NumPy.Bands ([[[C0]]] ++ [[[C0]]])
                      :: [NumPy.Real [[0%R]]]))
  = NumPy.reconstruct flat_utils pyr_nb1
      (NumPy.CoeffList (wide_tree_prefix
                        ++ NumPy.Bands [[[C0]]] :: [NumPy.Real [[0%R]]])).
Proof.
  apply (reconstruct_ignores_surplus_subbands flat_utils pyr_nb1
           wide_tree_prefix [NumPy.Real [[0%R]]] [[[C0]]] [[[C0]]]).
  - simpl. lia.
  - discriminate.
  - simpl. lia.
  - simpl. lia.
Defined.

(** X21: the first things [reconstruct] reads, in both classes: a list
    of fewer than two levels raises [IndexError] at [coeff[1]]; once the
    number of orientations is accepted, a list of subbands in the place
    of the high-pass residual raises [AttributeError] at
    [coeff[0].shape]. *)
Theorem reconstruct_first_reads (G : GridMaskGenerator)
  (np : NumPy.SCFpyr_NumPy) (pt : PyTorch.SCFpyr_PyTorch)
  (coeff : list NumPy.level) :
  (length coeff <= 1 ->
   NumPy.reconstruct G np (NumPy.CoeffList coeff) = Err IndexError /\
   PyTorch.reconstruct G pt coeff = Err IndexError) /\
  (forall bs c1 rest, coeff = NumPy.Bands bs :: c1 :: rest ->
     (Z.of_nat (NumPy.level_len c1) = NumPy.nbands np ->
      NumPy.reconstruct G np (NumPy.CoeffList coeff) = Err AttributeError) /\
     (Z.of_nat (NumPy.level_len c1) = PyTorch.nbands pt ->
      PyTorch.reconstruct G pt coeff = Err AttributeError)).
Proof.
  split.
  - intros Hl. destruct coeff as [|c0 [|c1 rest]];
      [split; reflexivity | split; reflexivity | simpl in Hl; lia].
  - intros bs c1 rest ->. split; intros Hn.
    + unfold NumPy.reconstruct, NumPy.reconstruct_outdft, index.
      cbn [nth_error bind]. rewrite <- Hn, Z.eqb_refl. reflexivity.
    + unfold PyTorch.reconstruct, index.
      cbn [nth_error bind]. rewrite <- Hn, Z.eqb_refl. reflexivity.
Qed.

(** ** The cached lookup abscissa *)

Lemma fmod_range (x y : R) :
  (0 < y)%R -> (0 <= fmod x y < y)%R.
Proof.
  intros Hy. unfold fmod.
  destruct (Zfloor_bound (x / y)) as [L U].
  assert (E : (x = x / y * y)%R) by (field; lra).
  split.
  - apply (Rmult_le_compat_r y) in L; lra.
  - apply (Rmult_lt_compat_r y) in U; lra.
Qed.

(** X22: the table that both [__init__] cache: [Xcosn] has [3075]
    entries, the multiples [pi * k / 1024] for [k] from [-2049] to
    [1025], and [alpha] wraps each of them into the interval from
    [-pi] (included) to [pi] (excluded) by a multiple of [2 pi]. *)
Theorem alpha_wraps_Xcosn (i : nat) :
  i < 3075 ->
  exists x a k,
    nth_error Xcosn i = Some x /\
    x = (PI * IZR (Z.of_nat i - 2049) / 1024)%R /\
    nth_error alpha i = Some a /\
    (- PI <= a < PI)%R /\
    a = (x - 2 * PI * IZR k)%R.
Proof.
  intros Hi. pose proof (Xcosn_at i Hi) as Hx.
  eexists _, _, (Zfloor ((_ + PI) / (2 * PI))).
  split; [exact Hx|]. split; [reflexivity|].
  split; [unfold alpha; rewrite nth_error_map, Hx; reflexivity|].
  assert (Hpi : (0 < 2 * PI)%R) by (pose proof PI_RGT_0; lra).
  split.
  - pose proof (fmod_range (PI * IZR (Z.of_nat i - 2049) / 1024 + PI)
                  (2 * PI) Hpi). lra.
  - unfold fmod. ring.
Qed.

Lemma alpha_wraps_Xcosn_witness :
  exists x a k,
    nth_error Xcosn 2049 = Some x /\
    x = (PI * IZR (Z.of_nat 2049 - 2049) / 1024)%R /\
    nth_error alpha 2049 = Some a /\
    (- PI <= a < PI)%R /\
    a = (x - 2 * PI * IZR k)%R.
Proof.
  apply (alpha_wraps_Xcosn 2049). lia.
Defined.

(** ** The pyramid of the blank image *)

Lemma returns_Ok {A : Type} (P : A -> Prop) (a : A) :
  P a -> returns P (Ok a).
Proof. intros H b E. now inversion E; subst. Qed.

Lemma returns_Err {A : Type} (P : A -> Prop) e : returns P (Err e).
Proof. intros b E. discriminate E. Qed.

Lemma returns_bind {A B : Type} (Q : A -> Prop) (P : B -> Prop)
  (m : result A) (k : A -> result B) :
  returns Q m -> (forall a, Q a -> returns P (k a)) ->
  returns P (bind m k).
Proof.
  intros Hm Hk b E. apply bind_Ok_inv in E. destruct E as (a & Ea & Eb).
  exact (Hk a (Hm a Ea) b Eb).
Qed.

Lemma returns_iobind {A B : Type} (Q : A -> Prop) (P : B -> Prop)
  (m : io A) (k : A -> io B) :
  returns Q (snd m) -> (forall a, Q a -> returns P (snd (k a))) ->
  returns P (snd (iobind m k)).
Proof. intros Hm Hk. rewrite snd_iobind. now apply returns_bind with Q. Qed.

Lemma returns_any {A : Type} (r : result A) : returns (fun _ => True) r.
Proof. now intros a _. Qed.

Lemma returns_index {A : Type} (P : A -> Prop) (l : list A) i :
  Forall P l -> returns P (index l i).
Proof.
  intros F a E. unfold index in E.
  destruct (nth_error l i) as [x|] eqn:En; [|discriminate E].
  inversion E; subst. rewrite Forall_forall in F.
  eapply F, nth_error_In, En.
Qed.

Lemma returns_mapM {A B : Type} (P : B -> Prop) (f : A -> result B) l :
  (forall a, returns P (f a)) -> returns (Forall P) (mapM f l).
Proof.
  intros Hf. induction l as [|a l IH]; cbn [mapM];
    [apply returns_Ok; constructor|].
  apply returns_bind with P; [apply Hf | intros b Pb].
  apply returns_bind with (Forall P); [exact IH | intros bs Pbs].
  apply returns_Ok. now constructor.
Qed.

Lemma returns_foldM {A S : Type} (P : S -> Prop) (f : S -> A -> result S)
  (Q : A -> Prop) l :
  Forall Q l ->
  (forall s a, Q a -> P s -> returns P (f s a)) ->
  forall s, P s -> returns P (foldM f l s).
Proof.
  intros Fl Hf. induction Fl as [|a l Qa _ IH]; intros s Ps; cbn [foldM];
    [now apply returns_Ok|].
  apply returns_bind with P; [now apply Hf | exact IH].
Qed.

Lemma Forall_trivial {A : Type} (l : list A) : Forall (fun _ => True) l.
Proof. induction l; constructor; auto. Qed.

Lemma Forall_zip_with {A B D : Type} (f : A -> B -> D)
  (P : A -> Prop) (Q : B -> Prop) (R : D -> Prop) l m :
  Forall P l -> Forall Q m ->
  (forall a b, P a -> Q b -> R (f a b)) ->
  Forall R (zip_with f l m).
Proof.
  intros Fl. revert m. induction Fl as [|a l Pa _ IH]; intros m Fm Hf;
    [constructor|].
  destruct Fm as [|b m Qb Fm]; [constructor|].
  cbn [zip_with]. constructor; [now apply Hf | now apply IH].
Qed.

Lemma Forall_repeat_of {A : Type} (P : A -> Prop) x n :
  P x -> Forall P (repeat x n).
Proof. intros Px. induction n; simpl; constructor; auto. Qed.

Lemma Forall_stretch {A : Type} (P : A -> Prop) n (l : list A) :
  Forall P l -> Forall P (stretch n l).
Proof.
  intros F. unfold stretch. destruct (length l =? n); [exact F|].
  destruct l as [|x [|y l]]; try exact F.
  apply Forall_repeat_of. now inversion F.
Qed.

Lemma Forall_broadcast_to {A : Type} (P : A -> Prop) h w (a : array A) :
  Forall (Forall P) a -> Forall (Forall P) (broadcast_to h w a).
Proof.
  intros F. unfold broadcast_to. apply Forall_stretch, Forall_map.
  eapply Forall_impl; [| exact F]. intros r. apply Forall_stretch.
Qed.

Lemma returns_ew2 {A B D : Type} (f : A -> B -> D)
  (P : A -> Prop) (Q : B -> Prop) (R : D -> Prop) a b :
  Forall (Forall P) a -> Forall (Forall Q) b ->
  (forall x y, P x -> Q y -> R (f x y)) ->
  returns (Forall (Forall R)) (ew2 f a b).
Proof.
  intros Fa Fb Hf. unfold ew2.
  apply returns_bind with (fun _ => True); [apply returns_any | intros h _].
  apply returns_bind with (fun _ => True); [apply returns_any | intros w _].
  apply returns_Ok.
  apply Forall_zip_with with (P := Forall P) (Q := Forall Q);
    [now apply Forall_broadcast_to | now apply Forall_broadcast_to |].
  intros r s Fr Fs. now apply Forall_zip_with with (P := P) (Q := Q).
Qed.

Lemma Forall_all {A : Type} (a : array A) :
  Forall (Forall (fun _ => True)) a.
Proof.
  induction a; constructor; auto. apply Forall_trivial.
Qed.

Lemma const_tabulate {A : Type} (z : A) h w f :
  (forall i j, f i j = z) -> const_array z (tabulate h w f).
Proof.
  intros Hf. unfold const_array, tabulate.
  apply Forall_map, Forall_forall. intros i _.
  apply Forall_map, Forall_forall. intros j _. now rewrite Hf.
Qed.

Lemma const_amap {A B : Type} (f : A -> B) z z' (a : array A) :
  f z = z' -> const_array z a -> const_array z' (amap f a).
Proof.
  intros Hf Ha. unfold const_array, amap in *.
  apply Forall_map. eapply Forall_impl; [| exact Ha].
  intros r Hr. apply Forall_map. eapply Forall_impl; [| exact Hr].
  now intros x <-.
Qed.

Lemma const_fftshift {A : Type} (z : A) a :
  const_array z a -> const_array z (fftshift a).
Proof.
  intros Ha. unfold const_array, fftshift, fftshift1.
  apply Forall_map, Forall_rotl. eapply Forall_impl; [| exact Ha].
  intros r. apply Forall_rotl.
Qed.

Lemma const_ifftshift {A : Type} (z : A) a :
  const_array z a -> const_array z (ifftshift a).
Proof.
  intros Ha. unfold const_array, ifftshift, ifftshift1.
  apply Forall_map, Forall_rotl. eapply Forall_impl; [| exact Ha].
  intros r. apply Forall_rotl.
Qed.

Lemma const_crop_window {A : Type} (z : A) dims a :
  const_array z a -> const_array z (crop_window dims a).
Proof.
  intros Ha. unfold const_array, crop_window, crop.
  apply Forall_map, Forall_py_slice. eapply Forall_impl; [| exact Ha].
  intros r. apply Forall_py_slice.
Qed.

Lemma Cadd_zero : Cadd C0 C0 = C0.
Proof. apply Cadd_C0_l. Qed.

Lemma Csum_zero (l : list C) : Forall (eq C0) l -> Csum l = C0.
Proof.
  intros F. induction F as [|x l <- _ IH]; [reflexivity|].
  cbn [Csum fold_right]. fold (Csum l). rewrite IH. apply Cadd_zero.
Qed.

Lemma Forall_concat_of {A : Type} (P : A -> Prop) (ll : list (list A)) :
  Forall (Forall P) ll -> Forall P (concat ll).
Proof.
  intros F. induction F as [|l ll Hl _ IH]; [constructor|].
  cbn [concat]. apply Forall_app. now split.
Qed.

Lemma Cmul_C0_l z : Cmul C0 z = C0.
Proof. rewrite Cmul_comm. apply Cmul_C0_r. Qed.

(** Every Fourier sum over an array of zeros is zero. *)
Lemma dft2_at_zero sgn a h w k l :
  const_array C0 a -> dft2_at sgn a h w k l = C0.
Proof.
  intros Ha. unfold dft2_at. apply Csum_zero, Forall_concat_of.
  unfold mapi.
  apply Forall_zip_with with (P := fun _ => True) (Q := Forall (eq C0));
    [apply Forall_trivial | exact Ha |].
  intros m row _ Hrow.
  apply Forall_zip_with with (P := fun _ => True) (Q := eq C0);
    [apply Forall_trivial | exact Hrow |].
  intros n x _ <-. symmetry. apply Cmul_C0_l.
Qed.

Lemma returns_fft2 a :
  const_array C0 a -> returns (const_array C0) (fft2 a).
Proof.
  intros Ha. unfold fft2. destruct (shape a) as [h w].
  destruct ((h =? 0) || (w =? 0)); [apply returns_Err|].
  apply returns_Ok, const_tabulate. intros k l. now apply dft2_at_zero.
Qed.

Lemma returns_ifft2 a :
  const_array C0 a -> returns (const_array C0) (ifft2 a).
Proof.
  intros Ha. unfold ifft2. destruct (shape a) as [h w].
  destruct ((h =? 0) || (w =? 0)); [apply returns_Err|].
  apply returns_Ok, const_tabulate. intros k l.
  rewrite dft2_at_zero by exact Ha. apply CmulR_C0.
Qed.

(** A product with an array of zeros on the left. *)
Lemma returns_scaled a (m : array R) :
  const_array C0 a -> returns (const_array C0) (ew2 CmulR a m).
Proof.
  intros Ha.
  apply returns_ew2 with (P := eq C0) (Q := fun _ => True);
    [exact Ha | apply Forall_all |].
  intros x y <- _. symmetry. apply CmulR_C0.
Qed.

Lemma returns_sum a b :
  const_array C0 a -> const_array C0 b ->
  returns (const_array C0) (ew2 Cadd a b).
Proof.
  intros Ha Hb.
  apply returns_ew2 with (P := eq C0) (Q := eq C0); [exact Ha | exact Hb |].
  intros x y <- <-. symmetry. apply Cadd_zero.
Qed.

Lemma Forall_splice {A : Type} (P : A -> Prop) s (v l : list A) :
  Forall P v -> Forall P l -> Forall P (splice s v l).
Proof.
  intros Fv Fl. unfold splice. apply Forall_app. split;
    [now apply Forall_firstn|].
  apply Forall_app. split; [exact Fv | now apply Forall_skipn].
Qed.

Lemma returns_assign_block {A : Type} (z : A) s0 e0 s1 e1 v a :
  const_array z v -> const_array z a ->
  returns (const_array z) (assign_block s0 e0 s1 e1 v a).
Proof.
  intros Hv Ha. unfold assign_block.
  destruct (_ && _); [|apply returns_Err].
  apply returns_Ok. unfold const_array.
  apply Forall_app. split; [now apply Forall_firstn|].
  apply Forall_app. split; [|now apply Forall_skipn].
  apply Forall_zip_with
    with (P := Forall (eq z)) (Q := Forall (eq z));
    [now apply Forall_broadcast_to | now apply Forall_slice |].
  intros vr ar. apply Forall_splice.
Qed.

Lemma const_list {A : Type} (z : A) (l : list A) : forall s,
  Forall (eq z) l -> l = map (fun _ => z) (seq s (length l)).
Proof.
  induction l as [|x l IH]; intros s F; [reflexivity|].
  inversion F as [|x' l' Hx Fl]; subst. cbn [length seq map].
  f_equal. now apply IH.
Qed.

(** An array of one shape whose samples are all [z] is [zeros]. *)
Lemma const_rect_zeros {A : Type} (z : A) h w (a : array A) :
  rect h w a -> const_array z a -> a = zeros z (h, w).
Proof.
  intros [La Fa] Ha. unfold zeros, tabulate. cbn [fst snd].
  rewrite <- La. clear La.
  assert (E : forall s,
            a = map (fun _ => map (fun _ => z) (seq 0 w))
                    (seq s (length a))); [|apply E].
  induction a as [|r a IH]; intros s; [reflexivity|].
  apply Forall_cons_iff in Fa. destruct Fa as [Lr Fa].
  apply Forall_cons_iff in Ha. destruct Ha as [Hr Ha].
  cbn [length seq map]. f_equal; [|now apply IH].
  rewrite <- Lr. now apply const_list.
Qed.

Module NumPy_zero.
Import NumPy.

Lemma build_band_zero G self lodft angle himask Ycosn b :
  const_array C0 lodft ->
  returns (const_array C0) (build_band G self lodft angle himask Ycosn b).
Proof.
  intros Hlo. unfold build_band.
  apply returns_bind with (const_array C0).
  { apply returns_scaled. eapply const_amap; [apply Cmul_C0_r | exact Hlo]. }
  intros t Ht. apply returns_bind with (const_array C0);
    [now apply returns_scaled|].
  intros u Hu. now apply returns_ifft2, const_ifftshift.
Qed.

Lemma build_pass_zero G self lodft log_rad angle Xrcos Yrcos n :
  const_array C0 lodft ->
  returns (fun p => Forall (const_array C0) (fst p) /\
                    const_array C0 (next_lodft (snd p)))
    (snd (build_pass G self lodft log_rad angle Xrcos Yrcos n)).
Proof.
  intros Hlo. unfold build_pass.
  apply returns_iobind with (fun _ => True); [apply returns_any|].
  intros _ _. cbv zeta.
  apply returns_iobind with (fun _ => True); [apply returns_any|].
  intros const _.
  apply returns_iobind with (Forall (const_array C0)).
  { cbn [snd lift]. apply returns_mapM. intros b.
    now apply build_band_zero. }
  intros bs Hbs.
  apply returns_iobind with (const_array C0).
  { cbn [snd lift].
    apply returns_ew2 with (P := fun _ => True) (Q := eq C0);
      [apply Forall_all | now apply const_crop_window |].
    intros x y _ <-. symmetry. apply CmulR_C0. }
  intros lodft' Hlodft'.
  apply returns_iobind with (fun _ => True); [apply returns_any|].
  intros _ _.
  apply returns_iobind with (fun _ => True); [apply returns_any|].
  intros _ _. cbn [snd ret]. apply returns_Ok. now split.
Qed.

Lemma build_levels_zero G self n :
  forall lodft log_rad angle Xrcos Yrcos,
    const_array C0 lodft ->
    returns (Forall zero_level)
      (snd (_build_levels G self lodft log_rad angle Xrcos Yrcos n)).
Proof.
  assert (Hbase : forall m lodft log_rad angle Xrcos Yrcos,
            m <= 1 -> const_array C0 lodft ->
            returns (Forall zero_level)
              (snd (_build_levels G self lodft log_rad angle Xrcos Yrcos
                      m))).
  { intros m lodft log_rad angle Xrcos Yrcos Hm Hlo.
    rewrite NumPy_facts.build_levels_low by exact Hm.
    apply returns_iobind with (fun _ => True); [apply returns_any|].
    intros _ _.
    apply returns_iobind with (fun _ => True); [apply returns_any|].
    intros _ _.
    apply returns_iobind with (const_array C0).
    { cbn [snd lift]. now apply returns_ifft2, const_ifftshift. }
    intros lo0 Hlo0.
    apply returns_iobind with (fun _ => True); [apply returns_any|].
    intros _ _. cbn [snd ret]. apply returns_Ok.
    constructor; [|constructor]. cbn [zero_level].
    eapply const_amap; [|exact Hlo0]. reflexivity. }
  induction n as [|n IH]; intros lodft log_rad angle Xrcos Yrcos Hlo;
    [apply Hbase; [lia | exact Hlo]|].
  destruct n as [|n]; [apply Hbase; [lia | exact Hlo]|].
  rewrite NumPy_facts.build_levels_rec.
  apply returns_iobind with (fun _ => True); [apply returns_any|].
  intros _ _.
  eapply returns_iobind; [now apply build_pass_zero|].
  intros p [Hbs Hnext].
  apply returns_iobind with (Forall zero_level); [now apply IH|].
  intros coeff Hcoeff. cbn [snd ret]. apply returns_Ok.
  constructor; [exact Hbs | exact Hcoeff].
Qed.

Lemma returns_setitem {A : Type} (P : A -> Prop) (l : list A) i x :
  Forall P l -> P x -> returns (Forall P) (setitem l i x).
Proof.
  intros F Px. revert i. induction F as [|a l Pa Fl IH]; intros i;
    [apply returns_Err|].
  destruct i as [|i]; cbn [setitem]; [apply returns_Ok; now constructor|].
  apply returns_bind with (Forall P); [apply IH|].
  intros r Hr. apply returns_Ok. now constructor.
Qed.

Lemma set_levels_zero pyr coeff :
  Forall zero_entry (_coeff pyr) -> Forall zero_level coeff ->
  returns (fun p => Forall zero_entry (_coeff p)) (set_levels pyr coeff).
Proof.
  intros Hp Hc. unfold set_levels.
  apply returns_foldM with (Q := fun ic => zero_level (snd ic));
    [| | exact Hp].
  - generalize (seq 0 (length coeff)). induction Hc as [|c coeff Zc _ IH];
      intros [|i idx]; cbn [combine]; constructor; auto.
  - intros s [i c] Zc Hs. unfold set_level. cbn [fst snd] in *.
    apply returns_bind with (Forall zero_entry);
      [now apply returns_setitem|].
    intros l Hl. now apply returns_Ok.
Qed.

(** Whatever the shape and the configuration, where [build] returns for
    an image of zeros, every stored level is zero. *)
Lemma build_zero G self im :
  const_array 0%R im ->
  returns (fun p => Forall zero_entry (_coeff p)) (snd (build G self im)).
Proof.
  intros Him. unfold build. destruct (shape im) as [h w].
  apply returns_iobind with (fun _ => True); [apply returns_any|].
  intros max _.
  apply returns_iobind with (fun _ => True); [apply returns_any|].
  intros _ _.
  destruct (prepare_grid G h w) as [log_rad angle].
  destruct (rcosFn G 1 (-0.5)) as [Xrcos Yrcos]. cbv zeta.
  apply returns_iobind with (const_array C0).
  { cbn [snd lift]. apply returns_fft2.
    eapply const_amap; [|exact Him]. reflexivity. }
  intros f Hf.
  apply returns_iobind with (const_array C0).
  { cbn [snd lift]. now apply returns_scaled, const_fftshift. }
  intros lo0dft Hlo0.
  apply returns_iobind with (Forall zero_level);
    [now apply build_levels_zero|].
  intros coeff Hcoeff.
  apply returns_iobind with (const_array C0).
  { cbn [snd lift]. now apply returns_scaled, const_fftshift. }
  intros hi0dft Hhi0.
  apply returns_iobind with (const_array C0).
  { cbn [snd lift]. now apply returns_ifft2, const_ifftshift. }
  intros hi0 Hhi.
  do 4 (apply returns_iobind with (fun _ => True); [apply returns_any|];
        intros _ _).
  cbn [snd lift]. apply set_levels_zero.
  - unfold init. cbn [_coeff]. now apply Forall_repeat_of.
  - constructor; [|exact Hcoeff]. cbn [zero_level].
    eapply const_amap; [|exact Hhi]. reflexivity.
Qed.

Lemma recon_band_zero G self bs angle himask Ycosn orientdft b :
  Forall (const_array C0) bs -> const_array C0 orientdft ->
  returns (const_array C0)
    (recon_band G self bs angle himask Ycosn orientdft b).
Proof.
  intros Hbs Ho. unfold recon_band.
  apply returns_bind with (const_array C0); [now apply returns_index|].
  intros band Hband.
  apply returns_bind with (const_array C0); [now apply returns_fft2|].
  intros f Hf.
  apply returns_bind with (const_array C0).
  { apply returns_scaled. eapply const_amap; [apply Cmul_C0_r|].
    now apply const_fftshift. }
  intros t Ht.
  apply returns_bind with (const_array C0); [now apply returns_scaled|].
  intros u Hu. now apply returns_sum.
Qed.

Lemma recon_step_zero G self coeff recur log_rad Xrcos Yrcos angle :
  Forall zero_level coeff ->
  (forall a b c d, returns (const_array C0) (recur a b c d)) ->
  returns (const_array C0)
    (recon_step G self coeff recur log_rad Xrcos Yrcos angle).
Proof.
  intros Hc Hrec. unfold recon_step. cbv zeta.
  apply returns_bind with (fun _ => True); [apply returns_any|].
  intros const _.
  apply returns_bind with zero_level; [now apply returns_index|].
  intros c0 Hc0.
  apply returns_bind with (Forall (const_array C0)).
  { destruct c0 as [a|bs]; [apply returns_Err | now apply returns_Ok]. }
  intros bs Hbs.
  apply returns_bind with (fun _ => True); [apply returns_any|].
  intros b0 _.
  apply returns_bind with (const_array C0).
  { apply returns_foldM with (Q := fun _ => True);
      [apply Forall_trivial | | now apply const_tabulate].
    intros s b _ Hs. now apply recon_band_zero. }
  intros orientdft Ho.
  apply returns_bind with (const_array C0); [apply Hrec|].
  intros nresdft Hn.
  apply returns_bind with (const_array C0); [now apply returns_scaled|].
  intros v Hv.
  apply returns_bind with (const_array C0).
  { apply returns_assign_block; [exact Hv | now apply const_tabulate]. }
  intros resdft Hres. now apply returns_sum.
Qed.

Lemma reconstruct_levels_zero G self coeff :
  Forall zero_level coeff ->
  forall log_rad Xrcos Yrcos angle,
    returns (const_array C0)
      (_reconstruct_levels G self coeff log_rad Xrcos Yrcos angle).
Proof.
  induction coeff as [|c rest IH]; intros Hc log_rad Xrcos Yrcos angle.
  - cbn [_reconstruct_levels]. apply recon_step_zero; [exact Hc|].
    intros; apply returns_Err.
  - destruct rest as [|c' rest].
    + cbn [_reconstruct_levels]. destruct c as [a|bs]; [|apply returns_Err].
      apply returns_bind with (const_array C0).
      * apply returns_fft2. inversion Hc; subst.
        eapply const_amap; [|eassumption]. reflexivity.
      * intros f Hf. now apply returns_Ok, const_fftshift.
    + remember (c' :: rest) as r. cbn [_reconstruct_levels]. subst r.
      apply recon_step_zero; [exact Hc|].
      intros. apply IH. now inversion Hc.
Qed.

Lemma astype_int_zero : astype_int (Cre C0) = 0%Z.
Proof.
  unfold astype_int, Cre, C0. cbn [fst].
  destruct (Rle_dec 0 0) as [_|Hn]; [|exfalso; lra].
  now rewrite (ZfloorZ 0).
Qed.

(** Where [reconstruct] returns for levels of zeros, every pixel is 0. *)
Lemma reconstruct_zero G self coeff :
  Forall zero_level coeff ->
  returns (const_array 0%Z) (reconstruct G self (CoeffList coeff)).
Proof.
  intros Hc. unfold reconstruct.
  apply returns_bind with (const_array C0).
  2:{ intros outdft Ho.
      apply returns_bind with (const_array C0);
        [now apply returns_ifft2, const_ifftshift|].
      intros r Hr. apply returns_Ok.
      eapply const_amap; [|exact Hr]. apply astype_int_zero. }
  unfold reconstruct_outdft.
  apply returns_bind with (fun _ => True); [apply returns_any|].
  intros c1 _. destruct (negb _); [apply returns_Err|].
  apply returns_bind with zero_level; [now apply returns_index|].
  intros c0 Hc0.
  apply returns_bind with (const_array 0%R).
  { destruct c0 as [a|bs]; [now apply returns_Ok | apply returns_Err]. }
  intros a0 Ha0. destruct (shape a0) as [M N].
  destruct (prepare_grid G M N) as [log_rad angle].
  destruct (rcosFn G 1 (-0.5)) as [Xrcos Yrcos]. cbv zeta.
  apply returns_bind with (const_array C0).
  { apply reconstruct_levels_zero.
    destruct Hc as [|c coeff _ Hc]; [constructor | exact Hc]. }
  intros tempdft Ht.
  apply returns_bind with (const_array C0).
  { apply returns_fft2. eapply const_amap; [|exact Ha0]. reflexivity. }
  intros f Hf.
  apply returns_bind with (const_array C0); [now apply returns_scaled|].
  intros t1 H1.
  apply returns_bind with (const_array C0);
    [now apply returns_scaled, const_fftshift|].
  intros t2 H2. now apply returns_sum.
Qed.

End NumPy_zero.

(** X23: for the blank image of any shape, and any configuration that
    [build] accepts with at most 99 bands, every coefficient of the
    pyramid is zero: the high-pass residual, every oriented subband and
    the low-pass residual.  (From 100 bands on the angular constant is
    not a finite float64.) *)
Theorem build_of_blank (G : GridMaskGenerator) (self : NumPy.SCFpyr_NumPy)
  (H W : nat) :
  (2 <= NumPy.height self <= Z.log2 (Z.of_nat (Nat.min W H)) - 2)%Z ->
  (1 <= NumPy.nbands self)%Z -> finite_const self ->
  exists levels,
    snd (NumPy.build G self (blank H W))
    = Ok (NumPy.mkPyramid (NumPy.height self) (NumPy.nbands self)
            (map Some levels)) /\
    length levels = Z.to_nat (NumPy.height self) /\
    Forall zero_level levels.
Proof.
  intros Hh Hnb _.
  assert (Hmin : 0 < Nat.min W H) by (apply log2_pos_arg; lia).
  assert (HH : 0 < H) by lia. assert (HW : 0 < W) by lia.
  destruct (NumPy_build_facts.build_ok G self (blank H W) H W
              (rect_tabulate H W _) HH HW Hh Hnb)
    as (hi & coeff & Hb & Rhi & Hlv).
  pose proof (NumPy_shape_facts.levels_ok_length _ _ _ _ _ Hlv) as Lc.
  exists (NumPy.Real hi :: coeff).
  split; [exact Hb|]. split; [cbn [length]; rewrite Lc; lia|].
  assert (Hz : const_array 0%R (blank H W))
    by now apply const_tabulate.
  pose proof (NumPy_zero.build_zero G self (blank H W) Hz _ Hb) as Hall.
  cbn [NumPy._coeff] in Hall.
  change (Some (NumPy.Real hi) :: map Some coeff)
    with (map Some (NumPy.Real hi :: coeff)) in Hall.
  rewrite Forall_map in Hall. exact Hall.
Qed.

Lemma build_of_blank_witness :
  exists levels,
    snd (NumPy.build flat_utils pyr3 (blank 32 32))
    = Ok (NumPy.mkPyramid (NumPy.height pyr3) (NumPy.nbands pyr3)
            (map Some levels)) /\
    length levels = Z.to_nat (NumPy.height pyr3) /\
    Forall zero_level levels.
Proof.
  apply (build_of_blank flat_utils pyr3 32 32).
  - cbn. lia.
  - cbn. lia.
  - unfold finite_const. cbn. lia.
Defined.

(** X24: a coefficient list of zeros with at least one level of subbands
    and at most 99 bands is reconstructed to the image of zeros of the
    shape of the high-pass residual, for every grid and mask
    generator. *)
Theorem reconstruct_of_zero_levels (G : GridMaskGenerator)
  (self : NumPy.SCFpyr_NumPy) (H W : nat) (tree : list NumPy.level) :
  pyramid_tree self H W tree -> 3 <= length tree -> finite_const self ->
  Forall zero_level tree ->
  NumPy.reconstruct G self (NumPy.CoeffList tree) = Ok (zeros 0%Z (H, W)).
Proof.
  intros Hp Hl _ Hz.
  pose proof (pyramid_tree_valid self H W tree Hp Hl) as Hv.
  assert (HH : 0 < H) by apply Hv. assert (HW : 0 < W) by apply Hv.
  destruct (NumPy_recon_ok.reconstruct_outdft_ok G self H W tree Hv)
    as (outdft & Ho & Ro).
  destruct (ifft2_rect H W (ifftshift outdft)) as (r & Hr & Rr);
    [assumption | assumption | now apply rect_ifftshift |].
  assert (E : NumPy.reconstruct G self (NumPy.CoeffList tree)
              = Ok (amap (fun z => astype_int (Cre z)) r)).
  { unfold NumPy.reconstruct. rewrite Ho. cbn [bind]. now rewrite Hr. }
  rewrite E. f_equal. apply const_rect_zeros; [now apply rect_amap|].
  exact (NumPy_zero.reconstruct_zero G self tree Hz _ E).
Qed.

Lemma reconstruct_of_zero_levels_witness :
  NumPy.reconstruct flat_utils pyr_nb1
    (NumPy.CoeffList
       [NumPy.Real [[0%R]]; NumPy.Bands [[[C0]]]; NumPy.Real [[0%R]]])
  = Ok (zeros 0%Z (1, 1)).
Proof.
  apply (reconstruct_of_zero_levels flat_utils pyr_nb1 1 1).
  - unfold pyramid_tree. split; [lia|]. split; [lia|]. split; [cbn; lia|].
    exists [[0%R]], [NumPy.Bands [[[C0]]]; NumPy.Real [[0%R]]], 2.
    split; [reflexivity|]. split; [lia|].
    split; [split; [reflexivity | repeat constructor]|].
    exists [[[C0]]], [NumPy.Real [[0%R]]].
    split; [reflexivity|]. split; [reflexivity|].
    split; [repeat constructor|].
    exists [[0%R]]. split; [reflexivity|].
    split; [reflexivity | repeat constructor].
  - simpl. lia.
  - unfold finite_const. cbn. lia.
  - repeat constructor.
Defined.

(** ** The shapes in closed form *)

Lemma iter_next_dim_closed (k d : nat) :
  Nat.iter k next_dim d = ceil_div_pow2 d k.
Proof.
  unfold ceil_div_pow2. induction k as [|k IH].
  - change (d = (d + 1 - 1) / 1). rewrite Nat.div_1_r. lia.
  - rewrite Nat.iter_succ, IH. unfold next_dim.
    assert (Hp : 0 < 2 ^ k) by (apply Nat.neq_0_lt_0, Nat.pow_nonzero; lia).
    rewrite Nat.pow_succ_r'.
    replace ((d + 2 ^ k - 1) / 2 ^ k + 1)
      with ((d + 2 ^ k - 1 + 1 * 2 ^ k) / 2 ^ k)
      by (rewrite Nat.div_add by lia; reflexivity).
    rewrite Nat.Div0.div_div. f_equal; lia.
Qed.

(** X25: in every pyramid that [build] returns, level [k >= 1] has the
    shape [ceil(H / 2^(k-1))] by [ceil(W / 2^(k-1))], and the check on
    the height keeps the low-pass residual at 16 samples or more on each
    axis. *)
Theorem level_shapes_closed_form (G : GridMaskGenerator)
  (self : NumPy.SCFpyr_NumPy) (im : array R) (H W : nat) :
  rect H W im ->
  (2 <= NumPy.height self <= Z.log2 (Z.of_nat (Nat.min W H)) - 2)%Z ->
  (1 <= NumPy.nbands self)%Z ->
  let n := Z.to_nat (NumPy.height self) in
  exists t pyr lo,
    NumPy.build G self im = (t, Ok pyr) /\
    (forall k, 1 <= k <= n - 2 ->
       exists bs,
         nth_error (NumPy._coeff pyr) k = Some (Some (NumPy.Bands bs)) /\
         Forall (fun b => shape b = (ceil_div_pow2 H (k - 1),
                                     ceil_div_pow2 W (k - 1))) bs) /\
    nth_error (NumPy._coeff pyr) (n - 1) = Some (Some (NumPy.Real lo)) /\
    shape lo = (ceil_div_pow2 H (n - 2), ceil_div_pow2 W (n - 2)) /\
    16 <= fst (shape lo) /\ 16 <= snd (shape lo).
Proof.
  intros Him Hh Hnb n.
  assert (Hmin : 0 < Nat.min W H) by (apply log2_pos_arg; lia).
  assert (HH : 0 < H) by lia. assert (HW : 0 < W) by lia.
  destruct (NumPy_build_facts.build_ok G self im H W Him HH HW Hh Hnb)
    as (hi & coeff & Hb & Rhi & Hlv).
  destruct (NumPy_level_facts.levels_ok_nth _ _ _ _ _ Hlv ltac:(lia))
    as (Hmid & lo & Hlo & Rlo).
  assert (Hpow : 2 ^ (n - 2 + 4) <= Nat.min W H).
  { replace (n - 2 + 4) with (Z.to_nat (NumPy.height self + 2)) by lia.
    apply pow2_le_of_log2; lia. }
  assert (E2 : Z.to_nat (NumPy.height self - 1) - 1 = n - 2) by lia.
  rewrite E2 in *.
  assert (Slo : shape lo = (ceil_div_pow2 H (n - 2),
                            ceil_div_pow2 W (n - 2))).
  { rewrite <- !iter_next_dim_closed.
    apply rect_shape; [exact Rlo | now apply iter_next_dim_pos]. }
  eexists _, _, lo. split; [apply io_result; exact Hb|].
  cbn [NumPy._coeff]. split; [|split; [|split; [exact Slo|]]].
  - intros k Hk. destruct (Hmid (k - 1) ltac:(lia)) as (bs & Hn & _ & Rbs).
    exists bs. split.
    + destruct k as [|k]; [lia|]. cbn [nth_error].
      rewrite nth_error_map. replace (S k - 1) with k in Hn by lia.
      now rewrite Hn.
    + eapply Forall_impl; [| exact Rbs]. intros b Rb.
      rewrite <- !iter_next_dim_closed.
      apply rect_shape; [exact Rb | now apply iter_next_dim_pos].
  - destruct (n - 1) as [|m] eqn:Em; [lia|]. cbn [nth_error].
    rewrite nth_error_map. replace m with (n - 2) by lia.
    now rewrite Hlo.
  - rewrite Slo. cbn [fst snd]. rewrite <- !iter_next_dim_closed.
    split; apply (iter_next_dim_lower (n - 2) 4); lia.
Qed.

Lemma level_shapes_closed_form_witness :
  exists t pyr lo,
    NumPy.build flat_utils pyr3 (blank 32 32) = (t, Ok pyr) /\
    (forall k, 1 <= k <= 3 - 2 ->
       exists bs,
         nth_error (NumPy._coeff pyr) k = Some (Some (NumPy.Bands bs)) /\
         Forall (fun b => shape b = (ceil_div_pow2 32 (k - 1),
                                     ceil_div_pow2 32 (k - 1))) bs) /\
    nth_error (NumPy._coeff pyr) (3 - 1) = Some (Some (NumPy.Real lo)) /\
    shape lo = (ceil_div_pow2 32 (3 - 2), ceil_div_pow2 32 (3 - 2)) /\
    16 <= fst (shape lo) /\ 16 <= snd (shape lo).
Proof.
  apply (level_shapes_closed_form flat_utils pyr3 (blank 32 32) 32 32).
  - apply rect_tabulate.
  - cbn. lia.
  - cbn. lia.
Defined.

(** ** Inputs that the checks do not catch *)

(** X26: on an image with an empty axis both [build] raise
    [OverflowError] at the conversion of [log2(0) - 2] to [int], before
    the check on the height, and print nothing; the tensor class does so
    once its checks on type and rank have passed. *)
Theorem build_empty_axis (T : TorchOps) (G : GridMaskGenerator)
  (np : NumPy.SCFpyr_NumPy) (pt : PyTorch.SCFpyr_PyTorch)
  (im : array R) (im_batch : Tensor T) :
  (Nat.min (snd (shape im)) (fst (shape im)) = 0 ->
   NumPy.build G np im = ([], Err OverflowError)) /\
  (is_float32 T im_batch = true ->
   length (tensor_shape T im_batch) = 3 ->
   Nat.min (nth 2 (tensor_shape T im_batch) 0)
           (nth 1 (tensor_shape T im_batch) 0) = 0 ->
   PyTorch.build T G pt im_batch = ([], Err OverflowError)).
Proof.
  split.
  - intros Hmin. unfold NumPy.build.
    destruct (shape im) as [h w]. cbn [fst snd] in Hmin.
    unfold NumPy.max_height_pyr. rewrite Hmin. reflexivity.
  - intros Hf Hs Hmin. unfold PyTorch.build. rewrite Hf, Hs.
    cbn [Nat.eqb assert]. rewrite !(iobind_lift_Ok _ eq_refl).
    unfold NumPy.max_height_pyr. rewrite Hmin. reflexivity.
Qed.

Lemma foldM_stops {A S : Type} (P : S -> Prop) (f : S -> A -> result S)
  (l1 l2 : list A) (a : A) (e : pyerr) : forall s,
  P s ->
  (forall s x, In x l1 -> P s -> exists s', f s x = Ok s' /\ P s') ->
  (forall s, P s -> f s a = Err e) ->
  foldM f (l1 ++ a :: l2) s = Err e.
Proof.
  induction l1 as [|x l1 IH]; intros s Ps Hok Hstop; cbn [app foldM].
  - now rewrite Hstop.
  - destruct (Hok s x (or_introl eq_refl) Ps) as (s' & Hs' & Ps').
    rewrite Hs'. cbn [bind]. apply IH; [exact Ps' | | exact Hstop].
    intros s0 y Hy. apply Hok. now right.
Qed.

Lemma seq_split_at (k n : nat) :
  k < n -> seq 0 n = seq 0 k ++ k :: seq (S k) (n - S k).
Proof.
  intros Hk. replace n with (k + S (n - S k)) at 1 by lia.
  rewrite seq_app. reflexivity.
Qed.

Module NumPy_short.
Import NumPy.

(** A level with fewer subbands than [nbands], followed by a further
    level, stops the loop over the bands at the first missing one. *)
Lemma recon_step_short G self h w bs rest recur log_rad Xrcos Yrcos angle :
  (1 <= nbands self)%Z -> 0 < h -> 0 < w ->
  Forall (rect h w) bs -> length bs < Z.to_nat (nbands self) ->
  rect h w log_rad -> rect h w angle ->
  recon_step G self (Bands bs :: rest) recur log_rad Xrcos Yrcos angle
  = Err IndexError.
Proof.
  intros Hnb Hh Hw Rbs Lbs Rlr Ran. unfold recon_step. cbv zeta.
  destruct (NumPy_shape_facts.angular_const_ok _ Hnb) as (c & Hc).
  rewrite Hc. cbn [bind index nth_error].
  destruct bs as [|b0 bs]; [reflexivity|].
  cbn [index nth_error bind].
  assert (Rb0 : rect h w b0) by now inversion Rbs.
  rewrite (rect_shape h w b0 Rb0 Hh).
  rewrite (seq_split_at (length (b0 :: bs)) (Z.to_nat (nbands self)) Lbs).
  rewrite (foldM_stops (rect h w)) with (e := IndexError);
    [reflexivity | apply rect_tabulate | |].
  - intros s b Hb Rs. apply in_seq in Hb.
    apply NumPy_recon_ok.recon_band_ok with (h := h) (w := w); auto;
      try lia.
    now apply rect_pointOp.
  - intros s _. unfold recon_band.
    now rewrite index_out_of_range by lia.
Qed.

End NumPy_short.

(** X27: the number of subbands is checked at level 1 only.  A list
    whose level 1 is valid and whose level 2, followed by at least one
    more level, holds fewer than [nbands] subbands of the cropped shape
    passes the check and raises [IndexError] in the loop over the bands
    of level 2, not the exception on unmatched orientations. *)
Theorem reconstruct_short_level (G : GridMaskGenerator)
  (self : NumPy.SCFpyr_NumPy) (H W : nat) (hi : array R)
  (bs1 bs2 : list (array C)) (rest : list NumPy.level) :
  0 < H -> 0 < W -> (1 <= NumPy.nbands self)%Z ->
  rect H W hi ->
  length bs1 = Z.to_nat (NumPy.nbands self) -> Forall (rect H W) bs1 ->
  length bs2 < Z.to_nat (NumPy.nbands self) ->
  Forall (rect (next_dim H) (next_dim W)) bs2 ->
  rest <> [] ->
  NumPy.reconstruct G self
    (NumPy.CoeffList
       (NumPy.Real hi :: NumPy.Bands bs1 :: NumPy.Bands bs2 :: rest))
  = Err IndexError.
Proof.
  intros HH HW Hnb Rhi L1 R1 L2 R2 Hrest.
  destruct rest as [|c rest]; [contradiction|].
  unfold NumPy.reconstruct, NumPy.reconstruct_outdft, index.
  cbn [nth_error bind NumPy.level_len]. rewrite L1.
  replace (NumPy.nbands self =? Z.of_nat (Z.to_nat (NumPy.nbands self)))%Z
    with true by (symmetry; apply Z.eqb_eq; lia).
  cbn [negb]. rewrite (rect_shape H W hi Rhi HH).
  unfold prepare_grid.
  destruct (rcosFn G 1 (-0.5)) as [Xrcos Yrcos0].
  set (Yrcos := map sqrt Yrcos0).
  set (log_rad := tabulate H W (log_rad_at G H W)).
  set (angle := tabulate H W (angle_at G H W)).
  assert (Rlr : rect H W log_rad) by apply rect_tabulate.
  assert (Ran : rect H W angle) by apply rect_tabulate.
  cbn [tl]. rewrite NumPy_recon_ok.reconstruct_levels_rec.
  unfold NumPy.recon_step at 1. cbv zeta.
  destruct (NumPy_shape_facts.angular_const_ok _ Hnb) as (k & Hk).
  rewrite Hk. cbn [bind index nth_error].
  destruct bs1 as [|b0 bs1]; [simpl in L1; lia|].
  cbn [index nth_error bind].
  assert (Rb0 : rect H W b0) by now inversion R1.
  rewrite (rect_shape H W b0 Rb0 HH).
  set (Xrcos' := map (fun x => (x - 1)%R) Xrcos).
  destruct (foldM_ok
              (NumPy.recon_band G self (b0 :: bs1) angle
                 (pointOp G log_rad Yrcos Xrcos')
                 (NumPy.recon_Ycosn k (Z.to_nat (NumPy.nbands self - 1))))
              (rect H W) (seq 0 (Z.to_nat (NumPy.nbands self)))
              (zeros C0 (H, W)))
    as (orientdft & Hor & Ror).
  { intros s b Hb Rs. apply in_seq in Hb.
    apply NumPy_recon_ok.recon_band_ok with (h := H) (w := W); auto;
      try lia.
    now apply rect_pointOp. }
  { apply rect_tabulate. }
  rewrite Hor. cbn [bind].
  rewrite NumPy_recon_ok.reconstruct_levels_rec.
  rewrite (NumPy_short.recon_step_short G self (next_dim H) (next_dim W));
    [reflexivity | exact Hnb | now apply next_dim_pos
    | now apply next_dim_pos | exact R2 | exact L2
    | now apply rect_crop_window | now apply rect_crop_window].
Qed.

Lemma reconstruct_short_level_witness :
  NumPy.reconstruct flat_utils pyr_nb2
    (NumPy.CoeffList
       (NumPy.Real [[0%R]] :: NumPy.Bands [[[C0]]; [[C0]]]
        :: NumPy.Bands [[[C0]]] :: [NumPy.Real [[0%R]]]))
  = Err IndexError.
Proof.
  apply (reconstruct_short_level flat_utils pyr_nb2 1 1).
  - lia.
  - lia.
  - cbn. lia.
  - split; [reflexivity | repeat constructor].
  - reflexivity.
  - repeat constructor.
  - cbn. lia.
  - repeat constructor.
  - discriminate.
Defined.
